(** * Cine-compass: showtime aggregation, venue scope and timeline availability

    A shallow embedding of the data service ([movieService]) and of the
    timeline component ([MovieTimeline]) of the cine-compass front end,
    followed by the properties of the design document that were checked
    against it.

    Conventions of the embedding:
    - JavaScript strings are [string]; [toLowerCase] and [trim] are modelled
      on the ASCII range (letters A-Z, the six ASCII white-space characters),
      other code units are left untouched;
    - a JavaScript [number] that holds a time value is [JS.number]
      ([NaN] or an integral count of milliseconds); minutes, years and
      durations are [Z];
    - [T | null] is [option T]; an [async] function is a computation over the
      module-level caches that ends in a resolved or a rejected promise: one
      call, taken as a whole ([MovieService.Async]); calls that overlap are
      the subject of [Interleaving], where a call is cut at its awaits;
    - a [Map] whose iteration order is observable is an association list in
      insertion order; a [Map] used as a cache is a [gmap]. *)

From Stdlib Require Import String Ascii ZArith List Bool Permutation Sorted Lia
  DecimalString.
From stdpp Require Import base gmap strings.
Import ListNotations.

Local Open Scope string_scope.

(* ================================================================== *)
(** * Part I: the program                                              *)
(* ================================================================== *)

(** ** JavaScript built-ins *)

Module JS.

(** [String.prototype.toLowerCase], ASCII range. *)
Definition lowerChar (c : ascii) : ascii :=
  let n := N_of_ascii c in
  if ((65 <=? n) && (n <=? 90))%N then ascii_of_N (n + 32) else c.

Fixpoint toLowerCase (s : string) : string :=
  match s with
  | EmptyString => EmptyString
  | String c r => String (lowerChar c) (toLowerCase r)
  end.

(** [s.includes(sub)]: [sub] occurs in [s] as a contiguous substring. *)
Fixpoint includes (s sub : string) : bool :=
  String.prefix sub s ||
  match s with
  | EmptyString => false
  | String _ r => includes r sub
  end.

(** White space removed by [String.prototype.trim], ASCII range:
    TAB, LF, VT, FF, CR and SPACE. *)
Definition isWhiteSpace (c : ascii) : bool :=
  let n := N_of_ascii c in
  (((9 <=? n) && (n <=? 13)) || (n =? 32))%N.

Fixpoint trimStart (s : string) : string :=
  match s with
  | EmptyString => EmptyString
  | String c r => if isWhiteSpace c then trimStart r else s
  end.

Fixpoint trimEnd (s : string) : string :=
  match s with
  | EmptyString => EmptyString
  | String c r =>
      match trimEnd r with
      | EmptyString => if isWhiteSpace c then EmptyString else String c EmptyString
      | r' => String c r'
      end
  end.

Definition trim (s : string) : string := trimEnd (trimStart s).

(** Truthiness of a string: every string but the empty one. *)
Definition truthy (s : string) : bool := negb (String.eqb s "").

(** [a || b] where [a] is a string, [null] or [undefined]. *)
Definition orElse (a : option string) (b : string) : string :=
  match a with
  | Some s => if truthy s then s else b
  | None => b
  end.

(** [Array.from(new Set(xs))]: the distinct elements of [xs], each at the
    position of its first occurrence. *)
Fixpoint arrayFromSet (xs : list string) : list string :=
  match xs with
  | [] => []
  | x :: r => x :: List.filter (fun y => negb (String.eqb y x)) (arrayFromSet r)
  end.

(** [xs.includes(x)] on an array of strings. *)
Definition arrayIncludes (xs : list string) (x : string) : bool :=
  existsb (String.eqb x) xs.

(** Template-literal rendering of an integral number. *)
Definition numberToString (z : Z) : string := NilZero.string_of_int (Z.to_int z).

(** A [number] holding a time value: [Date.prototype.getTime] answers
    [NaN] for an invalid date and an integral number of milliseconds
    otherwise. *)
Inductive number : Type :=
| NaN
| Num (z : Z).

Definition add (a : number) (b : Z) : number :=
  match a with
  | NaN => NaN
  | Num z => Num (z + b)
  end.

(** [a >= b]; every comparison with [NaN] is false. *)
Definition geq (a b : number) : bool :=
  match a, b with
  | Num x, Num y => (y <=? x)%Z
  | _, _ => false
  end.

(** Truthiness of a number: neither [0] nor [NaN]. *)
Definition numTruthy (a : number) : bool :=
  match a with
  | NaN => false
  | Num z => negb (z =? 0)%Z
  end.

(** [a - b] on numbers. *)
Definition sub (a b : number) : number :=
  match a, b with
  | Num x, Num y => Num (x - y)
  | _, _ => NaN
  end.

(** [xs.sort()] on an array of strings: ascending by code units.  The
    order being total, the sorted array is determined by its elements. *)
Fixpoint insertSorted (x : string) (xs : list string) : list string :=
  match xs with
  | [] => [x]
  | y :: rest => if String.leb x y then x :: y :: rest else y :: insertSorted x rest
  end.

Definition sortStrings (xs : list string) : list string := fold_right insertSorted [] xs.

(** [xs.indexOf(x)]; [None] stands for -1. *)
Fixpoint indexOf (xs : list string) (x : string) : option nat :=
  match xs with
  | [] => None
  | y :: rest =>
      if String.eqb y x then Some 0%nat
      else match indexOf rest x with
           | Some i => Some (S i)
           | None => None
           end
  end.

(** [xs.splice(i, 1)] as it leaves the array. *)
Fixpoint removeAt {A} (i : nat) (xs : list A) : list A :=
  match xs, i with
  | [], _ => []
  | _ :: rest, O => rest
  | y :: rest, S j => y :: removeAt j rest
  end.

(** [xs.splice(i, 0, x)] as it leaves the array; an index past the end
    inserts at the end. *)
Fixpoint insertAt {A} (i : nat) (x : A) (xs : list A) : list A :=
  match xs, i with
  | [], _ => [x]
  | _, O => x :: xs
  | y :: rest, S j => y :: insertAt j x rest
  end.

(** Outcome of a promise. *)
Inductive outcome (A : Type) : Type :=
| Resolved (a : A)
| Rejected (message : string).
Arguments Resolved {A} a.
Arguments Rejected {A} message.

End JS.

(** ** Data model ([types/Movie]) *)

Module CinevilleAsset.
Record t : Type := mk {
  url : string;
  mime : option string;
  alternativeText : option string
}.
End CinevilleAsset.

Module CinevilleAddress.
Record t : Type := mk {
  street : string;
  houseNumber : string;
  postalCode : string;
  city : string;
  country : string
}.
End CinevilleAddress.

Module CinevilleTheater.
Record t : Type := mk {
  id : string;
  slug : string;
  name : string;
  address : CinevilleAddress.t;
  cover : option CinevilleAsset.t;
  website : option string;
  shortDescription : option string;
  intro : option string;
  description : option string;
  ticketInfo : option string
}.
End CinevilleTheater.

Module CinevilleFilm.
Record t : Type := mk {
  id : string;
  slug : string;
  title : string;
  cover : option CinevilleAsset.t;
  poster : option CinevilleAsset.t;
  trailer : option CinevilleAsset.t;
  cast : option (list string);
  duration : Z;
  directors : option (list string);
  releaseYear : Z;
  spokenLanguages : option (list (option string));
  contentRatingMinimumAge : option Z;
  premiereDate : option string;
  shortDescription : string;
  description : string;
  editorsNote : option string
}.
End CinevilleFilm.

Module CinevilleShowtime.
Record t : Type := mk {
  id : string;
  film : CinevilleFilm.t;
  theater : CinevilleTheater.t;
  startDate : string;
  endDate : string;
  subtitles : string;
  languageVersion : option string;
  ticketingUrl : option string;
  specials : option string
}.
End CinevilleShowtime.

Module MovieShowtime.
Record t : Type := mk {
  id : string;
  startDate : string;
  endDate : string;
  theaterId : string;
  theaterName : string;
  theaterCity : string;
  ticketingUrl : option string;
  specials : option string;
  subtitles : string;
  languageVersion : option string
}.
End MovieShowtime.

Module Movie.
Record t : Type := mk {
  id : string;
  title : string;
  poster_path : string;
  release_date : string;
  overview : string;
  vote_average : Z;
  genre_ids : list Z;
  duration : Z;
  directors : list string;
  cast : list string;
  releaseYear : Z;
  spokenLanguages : list string;
  availableSubtitles : list string;
  availableLanguageVersions : list string;
  availableSpecials : list string;
  showtimes : list MovieShowtime.t
}.
End Movie.

Module MovieResponse.
Record t : Type := mk {
  page : Z;
  results : list Movie.t;
  total_pages : Z;
  total_results : Z
}.
End MovieResponse.

Module MovieFilters.
Record t : Type := mk {
  selectedCity : option string;
  selectedTheaters : list string;
  selectedSubtitleLanguages : list string;
  selectedSpokenLanguages : list string;
  selectedSpecials : list string;
  startTime : option string;
  endTime : option string;
  startDate : option string;
  endDate : option string
}.
End MovieFilters.

Module Theater.
Record t : Type := mk {
  id : string;
  name : string;
  city : string
}.
End Theater.

Module City.
Record t : Type := mk {
  name : string;
  theaters : list Theater.t
}.
End City.

Module SavedShowtime.
Record t : Type := mk {
  movieId : string;
  movieTitle : string;
  posterPath : string;
  showtimeId : string;
  startDate : string;
  endDate : string;
  theaterId : string;
  theaterName : string;
  theaterCity : string;
  ticketingUrl : option string
}.
End SavedShowtime.

(** ** The data service ([services/movieService]) *)

Module MovieService.

Import JS.

(** *** Film conversion *)

(** One showtime in the application's own format. *)
Definition toMovieShowtime (showtime : CinevilleShowtime.t) : MovieShowtime.t :=
  {| MovieShowtime.id := CinevilleShowtime.id showtime;
     MovieShowtime.startDate := CinevilleShowtime.startDate showtime;
     MovieShowtime.endDate := CinevilleShowtime.endDate showtime;
     MovieShowtime.theaterId := CinevilleTheater.id (CinevilleShowtime.theater showtime);
     MovieShowtime.theaterName := CinevilleTheater.name (CinevilleShowtime.theater showtime);
     MovieShowtime.theaterCity :=
       CinevilleAddress.city (CinevilleTheater.address (CinevilleShowtime.theater showtime));
     MovieShowtime.ticketingUrl := CinevilleShowtime.ticketingUrl showtime;
     MovieShowtime.specials := CinevilleShowtime.specials showtime;
     MovieShowtime.subtitles := CinevilleShowtime.subtitles showtime;
     MovieShowtime.languageVersion := CinevilleShowtime.languageVersion showtime |}.

(** [xs.filter(x => x.trim()).map(x => x.trim())] followed by
    [Array.from(new Set(...))]. *)
Definition distinctLabels (labels : list string) : list string :=
  arrayFromSet (map trim (List.filter (fun label => truthy (trim label)) labels)).

Definition hasLanguageVersion (showtime : CinevilleShowtime.t) : bool :=
  match CinevilleShowtime.languageVersion showtime with
  | Some v => truthy v && truthy (trim v)
  | None => false
  end.

(** [showtime.languageVersion.trim()]; only evaluated on showtimes that
    passed [hasLanguageVersion], where the label is present. *)
Definition languageVersionLabel (showtime : CinevilleShowtime.t) : string :=
  match CinevilleShowtime.languageVersion showtime with
  | Some v => trim v
  | None => ""
  end.

(** [(film.spokenLanguages || []).filter(lang => lang !== null && lang.trim())] *)
Definition presentLanguages (langs : option (list (option string))) : list string :=
  flat_map
    (fun lang =>
       match lang with
       | Some l => if truthy (trim l) then [l] else []
       | None => []
       end)
    (match langs with Some ls => ls | None => [] end).

Definition posterPath (film : CinevilleFilm.t) : string :=
  orElse (option_map CinevilleAsset.url (CinevilleFilm.poster film))
    (orElse (option_map CinevilleAsset.url (CinevilleFilm.cover film)) "").

Definition convertCinevilleFilmToMovie
    (film : CinevilleFilm.t) (showtimes : list CinevilleShowtime.t) : Movie.t :=
  let rating := 0%Z in
  let availableSubtitles :=
    distinctLabels
      (map (fun showtime => orElse (Some (CinevilleShowtime.subtitles showtime)) "") showtimes) in
  let availableLanguageVersions :=
    arrayFromSet (map languageVersionLabel (List.filter hasLanguageVersion showtimes)) in
  let availableSpecials :=
    distinctLabels
      (map (fun showtime => orElse (CinevilleShowtime.specials showtime) "") showtimes) in
  let movieShowtimes := map toMovieShowtime showtimes in
  {| Movie.id := CinevilleFilm.id film;
     Movie.title := CinevilleFilm.title film;
     Movie.poster_path := posterPath film;
     Movie.release_date :=
       orElse (CinevilleFilm.premiereDate film)
         (numberToString (CinevilleFilm.releaseYear film) ++ "-01-01");
     Movie.overview :=
       orElse (Some (CinevilleFilm.shortDescription film))
         (orElse (Some (CinevilleFilm.description film)) "No description available.");
     Movie.vote_average := rating;
     Movie.genre_ids := [];
     Movie.duration := CinevilleFilm.duration film;
     Movie.directors := match CinevilleFilm.directors film with Some ds => ds | None => [] end;
     Movie.cast := match CinevilleFilm.cast film with Some cs => cs | None => [] end;
     Movie.releaseYear := CinevilleFilm.releaseYear film;
     Movie.spokenLanguages := presentLanguages (CinevilleFilm.spokenLanguages film);
     Movie.availableSubtitles := availableSubtitles;
     Movie.availableLanguageVersions := availableLanguageVersions;
     Movie.availableSpecials := availableSpecials;
     Movie.showtimes := movieShowtimes |}.

(** *** Upstream catalog and module-level caches *)

Record DateRange : Type := {
  gte : string;
  lt : string
}.

(** The [filters] object sent with the showtimes query; [venueId] and
    [subtitles] are absent ([None]) unless assigned. *)
Record ApiFilters : Type := {
  startDate : DateRange;
  venueCollections : list string;
  venueId : option (list string);
  subtitles : option (list string)
}.

Inductive reply (A : Type) : Type :=
| Delivered (data : A)
| Failed.
Arguments Delivered {A} data.
Arguments Failed {A}.

(** What the GraphQL endpoint answers to the two queries of the client. *)
Record Upstream : Type := {
  theatersQuery : reply (list CinevilleTheater.t);
  showtimesQuery : ApiFilters -> reply (list CinevilleShowtime.t)
}.

Record Caches : Type := {
  allTheaterIdsCache : option (list string);
  theatersCache : option (list CinevilleTheater.t);
  cityTheaterIdsCache : gmap string (list string)
}.

Definition emptyCaches : Caches :=
  {| allTheaterIdsCache := None; theatersCache := None; cityTheaterIdsCache := ∅ |}.

(** An [async] function: it reads and writes the caches and settles. *)
Definition Async (A : Type) : Type := Caches -> outcome A * Caches.

Definition resolve {A} (a : A) : Async A := fun st => (Resolved a, st).

Definition reject {A} (message : string) : Async A := fun st => (Rejected message, st).

Definition await {A B} (m : Async A) (k : A -> Async B) : Async B :=
  fun st =>
    match m st with
    | (Resolved a, st') => k a st'
    | (Rejected e, st') => (Rejected e, st')
    end.

Definition tryCatch {A} (body : Async A) (handler : string -> Async A) : Async A :=
  fun st =>
    match body st with
    | (Resolved a, st') => (Resolved a, st')
    | (Rejected e, st') => handler e st'
    end.

Notation "'let!' x ':=' m 'in' k" := (await m (fun x => k))
  (at level 10, x name, m at level 99, k at level 200).

Definition request {A} (answer : reply A) : Async A :=
  match answer with
  | Delivered data => resolve data
  | Failed => reject "request failed"
  end.

Definition setTheatersCache (data : list CinevilleTheater.t) : Async unit :=
  fun st =>
    (Resolved tt,
     {| allTheaterIdsCache := allTheaterIdsCache st;
        theatersCache := Some data;
        cityTheaterIdsCache := cityTheaterIdsCache st |}).

Definition setAllTheaterIdsCache (ids : list string) : Async unit :=
  fun st =>
    (Resolved tt,
     {| allTheaterIdsCache := Some ids;
        theatersCache := theatersCache st;
        cityTheaterIdsCache := cityTheaterIdsCache st |}).

Definition setCityTheaterIds (cityName : string) (ids : list string) : Async unit :=
  fun st =>
    (Resolved tt,
     {| allTheaterIdsCache := allTheaterIdsCache st;
        theatersCache := theatersCache st;
        cityTheaterIdsCache := <[cityName := ids]> (cityTheaterIdsCache st) |}).

(** An array is truthy even when empty, so a cached empty list is served. *)
Definition loadTheaters (up : Upstream) : Async (list CinevilleTheater.t) :=
  fun st =>
    match theatersCache st with
    | Some cached => resolve cached st
    | None =>
        tryCatch
          (let! data := request (theatersQuery up) in
           let! _ := setTheatersCache data in
           resolve data)
          (fun _ => resolve [])
          st
    end.

Definition getAllTheaterIds (up : Upstream) : Async (list string) :=
  fun st =>
    match allTheaterIdsCache st with
    | Some cached => resolve cached st
    | None =>
        (let! theaters := loadTheaters up in
         let ids := map CinevilleTheater.id theaters in
         let! _ := setAllTheaterIdsCache ids in
         resolve ids) st
    end.

Definition inCity (cityName : string) (theater : CinevilleTheater.t) : bool :=
  String.eqb (CinevilleAddress.city (CinevilleTheater.address theater)) cityName.

Definition getTheaterIdsByCity (up : Upstream) (cityName : string) : Async (list string) :=
  fun st =>
    match cityTheaterIdsCache st !! cityName with
    | Some cached => resolve cached st
    | None =>
        (let! theaters := loadTheaters up in
         let theaterIds := map CinevilleTheater.id (List.filter (inCity cityName) theaters) in
         let! _ := setCityTheaterIds cityName theaterIds in
         resolve theaterIds) st
    end.

(** [filters?.selectedTheaters?.length] as a condition. *)
Definition hasSelectedTheaters (filters : option MovieFilters.t) : bool :=
  match filters with
  | Some f => (0 <? length (MovieFilters.selectedTheaters f))%nat
  | None => false
  end.

Definition resolveVenueIds (up : Upstream) (filters : option MovieFilters.t) : Async (list string) :=
  match filters with
  | Some f =>
      if hasSelectedTheaters filters then resolve (MovieFilters.selectedTheaters f)
      else
        match MovieFilters.selectedCity f with
        | Some cityName =>
            if truthy cityName then getTheaterIdsByCity up cityName
            else getAllTheaterIds up
        | None => getAllTheaterIds up
        end
  | None => getAllTheaterIds up
  end.

Record BuildApiFiltersOptions : Type := {
  includeSubtitleFilter : bool
}.

Definition defaultOptions : BuildApiFiltersOptions := {| includeSubtitleFilter := false |}.

Definition hasSelectedSubtitleLanguages (filters : option MovieFilters.t) : bool :=
  match filters with
  | Some f => (0 <? length (MovieFilters.selectedSubtitleLanguages f))%nat
  | None => false
  end.

Definition hasSelectedSpokenLanguages (filters : option MovieFilters.t) : bool :=
  match filters with
  | Some f => (0 <? length (MovieFilters.selectedSpokenLanguages f))%nat
  | None => false
  end.

Section WithClock.

(** [getDateRange] reads the wall clock and the local time zone through
    [Date]; the service is parameterised by it. *)
Variable getDateRange : option MovieFilters.t -> DateRange.

Definition buildApiFilters
    (up : Upstream) (filters : option MovieFilters.t) (options : BuildApiFiltersOptions)
    : Async (ApiFilters * DateRange) :=
  let dateRange := getDateRange filters in
  let! venueIds := resolveVenueIds up filters in
  let venue :=
    if (0 <? length venueIds)%nat then Some venueIds else None in
  let subs :=
    match filters with
    | Some f =>
        if includeSubtitleFilter options && hasSelectedSubtitleLanguages filters
        then Some (MovieFilters.selectedSubtitleLanguages f)
        else None
    | None => None
    end in
  resolve
    ({| startDate := dateRange;
        venueCollections := [];
        venueId := venue;
        subtitles := subs |},
     dateRange).

End WithClock.

(** *** Grouping showtimes by film *)

(** An entry of the [filmShowtimes] map: the film payload stored when the
    key was first set, and the array that later showtimes are pushed on. *)
Record FilmGroup : Type := {
  film : CinevilleFilm.t;
  showtimes : list CinevilleShowtime.t
}.

(** [Map<string, FilmGroup>] in insertion order. *)
Definition FilmMap : Type := list (string * FilmGroup).

Definition mapHas (m : FilmMap) (key : string) : bool :=
  existsb (fun entry => String.eqb (fst entry) key) m.

Fixpoint mapGet (m : FilmMap) (key : string) : option FilmGroup :=
  match m with
  | [] => None
  | (k, v) :: rest => if String.eqb k key then Some v else mapGet rest key
  end.

(** [m.set(key, value)]: an existing key keeps its position. *)
Fixpoint mapSet (m : FilmMap) (key : string) (value : FilmGroup) : FilmMap :=
  match m with
  | [] => [(key, value)]
  | (k, v) :: rest =>
      if String.eqb k key then (k, value) :: rest
      else (k, v) :: mapSet rest key value
  end.

(** [m.get(key)!.showtimes.push(showtime)]: the array of the entry is
    extended in place. *)
Fixpoint mapPush (m : FilmMap) (key : string) (showtime : CinevilleShowtime.t) : FilmMap :=
  match m with
  | [] => []
  | (k, v) :: rest =>
      if String.eqb k key
      then (k, {| film := film v; showtimes := showtimes v ++ [showtime] |}) :: rest
      else (k, v) :: mapPush rest key showtime
  end.

Definition mapValues (m : FilmMap) : list FilmGroup := map snd m.

Definition shouldFilterBySpecials (filters : option MovieFilters.t) : bool :=
  match filters with
  | Some f => (0 <? length (MovieFilters.selectedSpecials f))%nat
  | None => false
  end.

Definition hasMatchingSpecial (f : MovieFilters.t) (showtime : CinevilleShowtime.t) : bool :=
  let showtimeSpecials :=
    orElse (option_map toLowerCase (CinevilleShowtime.specials showtime)) "" in
  existsb
    (fun selectedSpecial => includes showtimeSpecials (toLowerCase selectedSpecial))
    (MovieFilters.selectedSpecials f).

(** The early [return] of the [forEach] callback. *)
Definition skipsShowtime (filters : option MovieFilters.t) (showtime : CinevilleShowtime.t) : bool :=
  match filters with
  | Some f => shouldFilterBySpecials filters && negb (hasMatchingSpecial f showtime)
  | None => false
  end.

(** The body of the [forEach] callback. *)
Definition collectShowtime
    (filters : option MovieFilters.t) (m : FilmMap) (showtime : CinevilleShowtime.t) : FilmMap :=
  if skipsShowtime filters showtime then m
  else
    let key := CinevilleFilm.id (CinevilleShowtime.film showtime) in
    let m1 :=
      if mapHas m key then m
      else mapSet m key {| film := CinevilleShowtime.film showtime; showtimes := [] |} in
    mapPush m1 key showtime.

Definition filmShowtimes
    (filters : option MovieFilters.t) (data : list CinevilleShowtime.t) : FilmMap :=
  fold_left (collectShowtime filters) data [].

Definition matchesSubtitleLanguages (f : MovieFilters.t) (movie : Movie.t) : bool :=
  existsb
    (fun selectedLang =>
       existsb
         (fun availableSubtitle =>
            includes (toLowerCase availableSubtitle) (toLowerCase selectedLang))
         (Movie.availableSubtitles movie))
    (MovieFilters.selectedSubtitleLanguages f).

Definition matchesSpokenLanguages (f : MovieFilters.t) (movie : Movie.t) : bool :=
  existsb
    (fun selectedLang =>
       existsb
         (fun lang => includes (toLowerCase lang) (toLowerCase selectedLang))
         (Movie.spokenLanguages movie))
    (MovieFilters.selectedSpokenLanguages f).

Definition hasPoster (movie : Movie.t) : bool := truthy (Movie.poster_path movie).

(** The [movies] array of [getPopularMovies], from the showtimes of the
    response to the value stored in [results]. *)
Definition movies
    (filters : option MovieFilters.t) (data : list CinevilleShowtime.t) : list Movie.t :=
  let movies0 :=
    List.filter hasPoster
      (map (fun group => convertCinevilleFilmToMovie (film group) (showtimes group))
           (mapValues (filmShowtimes filters data))) in
  let movies1 :=
    match filters with
    | Some f =>
        if hasSelectedSubtitleLanguages filters
        then List.filter (matchesSubtitleLanguages f) movies0
        else movies0
    | None => movies0
    end in
  match filters with
  | Some f =>
      if hasSelectedSpokenLanguages filters
      then List.filter (matchesSpokenLanguages f) movies1
      else movies1
  | None => movies1
  end.

Section Operations.

Variable getDateRange : option MovieFilters.t -> DateRange.

Definition getPopularMovies
    (up : Upstream) (filters : option MovieFilters.t) : Async MovieResponse.t :=
  tryCatch
    (let! built := buildApiFilters getDateRange up filters {| includeSubtitleFilter := true |} in
     let! data := request (showtimesQuery up (fst built)) in
     let found := movies filters data in
     resolve
       {| MovieResponse.page := 1;
          MovieResponse.results := found;
          MovieResponse.total_pages := 1;
          MovieResponse.total_results := Z.of_nat (length found) |})
    (fun _ => reject "Failed to fetch movies").

End Operations.

(** *** The other operations of [movieService] *)

Record SpecialsResult : Type := {
  specials : list string
}.

(** The labels added to [specialsSet], in the order of the additions. *)
Definition addedSpecials (data : list CinevilleShowtime.t) : list string :=
  flat_map
    (fun showtime =>
       match CinevilleShowtime.specials showtime with
       | Some label => if truthy label && truthy (trim label) then [trim label] else []
       | None => []
       end)
    data.

Definition toTheater (theater : CinevilleTheater.t) : Theater.t :=
  {| Theater.id := CinevilleTheater.id theater;
     Theater.name := CinevilleTheater.name theater;
     Theater.city := CinevilleAddress.city (CinevilleTheater.address theater) |}.

(** [Map<string, Theater[]>] in insertion order. *)
Definition CityMap : Type := list (string * list Theater.t).

Definition cityMapHas (m : CityMap) (key : string) : bool :=
  existsb (fun entry => String.eqb (fst entry) key) m.

Fixpoint cityMapGet (m : CityMap) (key : string) : option (list Theater.t) :=
  match m with
  | [] => None
  | (k, v) :: rest => if String.eqb k key then Some v else cityMapGet rest key
  end.

Fixpoint cityMapSet (m : CityMap) (key : string) (value : list Theater.t) : CityMap :=
  match m with
  | [] => [(key, value)]
  | (k, v) :: rest =>
      if String.eqb k key then (k, value) :: rest
      else (k, v) :: cityMapSet rest key value
  end.

(** [m.get(key)!.push(theater)] *)
Fixpoint cityMapPush (m : CityMap) (key : string) (theater : Theater.t) : CityMap :=
  match m with
  | [] => []
  | (k, v) :: rest =>
      if String.eqb k key then (k, (v ++ [theater])%list) :: rest
      else (k, v) :: cityMapPush rest key theater
  end.

(** The body of the [forEach] callback of [getTheaters]. *)
Definition collectTheater (m : CityMap) (theater : CinevilleTheater.t) : CityMap :=
  let city := CinevilleAddress.city (CinevilleTheater.address theater) in
  let m1 := if cityMapHas m city then m else cityMapSet m city [] in
  cityMapPush m1 city (toTheater theater).

Definition theatersByCity (theaters : list CinevilleTheater.t) : CityMap :=
  fold_left collectTheater theaters [].

(** The clause of [searchMovies]: title, a director or an actor contains
    the query, case-insensitively. *)
Definition matchesQuery (query : string) (movie : Movie.t) : bool :=
  includes (toLowerCase (Movie.title movie)) (toLowerCase query)
  || existsb
       (fun director => includes (toLowerCase director) (toLowerCase query))
       (Movie.directors movie)
  || existsb
       (fun actor => includes (toLowerCase actor) (toLowerCase query))
       (Movie.cast movie).

Section MoreOperations.

Variable getDateRange : option MovieFilters.t -> DateRange.

(** [Array.prototype.sort] with a comparator, and [String.prototype.localeCompare]:
    both are the engine's. *)
Variable arraySort : forall A : Type, (A -> A -> number) -> list A -> list A.
Variable localeCompare : string -> string -> number.

Definition getAvailableSpecials
    (up : Upstream) (filters : option MovieFilters.t) : Async SpecialsResult :=
  tryCatch
    (let! built := buildApiFilters getDateRange up filters defaultOptions in
     let! data := request (showtimesQuery up (fst built)) in
     resolve {| specials := sortStrings (arrayFromSet (addedSpecials data)) |})
    (fun _ => resolve {| specials := [] |}).

Definition getTheaters (up : Upstream) : Async (list City.t) :=
  tryCatch
    (let! theaters := loadTheaters up in
     let cities :=
       arraySort City.t
         (fun a b => localeCompare (City.name a) (City.name b))
         (map
            (fun entry =>
               {| City.name := fst entry;
                  City.theaters :=
                    arraySort Theater.t
                      (fun a b => localeCompare (Theater.name a) (Theater.name b))
                      (snd entry) |})
            (theatersByCity theaters)) in
     resolve cities)
    (fun _ => reject "Failed to fetch theaters").

Definition searchMovies
    (up : Upstream) (query : string) (filters : option MovieFilters.t) : Async MovieResponse.t :=
  let! allMovies := getPopularMovies getDateRange up filters in
  let filteredMovies := List.filter (matchesQuery query) (MovieResponse.results allMovies) in
  resolve
    {| MovieResponse.page := 1;
       MovieResponse.results := filteredMovies;
       MovieResponse.total_pages := 1;
       MovieResponse.total_results := Z.of_nat (length filteredMovies) |}.

End MoreOperations.

End MovieService.

(** ** Overlapping calls of the venue directory ([services/movieService])

    [Async] takes a call as one step.  The engine runs an [async] function
    from one [await] to the next without interruption, and at an [await]
    other calls may run: the gallery starts [getTheaters],
    [getAvailableSpecials] and [getPopularMovies] before any of them has
    an answer.  Every function of the service reaches the caches through
    [loadTheaters], [getAllTheaterIds] and [getTheaterIdsByCity] alone;
    these three are written here once more with their awaits kept apart,
    so that calls can overlap.  None of the three can reject. *)

Module Interleaving.

Import JS MovieService.

(** The rest of an [async] function. *)
Inductive Task (A : Type) : Type :=
| Settle (a : A)
| Read (k : Caches -> Task A)
| Update (f : Caches -> Caches) (k : Task A)
| AwaitRequest (k : reply (list CinevilleTheater.t) -> Task A)
| AwaitPromise (k : Task A).
Arguments Settle {A} a.
Arguments Read {A} k.
Arguments Update {A} f k.
Arguments AwaitRequest {A} k.
Arguments AwaitPromise {A} k.

Fixpoint bind {A B} (t : Task A) (k : A -> Task B) : Task B :=
  match t with
  | Settle a => k a
  | Read h => Read (fun st => bind (h st) k)
  | Update f t' => Update f (bind t' k)
  | AwaitRequest h => AwaitRequest (fun response => bind (h response) k)
  | AwaitPromise t' => AwaitPromise (bind t' k)
  end.

(** [await callee()]: the callee starts in the turn of the caller, and the
    caller goes on in a turn after the one in which the callee settled. *)
Definition awaitCall {A B} (callee : Task A) (k : A -> Task B) : Task B :=
  bind callee (fun a => AwaitPromise (k a)).

(** An assignment to a cache. *)
Definition assign (write : Async unit) (st : Caches) : Caches := snd (write st).

Definition loadTheaters : Task (list CinevilleTheater.t) :=
  Read (fun st =>
    match theatersCache st with
    | Some cached => Settle cached
    | None =>
        AwaitRequest (fun response =>
          match response with
          | Delivered data => Update (assign (setTheatersCache data)) (Settle data)
          | Failed => Settle []
          end)
    end).

Definition getAllTheaterIds : Task (list string) :=
  Read (fun st =>
    match allTheaterIdsCache st with
    | Some cached => Settle cached
    | None =>
        awaitCall loadTheaters (fun theaters =>
          let ids := map CinevilleTheater.id theaters in
          Update (assign (setAllTheaterIdsCache ids)) (Settle ids))
    end).

Definition getTheaterIdsByCity (cityName : string) : Task (list string) :=
  Read (fun st =>
    match cityTheaterIdsCache st !! cityName with
    | Some cached => Settle cached
    | None =>
        awaitCall loadTheaters (fun theaters =>
          let theaterIds := map CinevilleTheater.id (List.filter (inCity cityName) theaters) in
          Update (assign (setCityTheaterIds cityName theaterIds)) (Settle theaterIds))
    end).

(** Where a turn ends. *)
Inductive Suspended (A : Type) : Type :=
| Settled (a : A)
| OnRequest (k : reply (list CinevilleTheater.t) -> Task A)
| OnPromise (k : Task A).
Arguments Settled {A} a.
Arguments OnRequest {A} k.
Arguments OnPromise {A} k.

(** One turn: the task runs up to its next [await]. *)
Fixpoint turn {A} (t : Task A) (st : Caches) : Suspended A * Caches :=
  match t with
  | Settle a => (Settled a, st)
  | Read k => turn (k st) st
  | Update f k => turn k (f st)
  | AwaitRequest k => (OnRequest k, st)
  | AwaitPromise k => (OnPromise k, st)
  end.

(** A call that no other call overlaps: every request is answered with
    [answer] and every turn follows the one before at once. *)
Fixpoint atomically {A}
    (answer : reply (list CinevilleTheater.t)) (t : Task A) (st : Caches) : A * Caches :=
  match t with
  | Settle a => (a, st)
  | Read k => atomically answer (k st) st
  | Update f k => atomically answer k (f st)
  | AwaitRequest k => atomically answer (k answer) st
  | AwaitPromise k => atomically answer k st
  end.

(** *** The calls in flight *)

Inductive Call : Type :=
| LoadTheaters
| GetAllTheaterIds
| GetTheaterIdsByCity (cityName : string).

Inductive Value : Type :=
| Directory (theaters : list CinevilleTheater.t)
| Ids (ids : list string).

Definition program (c : Call) : Task Value :=
  match c with
  | LoadTheaters => bind loadTheaters (fun theaters => Settle (Directory theaters))
  | GetAllTheaterIds => bind getAllTheaterIds (fun ids => Settle (Ids ids))
  | GetTheaterIdsByCity cityName =>
      bind (getTheaterIdsByCity cityName) (fun ids => Settle (Ids ids))
  end.

Inductive Waiting : Type :=
| WaitRequest (k : reply (list CinevilleTheater.t) -> Task Value)
| WaitPromise (k : Task Value).

Record InFlight : Type := {
  call : Call;
  rest : Waiting
}.

Inductive Event : Type :=
| Requested (c : Call)
| Returned (c : Call) (v : Value).

Record Config : Type := {
  caches : Caches;
  inFlight : list InFlight
}.

Definition initial : Config := {| caches := emptyCaches; inFlight := [] |}.

(** The turn of call [c] that runs [t], the other calls in flight being
    [others]. *)
Definition proceed (c : Call) (t : Task Value) (st : Caches) (others : list InFlight)
    : Config * list Event :=
  match turn t st with
  | (Settled v, st') => ({| caches := st'; inFlight := others |}, [Returned c v])
  | (OnRequest k, st') =>
      ({| caches := st';
          inFlight := (others ++ [{| call := c; rest := WaitRequest k |}])%list |},
       [Requested c])
  | (OnPromise k, st') =>
      ({| caches := st';
          inFlight := (others ++ [{| call := c; rest := WaitPromise k |}])%list |},
       [])
  end.

(** What happens next: a caller invokes a function, the catalog answers
    the request of the [n]-th call in flight, or the [n]-th call in flight
    goes on after the promise it awaits has settled. *)
Inductive Action : Type :=
| Invoke (c : Call)
| Respond (n : nat) (response : reply (list CinevilleTheater.t))
| Resume (n : nat).

Definition act (a : Action) (cfg : Config) : Config * list Event :=
  match a with
  | Invoke c => proceed c (program c) (caches cfg) (inFlight cfg)
  | Respond n response =>
      match nth_error (inFlight cfg) n with
      | Some {| call := c; rest := WaitRequest k |} =>
          proceed c (k response) (caches cfg) (removeAt n (inFlight cfg))
      | _ => (cfg, [])
      end
  | Resume n =>
      match nth_error (inFlight cfg) n with
      | Some {| call := c; rest := WaitPromise k |} =>
          proceed c k (caches cfg) (removeAt n (inFlight cfg))
      | _ => (cfg, [])
      end
  end.

Fixpoint run (schedule : list Action) (cfg : Config) : Config * list Event :=
  match schedule with
  | [] => (cfg, [])
  | a :: later =>
      let (cfg1, first) := act a cfg in
      let (cfg2, events) := run later cfg1 in
      (cfg2, (first ++ events)%list)
  end.

Definition awaitsRequest (e : InFlight) : bool :=
  match rest e with
  | WaitRequest _ => true
  | WaitPromise _ => false
  end.

Definition isCityCall (cityName : string) (e : InFlight) : bool :=
  match call e with
  | GetTheaterIdsByCity c => String.eqb c cityName
  | _ => false
  end.

Definition isAllIdsCall (e : InFlight) : bool :=
  match call e with
  | GetAllTheaterIds => true
  | _ => false
  end.

(** *** What a call in flight may still do *)

(** The one assignment a call makes after [loadTheaters] has settled. *)
Definition own (c : Call) (f : Caches -> Caches) : Prop :=
  match c with
  | LoadTheaters => False
  | GetAllTheaterIds => exists ids, f = assign (setAllTheaterIdsCache ids)
  | GetTheaterIdsByCity cityName => exists ids, f = assign (setCityTheaterIds cityName ids)
  end.

Definition storesDirectory (f : Caches -> Caches) : Prop :=
  exists data, f = assign (setTheatersCache data).

(** The task awaits nothing any more, and assigns within [W] only. *)
Inductive final {A} (W : (Caches -> Caches) -> Prop) : Task A -> Prop :=
| final_Settle a : final W (Settle a)
| final_Read k : (forall st, final W (k st)) -> final W (Read k)
| final_Update f k : W f -> final W k -> final W (Update f k).

(** The rest of call [c] sends no request any more: it stores the
    directory at most, and after the promise it may await it is [final]. *)
Inductive lastLeg {A} (c : Call) : Task A -> Prop :=
| lastLeg_Settle a : lastLeg c (Settle a)
| lastLeg_Read k : (forall st, lastLeg c (k st)) -> lastLeg c (Read k)
| lastLeg_Update f k : storesDirectory f -> lastLeg c k -> lastLeg c (Update f k)
| lastLeg_AwaitPromise k : c <> LoadTheaters -> final (own c) k -> lastLeg c (AwaitPromise k).

(** A call in flight that is on its way as its function is written. *)
Definition wellFormed (e : InFlight) : Prop :=
  match rest e with
  | WaitRequest k => forall response, lastLeg (call e) (k response)
  | WaitPromise k => call e <> LoadTheaters /\ final (own (call e)) k
  end.

End Interleaving.

(** ** The timeline ([components/MovieTimeline]) *)

Module MovieTimeline.

Import JS.

(** [selectedAnchor]: the pinned showing. *)
Record Anchor : Type := {
  movieId : string;
  showtimeId : string
}.

(** A column of the grid, [{ id, name }]. *)
Record Theater : Type := {
  id : string;
  name : string
}.

Inductive AvailabilityMode : Type :=
| highlight
| hide.

(** What the render callback computes for one row of [timelineData]. *)
Record Row : Type := {
  isAnchorShowtime : bool;
  isAvailableAfterSelected : bool;
  isBlockedBySelection : bool;
  hideSameMovieRow : bool;
  shouldHideRow : bool
}.

(** *** Buffer preference *)

(** Initial state of [bufferMinutes]: the stored value when it is a finite
    number, 15 otherwise ([stored] is [None] when nothing is stored). *)
Definition initialBufferMinutes (stored : option number) : Z :=
  match stored with
  | Some (Num value) => value
  | Some NaN => 15
  | None => 15
  end.

(** [onChange] of the buffer input: [Number(e.target.value) || 0]. *)
Definition changedBufferMinutes (typed : number) : Z :=
  match typed with
  | Num value => if numTruthy typed then value else 0
  | NaN => 0
  end.

Definition bufferTimeMs (bufferMinutes : Z) : Z := (Z.max 0 bufferMinutes * 60 * 1000)%Z.

(** *** Anchor selection *)


Definition findShowtime (movie : Movie.t) (wanted : string) : option MovieShowtime.t :=
  find (fun st => String.eqb (MovieShowtime.id st) wanted) (Movie.showtimes movie).

Section WithDate.

(** [new Date(s).getTime()]. *)
Variable getTime : string -> number.

Definition selectedAnchorEnd
    (movies : list Movie.t) (selectedAnchor : option Anchor) : option number :=
  match selectedAnchor with
  | None => None
  | Some a =>
      match find (fun m => String.eqb (Movie.id m) (movieId a)) movies with
      | None => None
      | Some movie =>
          match findShowtime movie (showtimeId a) with
          | Some showtime => Some (getTime (MovieShowtime.endDate showtime))
          | None => None
          end
      end
  end.

(** [if (selectedAnchorEnd)]: the value is tested for truthiness. *)
Definition anchorEndTruthy (anchorEnd : option number) : bool :=
  match anchorEnd with
  | Some t => numTruthy t
  | None => false
  end.

Definition currentShowtimeStart (movie : Movie.t) (row : string) : number :=
  getTime (orElse (option_map MovieShowtime.startDate (findShowtime movie row)) "").

(** The row of [movie] for the showtime [row], under the current
    preferences and anchor. *)
Definition renderRow
    (movies : list Movie.t) (availabilityMode : AvailabilityMode)
    (selectedAnchor : option Anchor) (bufferMinutes : Z) (hideSameMovie : bool)
    (movie : Movie.t) (row : string) : Row :=
  let anchorEnd := selectedAnchorEnd movies selectedAnchor in
  let isAnchor :=
    match selectedAnchor with
    | Some a => String.eqb (movieId a) (Movie.id movie) && String.eqb (showtimeId a) row
    | None => false
    end in
  let available :=
    match anchorEnd with
    | Some t =>
        if anchorEndTruthy anchorEnd
        then geq (currentShowtimeStart movie row) (add t (bufferTimeMs bufferMinutes))
        else false
    | None => false
    end in
  let blocked :=
    if anchorEndTruthy anchorEnd then negb isAnchor && negb available else false in
  let hideSame :=
    match selectedAnchor with
    | Some a => hideSameMovie && String.eqb (Movie.id movie) (movieId a) && negb isAnchor
    | None => false
    end in
  let anchorEndNotNull := match anchorEnd with Some _ => true | None => false end in
  {| isAnchorShowtime := isAnchor;
     isAvailableAfterSelected := available;
     isBlockedBySelection := blocked;
     hideSameMovieRow := hideSame;
     shouldHideRow :=
       (match availabilityMode with hide => true | highlight => false end
        && anchorEndNotNull && blocked) || hideSame |}.

End WithDate.

(** *** Theater columns *)

Definition theaterIds (theaters : list Theater) : list string := map id theaters.

Definition orderedTheaters (theaterOrder : list string) (theaters : list Theater) : list Theater :=
  let storedIds :=
    List.filter (fun i => existsb (fun t => String.eqb (id t) i) theaters) theaterOrder in
  let remaining :=
    map id (List.filter (fun t => negb (arrayIncludes storedIds (id t))) theaters) in
  let finalIds := (storedIds ++ remaining)%list in
  flat_map
    (fun i =>
       match find (fun t => String.eqb (id t) i) theaters with
       | Some t => [t]
       | None => []
       end)
    finalIds.

(** [a.length === b.length && a.every((x, idx) => x === b[idx])] *)
Fixpoint sameArray (a b : list string) : bool :=
  match a, b with
  | [], [] => true
  | x :: a', y :: b' => String.eqb x y && sameArray a' b'
  | _, _ => false
  end.

(** The effect that merges newly seen theaters into [theaterOrder]; it
    leaves the state alone while no theater is known. *)
Definition mergeTheaterOrder (prev : list string) (theaters : list Theater) : list string :=
  match theaters with
  | [] => prev
  | _ =>
      let currentIds := theaterIds theaters in
      match prev with
      | [] => currentIds
      | _ =>
          let valid := List.filter (arrayIncludes currentIds) prev in
          let missing := List.filter (fun i => negb (arrayIncludes valid i)) currentIds in
          let next := (valid ++ missing)%list in
          if sameArray next prev then prev else next
      end
  end.

(** *** Columns and rows derived from the films *)

Module TimelineShowtime.
Record t : Type := mk {
  startTime : string;
  endTime : string;
  theaterId : string;
  theaterName : string;
  showtimeId : string
}.
End TimelineShowtime.

Module TimelineRow.
Record t : Type := mk {
  movie : Movie.t;
  showtime : TimelineShowtime.t
}.
End TimelineRow.

(** [theaterMap.set(id, name)] on a [Map<string, string>] in insertion
    order: a known id keeps its place and takes the new name. *)
Fixpoint theaterMapSet (m : list (string * string)) (key value : string) : list (string * string) :=
  match m with
  | [] => [(key, value)]
  | (k, v) :: rest =>
      if String.eqb k key then (k, value) :: rest
      else (k, v) :: theaterMapSet rest key value
  end.

Definition theaterMap (movies : list Movie.t) : list (string * string) :=
  fold_left
    (fun m showtime =>
       theaterMapSet m (MovieShowtime.theaterId showtime) (MovieShowtime.theaterName showtime))
    (flat_map Movie.showtimes movies)
    [].

Section Derived.

Variable getTime : string -> number.

(** [Array.prototype.sort] with a comparator, [localeCompare], and the
    [en-GB] hour and minute of [new Date(s)]: all three are the engine's. *)
Variable arraySort : forall A : Type, (A -> A -> number) -> list A -> list A.
Variable localeCompare : string -> string -> number.
Variable toLocaleTimeString : string -> string.

(** The [theaters] of the component. *)
Definition uniqueTheaters (movies : list Movie.t) : list Theater :=
  arraySort Theater
    (fun a b => localeCompare (name a) (name b))
    (map (fun entry => {| id := fst entry; name := snd entry |}) (theaterMap movies)).

(** The [rows] array before it is sorted. *)
Definition rowsOf (movies : list Movie.t) : list TimelineRow.t :=
  flat_map
    (fun movie =>
       map
         (fun showtime =>
            {| TimelineRow.movie := movie;
               TimelineRow.showtime :=
                 {| TimelineShowtime.startTime :=
                      toLocaleTimeString (MovieShowtime.startDate showtime);
                    TimelineShowtime.endTime :=
                      toLocaleTimeString (MovieShowtime.endDate showtime);
                    TimelineShowtime.theaterId := MovieShowtime.theaterId showtime;
                    TimelineShowtime.theaterName := MovieShowtime.theaterName showtime;
                    TimelineShowtime.showtimeId := MovieShowtime.id showtime |} |})
         (Movie.showtimes movie))
    movies.

Definition compareRows (a b : TimelineRow.t) : number :=
  match findShowtime (TimelineRow.movie a) (TimelineShowtime.showtimeId (TimelineRow.showtime a)),
        findShowtime (TimelineRow.movie b) (TimelineShowtime.showtimeId (TimelineRow.showtime b))
  with
  | Some aTime, Some bTime =>
      sub (getTime (MovieShowtime.startDate aTime)) (getTime (MovieShowtime.startDate bTime))
  | _, _ => Num 0
  end.

Definition timelineData (movies : list Movie.t) : list TimelineRow.t :=
  arraySort TimelineRow.t compareRows (rowsOf movies).

End Derived.

(** [handleTheaterDrop] as it leaves [theaterOrder]; [draggingTheater] is
    [null] when no drag is under way. *)
Definition handleTheaterDrop
    (draggingTheater : option string) (targetId : string) (prev : list string) : list string :=
  match draggingTheater with
  | None => prev
  | Some dragging =>
      if negb (truthy dragging) || String.eqb dragging targetId then prev
      else
        match indexOf prev dragging, indexOf prev targetId with
        | Some fromIndex, Some toIndex => insertAt toIndex dragging (removeAt fromIndex prev)
        | _, _ => prev
        end
  end.

End MovieTimeline.

(** ** The gallery ([components/MovieGallery]) *)

Module MovieGallery.

Import JS.

Definition savedEntry
    (movie : Movie.t) (showtimeId : string) (showtime : MovieShowtime.t) : SavedShowtime.t :=
  {| SavedShowtime.movieId := Movie.id movie;
     SavedShowtime.movieTitle := Movie.title movie;
     SavedShowtime.posterPath := Movie.poster_path movie;
     SavedShowtime.showtimeId := showtimeId;
     SavedShowtime.startDate := MovieShowtime.startDate showtime;
     SavedShowtime.endDate := MovieShowtime.endDate showtime;
     SavedShowtime.theaterId := MovieShowtime.theaterId showtime;
     SavedShowtime.theaterName := MovieShowtime.theaterName showtime;
     SavedShowtime.theaterCity := MovieShowtime.theaterCity showtime;
     SavedShowtime.ticketingUrl := MovieShowtime.ticketingUrl showtime |}.

Definition isSaved (showtimeId : string) (saved : list SavedShowtime.t) : bool :=
  existsb (fun item => String.eqb (SavedShowtime.showtimeId item) showtimeId) saved.

Definition handleRemoveSavedShowtime
    (showtimeId : string) (prev : list SavedShowtime.t) : list SavedShowtime.t :=
  List.filter (fun item => negb (String.eqb (SavedShowtime.showtimeId item) showtimeId)) prev.

Definition savedShowtimeIds (savedShowtimes : list SavedShowtime.t) : list string :=
  map SavedShowtime.showtimeId savedShowtimes.

(** [if (lang && lang.trim()) set.add(lang.trim())] over an array. *)
Definition trimmedLanguages (langs : list string) : list string :=
  flat_map (fun lang => if truthy lang && truthy (trim lang) then [trim lang] else []) langs.

Section WithEngine.

Variable getTime : string -> number.
Variable arraySort : forall A : Type, (A -> A -> number) -> list A -> list A.
Variable localeCompare : string -> string -> number.

(** The updater of [handleAddShowtimeToList]; an id that is no showtime of
    the film leaves the list alone. *)
Definition handleAddShowtimeToList
    (movie : Movie.t) (showtimeId : string) (prev : list SavedShowtime.t)
    : list SavedShowtime.t :=
  match find (fun st => String.eqb (MovieShowtime.id st) showtimeId) (Movie.showtimes movie) with
  | None => prev
  | Some showtime =>
      if isSaved showtimeId prev then prev
      else
        arraySort SavedShowtime.t
          (fun a b =>
             sub (getTime (SavedShowtime.startDate a)) (getTime (SavedShowtime.startDate b)))
          (prev ++ [savedEntry movie showtimeId showtime])
  end.

Definition availableSpokenLanguages
    (movies : list Movie.t) (selectedSpokenLanguages : list string) : list string :=
  arraySort string localeCompare
    (arrayFromSet
       (flat_map (fun movie => trimmedLanguages (Movie.spokenLanguages movie)) movies
        ++ trimmedLanguages selectedSpokenLanguages)).

End WithEngine.

End MovieGallery.

(** ** The filter panel ([components/MovieFilters]) *)

Module MovieFiltersComponent.

Import JS.

(** The filter values of the local state of the panel; an unset field is
    the empty string.  The collapse flags of the sections are in [Panel]. *)
Record State : Type := {
  selectedCity : string;
  selectedTheaters : list string;
  selectedSubtitleLanguages : list string;
  selectedSpokenLanguages : list string;
  selectedSpecials : list string;
  startTime : string;
  endTime : string;
  startDate : string;
  endDate : string
}.

(** [value || null] *)
Definition orNull (value : string) : option string :=
  if truthy value then Some value else None.

(** The filters handed to [onFiltersChange]. *)
Definition emittedFilters (st : State) : MovieFilters.t :=
  {| MovieFilters.selectedCity := orNull (selectedCity st);
     MovieFilters.selectedTheaters := selectedTheaters st;
     MovieFilters.selectedSubtitleLanguages := selectedSubtitleLanguages st;
     MovieFilters.selectedSpokenLanguages := selectedSpokenLanguages st;
     MovieFilters.selectedSpecials := selectedSpecials st;
     MovieFilters.startTime := orNull (startTime st);
     MovieFilters.endTime := orNull (endTime st);
     MovieFilters.startDate := orNull (startDate st);
     MovieFilters.endDate := orNull (endDate st) |}.

(** The effect that copies the [filters] prop into the local state. *)
Definition syncFromFilters (filters : MovieFilters.t) : State :=
  {| selectedCity := orElse (MovieFilters.selectedCity filters) "";
     selectedTheaters := MovieFilters.selectedTheaters filters;
     selectedSubtitleLanguages := MovieFilters.selectedSubtitleLanguages filters;
     selectedSpokenLanguages := MovieFilters.selectedSpokenLanguages filters;
     selectedSpecials := MovieFilters.selectedSpecials filters;
     startTime := orElse (MovieFilters.startTime filters) "";
     endTime := orElse (MovieFilters.endTime filters) "";
     startDate := orElse (MovieFilters.startDate filters) "";
     endDate := orElse (MovieFilters.endDate filters) "" |}.

Definition handleCityChange (newCity : string) (st : State) : State :=
  {| selectedCity := newCity;
     selectedTheaters := [];
     selectedSubtitleLanguages := selectedSubtitleLanguages st;
     selectedSpokenLanguages := selectedSpokenLanguages st;
     selectedSpecials := selectedSpecials st;
     startTime := startTime st;
     endTime := endTime st;
     startDate := startDate st;
     endDate := endDate st |}.

(** The updater shared by the checkbox handlers: [[...prev, x]] when
    checked, [prev.filter(y => y !== x)] otherwise. *)
Definition toggled (x : string) (checked : bool) (prev : list string) : list string :=
  if checked then (prev ++ [x])%list
  else List.filter (fun y => negb (String.eqb y x)) prev.

Definition handleTheaterChange (theaterId : string) (checked : bool) (st : State) : State :=
  {| selectedCity := selectedCity st;
     selectedTheaters := toggled theaterId checked (selectedTheaters st);
     selectedSubtitleLanguages := selectedSubtitleLanguages st;
     selectedSpokenLanguages := selectedSpokenLanguages st;
     selectedSpecials := selectedSpecials st;
     startTime := startTime st;
     endTime := endTime st;
     startDate := startDate st;
     endDate := endDate st |}.

Definition handleSpecialsChange (special : string) (checked : bool) (st : State) : State :=
  {| selectedCity := selectedCity st;
     selectedTheaters := selectedTheaters st;
     selectedSubtitleLanguages := selectedSubtitleLanguages st;
     selectedSpokenLanguages := selectedSpokenLanguages st;
     selectedSpecials := toggled special checked (selectedSpecials st);
     startTime := startTime st;
     endTime := endTime st;
     startDate := startDate st;
     endDate := endDate st |}.

(** The whole local state of the panel: the filter values and the three
    collapse flags of its sections. *)
Record Panel : Type := {
  values : State;
  theatersCollapsed : bool;
  spokenLanguagesCollapsed : bool;
  specialsCollapsed : bool
}.

Definition handleClearFilters (panel : Panel) : Panel :=
  {| values :=
       {| selectedCity := "";
          selectedTheaters := [];
          selectedSubtitleLanguages := [];
          selectedSpokenLanguages := [];
          selectedSpecials := [];
          startTime := "";
          endTime := "";
          startDate := "";
          endDate := "" |};
     theatersCollapsed := theatersCollapsed panel;
     spokenLanguagesCollapsed := false;
     specialsCollapsed := false |}.

Definition hasActiveFilters (st : State) : bool :=
  truthy (selectedCity st)
  || (0 <? length (selectedTheaters st))%nat
  || (0 <? length (selectedSubtitleLanguages st))%nat
  || (0 <? length (selectedSpokenLanguages st))%nat
  || (0 <? length (selectedSpecials st))%nat
  || truthy (startTime st) || truthy (endTime st)
  || truthy (startDate st) || truthy (endDate st).

(** [selectedTheaterNames]: the names of the selected theaters of the
    selected city. *)
Definition selectedTheaterNames (cities : list City.t) (st : State) : list string :=
  match find (fun city => String.eqb (City.name city) (selectedCity st)) cities with
  | Some selectedCityData =>
      map Theater.name
        (List.filter
           (fun theater => arrayIncludes (selectedTheaters st) (Theater.id theater))
           (City.theaters selectedCityData))
  | None => []
  end.

End MovieFiltersComponent.

(** ** A reference clock for worked examples

    [Date] parsing restricted to the UTC form that [toISOString] emits,
    [YYYY-MM-DDTHH:mm:ss.sssZ]; any other string is an invalid date. *)

Module IsoDate.

Import JS.

Definition digit (c : ascii) : option Z :=
  let n := Z.of_N (N_of_ascii c) in
  if ((48 <=? n) && (n <=? 57))%Z then Some (n - 48)%Z else None.

Fixpoint digits (acc : Z) (cs : list ascii) : option Z :=
  match cs with
  | [] => Some acc
  | c :: rest =>
      match digit c with
      | Some d => digits (acc * 10 + d)%Z rest
      | None => None
      end
  end.

(** Days between 1970-01-01 and the given civil date (proleptic Gregorian). *)
Definition daysFromCivil (y m d : Z) : Z :=
  (let y' := if m <=? 2 then y - 1 else y in
   let era := y' / 400 in
   let yoe := y' - era * 400 in
   let mp := (m + 9) mod 12 in
   let doy := (153 * mp + 2) / 5 + d - 1 in
   let doe := yoe * 365 + yoe / 4 - yoe / 100 + doy in
   era * 146097 + doe - 719468)%Z.

Definition inRange (lo hi v : Z) : bool := ((lo <=? v) && (v <=? hi))%Z.

Definition getTime (s : string) : number :=
  match list_ascii_of_string s with
  | [y1; y2; y3; y4; "-"; m1; m2; "-"; d1; d2; "T";
     h1; h2; ":"; n1; n2; ":"; s1; s2; "."; f1; f2; f3; "Z"]%char =>
      match digits 0 [y1; y2; y3; y4], digits 0 [m1; m2], digits 0 [d1; d2],
            digits 0 [h1; h2], digits 0 [n1; n2], digits 0 [s1; s2],
            digits 0 [f1; f2; f3] with
      | Some y, Some m, Some d, Some h, Some n, Some sec, Some ms =>
          if inRange 1 12 m && inRange 1 31 d && inRange 0 23 h
             && inRange 0 59 n && inRange 0 59 sec
          then Num ((((daysFromCivil y m d * 24 + h) * 60 + n) * 60 + sec) * 1000 + ms)%Z
          else NaN
      | _, _, _, _, _, _, _ => NaN
      end
  | _ => NaN
  end.

End IsoDate.

(** ** A reference engine for worked examples

    One engine among those the components can run on: a stable insertion
    sort for [Array.prototype.sort], the code-unit order for
    [localeCompare], and the UTC hour and minute of an ISO string for
    [toLocaleTimeString]. *)

Module Engine.

Import JS.

Definition negative (n : number) : bool :=
  match n with
  | Num z => (z <? 0)%Z
  | NaN => false
  end.

Fixpoint insertBy {A} (cmp : A -> A -> number) (x : A) (xs : list A) : list A :=
  match xs with
  | [] => [x]
  | y :: rest => if negative (cmp y x) then y :: insertBy cmp x rest else x :: y :: rest
  end.

Definition arraySort (A : Type) (cmp : A -> A -> number) (xs : list A) : list A :=
  fold_right (insertBy cmp) [] xs.

Definition localeCompare (a b : string) : number :=
  match String.compare a b with
  | Lt => Num (-1)
  | Eq => Num 0
  | Gt => Num 1
  end.

Definition toLocaleTimeString (s : string) : string := String.substring 11 5 s.

End Engine.

(** ** Vocabulary of the design document

    The notions of the design document that the properties below are
    stated with.  None of them is used by the program. *)

Module Design.

Import JS MovieService.

(** The showtimes that [getPopularMovies] receives from the catalog: the
    answer to the query it builds from [filters] with the caches [st]. *)
Definition showtimesReceived
    (getDateRange : option MovieFilters.t -> DateRange)
    (up : Upstream) (filters : option MovieFilters.t) (st : Caches)
    : reply (list CinevilleShowtime.t) :=
  match buildApiFilters getDateRange up filters {| includeSubtitleFilter := true |} st with
  | (Resolved built, _) => showtimesQuery up (fst built)
  | (Rejected _, _) => Failed
  end.

(** Venue scope in the words of the design document: explicit ids when
    there are any, else the venues of the selected city, else every
    venue of the directory.  A city is set when [selectedCity] holds a
    non-empty name; the filter panel stores [null] for the empty choice. *)
Definition venueScope (directory : list CinevilleTheater.t) (f : MovieFilters.t) : list string :=
  match MovieFilters.selectedTheaters f with
  | _ :: _ => MovieFilters.selectedTheaters f
  | [] =>
      match MovieFilters.selectedCity f with
      | Some cityName =>
          if String.eqb cityName "" then map CinevilleTheater.id directory
          else map CinevilleTheater.id (List.filter (inCity cityName) directory)
      | None => map CinevilleTheater.id directory
      end
  end.

(** The caches hold nothing but what the directory [directory] implies. *)
Definition cachesAgree (directory : list CinevilleTheater.t) (st : Caches) : Prop :=
  (theatersCache st = None \/ theatersCache st = Some directory) /\
  (allTheaterIdsCache st = None \/
   allTheaterIdsCache st = Some (map CinevilleTheater.id directory)) /\
  (forall cityName ids,
      cityTheaterIdsCache st !! cityName = Some ids ->
      ids = map CinevilleTheater.id (List.filter (inCity cityName) directory)).

(** The directory a call works with: the cached one, else the one the
    catalog delivers, else the empty one when the fetch fails. *)
Definition directoryAtHand (up : Upstream) (st : Caches) : list CinevilleTheater.t :=
  match theatersCache st with
  | Some cached => cached
  | None =>
      match theatersQuery up with
      | Delivered data => data
      | Failed => []
      end
  end.

(** The ids served for a city: those cached for it, else those of its
    theaters in the directory at hand. *)
Definition servedCityIds (up : Upstream) (st : Caches) (cityName : string) : list string :=
  match cityTheaterIdsCache st !! cityName with
  | Some cached => cached
  | None => map CinevilleTheater.id (List.filter (inCity cityName) (directoryAtHand up st))
  end.

(** All ids as served: the cached ones, else those of the directory at
    hand. *)
Definition servedAllIds (up : Upstream) (st : Caches) : list string :=
  match allTheaterIdsCache st with
  | Some cached => cached
  | None => map CinevilleTheater.id (directoryAtHand up st)
  end.

(** Venue scope as the service serves it: explicit ids when there are
    any, else the ids cached for the selected city or, failing that, of its
    theaters in the directory at hand, else all ids, cached or of the
    directory at hand. *)
Definition servedScope (up : Upstream) (st : Caches) (f : MovieFilters.t) : list string :=
  match MovieFilters.selectedTheaters f with
  | _ :: _ => MovieFilters.selectedTheaters f
  | [] =>
      match MovieFilters.selectedCity f with
      | Some cityName =>
          if String.eqb cityName "" then servedAllIds up st
          else servedCityIds up st cityName
      | None => servedAllIds up st
      end
  end.

(** Merged column order in the words of the design document: the known
    ids of the persisted order that are still visible, then the visible
    ids the persisted order does not mention. *)
Definition mergedOrder (persisted visible : list string) : list string :=
  (List.filter (arrayIncludes visible) persisted ++
   List.filter (fun i => negb (arrayIncludes persisted i)) visible)%list.

(** Poster URL, else cover URL, else the empty string. *)
Definition posterOrCover (film : CinevilleFilm.t) : string :=
  match CinevilleFilm.poster film with
  | Some p =>
      if String.eqb (CinevilleAsset.url p) ""
      then match CinevilleFilm.cover film with
           | Some c => CinevilleAsset.url c
           | None => ""
           end
      else CinevilleAsset.url p
  | None =>
      match CinevilleFilm.cover film with
      | Some c => CinevilleAsset.url c
      | None => ""
      end
  end.

(** The two film-level language filters of [getPopularMovies]. *)
Definition passesLanguageFilters (filters : option MovieFilters.t) (movie : Movie.t) : bool :=
  match filters with
  | Some f =>
      (if hasSelectedSubtitleLanguages filters then matchesSubtitleLanguages f movie else true)
      && (if hasSelectedSpokenLanguages filters then matchesSpokenLanguages f movie else true)
  | None => true
  end.

(** The specials label a showtime is matched on. *)
Definition specialsLabel (showtime : CinevilleShowtime.t) : string :=
  match CinevilleShowtime.specials showtime with
  | Some label => label
  | None => ""
  end.

Definition filmId (showtime : CinevilleShowtime.t) : string :=
  CinevilleFilm.id (CinevilleShowtime.film showtime).

(** The label of the showtime, compared case-insensitively, contains at
    least one selected special as a substring. *)
Definition matchesSelectedSpecial (f : MovieFilters.t) (showtime : CinevilleShowtime.t) : Prop :=
  exists selectedSpecial,
    In selectedSpecial (MovieFilters.selectedSpecials f) /\
    includes (toLowerCase (specialsLabel showtime)) (toLowerCase selectedSpecial) = true.

(** The showtime reaches the film grouping: some entry of the
    [filmShowtimes] map holds it. *)
Definition collected
    (filters : option MovieFilters.t) (data : list CinevilleShowtime.t)
    (showtime : CinevilleShowtime.t) : Prop :=
  exists g, In g (mapValues (filmShowtimes filters data)) /\ In showtime (showtimes g).

(** Records that share a film id carry the same film payload. *)
Definition consistentFilms (data : list CinevilleShowtime.t) : Prop :=
  forall s1 s2,
    In s1 data -> In s2 data -> filmId s1 = filmId s2 ->
    CinevilleShowtime.film s1 = CinevilleShowtime.film s2.

(** The showtimes that survive the specials filter, in input order. *)
Definition kept
    (filters : option MovieFilters.t) (data : list CinevilleShowtime.t)
    : list CinevilleShowtime.t :=
  List.filter (fun s => negb (skipsShowtime filters s)) data.

Definition ofFilm (key : string) (data : list CinevilleShowtime.t) : list CinevilleShowtime.t :=
  List.filter (fun s => String.eqb (filmId s) key) data.

(** The entry of a film after more of its showtimes were collected. *)
Definition grown (entry : option FilmGroup) (more : list CinevilleShowtime.t)
    : option FilmGroup :=
  match entry, more with
  | Some g, _ => Some {| film := film g; showtimes := showtimes g ++ more |}
  | None, [] => None
  | None, first :: _ => Some {| film := CinevilleShowtime.film first; showtimes := more |}
  end.

Definition sameSet {A} (xs ys : list A) : Prop := forall x, In x xs <-> In x ys.

(** Two aggregated films that differ at most in the order of their
    showtimes and of their facet lists. *)
Definition sameFilm (a b : Movie.t) : Prop :=
  Movie.id a = Movie.id b /\
  Movie.title a = Movie.title b /\
  Movie.poster_path a = Movie.poster_path b /\
  Movie.release_date a = Movie.release_date b /\
  Movie.overview a = Movie.overview b /\
  Movie.vote_average a = Movie.vote_average b /\
  Movie.genre_ids a = Movie.genre_ids b /\
  Movie.duration a = Movie.duration b /\
  Movie.directors a = Movie.directors b /\
  Movie.cast a = Movie.cast b /\
  Movie.releaseYear a = Movie.releaseYear b /\
  Movie.spokenLanguages a = Movie.spokenLanguages b /\
  sameSet (Movie.availableSubtitles a) (Movie.availableSubtitles b) /\
  sameSet (Movie.availableLanguageVersions a) (Movie.availableLanguageVersions b) /\
  sameSet (Movie.availableSpecials a) (Movie.availableSpecials b) /\
  sameSet (map MovieShowtime.id (Movie.showtimes a)) (map MovieShowtime.id (Movie.showtimes b)) /\
  Permutation (Movie.showtimes a) (Movie.showtimes b).

(** Two result lists that hold the same films, in any order. *)
Definition sameFilms (xs ys : list Movie.t) : Prop :=
  (forall a, In a xs -> exists b, In b ys /\ sameFilm a b) /\
  (forall b, In b ys -> exists a, In a xs /\ sameFilm a b).

End Design.

(** ** A worked scenario *)

Module Scenario.

Import JS MovieService.

Definition theaterIn (i n cityName : string) : CinevilleTheater.t :=
  {| CinevilleTheater.id := i;
     CinevilleTheater.slug := i;
     CinevilleTheater.name := n;
     CinevilleTheater.address :=
       {| CinevilleAddress.street := "";
          CinevilleAddress.houseNumber := "";
          CinevilleAddress.postalCode := "";
          CinevilleAddress.city := cityName;
          CinevilleAddress.country := "NL" |};
     CinevilleTheater.cover := None;
     CinevilleTheater.website := None;
     CinevilleTheater.shortDescription := None;
     CinevilleTheater.intro := None;
     CinevilleTheater.description := None;
     CinevilleTheater.ticketInfo := None |}.

Definition asset (u : string) : CinevilleAsset.t :=
  {| CinevilleAsset.url := u; CinevilleAsset.mime := None; CinevilleAsset.alternativeText := None |}.

Definition filmWith
    (i t : string) (p c : option CinevilleAsset.t) : CinevilleFilm.t :=
  {| CinevilleFilm.id := i;
     CinevilleFilm.slug := i;
     CinevilleFilm.title := t;
     CinevilleFilm.cover := c;
     CinevilleFilm.poster := p;
     CinevilleFilm.trailer := None;
     CinevilleFilm.cast := None;
     CinevilleFilm.duration := 120;
     CinevilleFilm.directors := None;
     CinevilleFilm.releaseYear := 2023;
     CinevilleFilm.spokenLanguages := Some [Some "Japanese"; None];
     CinevilleFilm.contentRatingMinimumAge := None;
     CinevilleFilm.premiereDate := None;
     CinevilleFilm.shortDescription := "";
     CinevilleFilm.description := "";
     CinevilleFilm.editorsNote := None |}.

Definition screening
    (i : string) (f : CinevilleFilm.t) (th : CinevilleTheater.t)
    (starts ends : string) (special : option string) : CinevilleShowtime.t :=
  {| CinevilleShowtime.id := i;
     CinevilleShowtime.film := f;
     CinevilleShowtime.theater := th;
     CinevilleShowtime.startDate := starts;
     CinevilleShowtime.endDate := ends;
     CinevilleShowtime.subtitles := "English";
     CinevilleShowtime.languageVersion := None;
     CinevilleShowtime.ticketingUrl := None;
     CinevilleShowtime.specials := special |}.

Definition kriterion : CinevilleTheater.t := theaterIn "t1" "Kriterion" "Amsterdam".
Definition rialto : CinevilleTheater.t := theaterIn "t2" "Rialto" "Amsterdam".
Definition hartlooper : CinevilleTheater.t := theaterIn "t3" "Louis Hartlooper Complex" "Utrecht".

Definition directory : list CinevilleTheater.t := [kriterion; rialto; hartlooper].

Definition perfectDays : CinevilleFilm.t :=
  filmWith "f1" "Perfect Days" (Some (asset "https://img/f1-poster.jpg")) None.
Definition noPoster : CinevilleFilm.t := filmWith "f2" "Untitled" None None.
Definition coverOnly : CinevilleFilm.t :=
  filmWith "f3" "Aftersun" None (Some (asset "https://img/f3-cover.jpg")).

Definition s1 : CinevilleShowtime.t :=
  screening "s1" perfectDays kriterion
    "2024-03-01T15:00:00.000Z" "2024-03-01T17:05:00.000Z" (Some "Open Air 3D Screening").
Definition s2 : CinevilleShowtime.t :=
  screening "s2" perfectDays rialto
    "2024-03-01T18:00:00.000Z" "2024-03-01T20:00:00.000Z" (Some "Subtitled").
Definition s3 : CinevilleShowtime.t :=
  screening "s3" noPoster kriterion
    "2024-03-01T17:00:00.000Z" "2024-03-01T19:00:00.000Z" None.
Definition s4 : CinevilleShowtime.t :=
  screening "s4" coverOnly hartlooper
    "2024-03-01T20:20:00.000Z" "2024-03-01T22:00:00.000Z" None.

Definition showtimes : list CinevilleShowtime.t := [s1; s2; s3; s4].
Definition shuffled : list CinevilleShowtime.t := [s4; s2; s3; s1].

Definition catalog (data : list CinevilleShowtime.t) : Upstream :=
  {| theatersQuery := Delivered directory;
     showtimesQuery := fun _ => Delivered data |}.

(** The catalog is unreachable. *)
Definition offline : Upstream :=
  {| theatersQuery := Failed; showtimesQuery := fun _ => Failed |}.

(** The catalog answers, and knows no venue. *)
Definition noVenues : Upstream :=
  {| theatersQuery := Delivered []; showtimesQuery := fun _ => Delivered [] |}.

Definition today (_ : option MovieFilters.t) : DateRange :=
  {| gte := "2024-03-01T00:00:00.000Z"; lt := "2024-03-01T23:59:59.999Z" |}.

Definition filtersWith
    (cityName : option string) (theaters specials : list string) : MovieFilters.t :=
  {| MovieFilters.selectedCity := cityName;
     MovieFilters.selectedTheaters := theaters;
     MovieFilters.selectedSubtitleLanguages := [];
     MovieFilters.selectedSpokenLanguages := [];
     MovieFilters.selectedSpecials := specials;
     MovieFilters.startTime := None;
     MovieFilters.endTime := None;
     MovieFilters.startDate := None;
     MovieFilters.endDate := None |}.

Definition anyFilm : MovieFilters.t := filtersWith None [] [].
Definition only3D : MovieFilters.t := filtersWith None [] ["3D"].
Definition blankSpecial : MovieFilters.t := filtersWith None [] [""].
Definition rialtoInAmsterdam : MovieFilters.t := filtersWith (Some "Amsterdam") ["t2"] [].

(** A screening that ends at the epoch, and one that starts half an hour
    later. *)
Definition epochEnd : CinevilleShowtime.t :=
  screening "e1" perfectDays kriterion
    "1969-12-31T22:00:00.000Z" "1970-01-01T00:00:00.000Z" None.
Definition afterEpoch : CinevilleShowtime.t :=
  screening "e2" coverOnly rialto
    "1970-01-01T00:30:00.000Z" "1970-01-01T02:30:00.000Z" None.

(** The response of a settled [getPopularMovies], an empty page when it
    was rejected. *)
Definition responseOf (settled : outcome MovieResponse.t * Caches) : MovieResponse.t :=
  match fst settled with
  | Resolved r => r
  | Rejected _ =>
      {| MovieResponse.page := 1;
         MovieResponse.results := [];
         MovieResponse.total_pages := 1;
         MovieResponse.total_results := 0 |}
  end.

Definition evening (f : MovieFilters.t) (data : list CinevilleShowtime.t)
    : outcome MovieResponse.t * Caches :=
  getPopularMovies today (catalog data) (Some f) emptyCaches.

Definition epochMovie : Movie.t := convertCinevilleFilmToMovie perfectDays [epochEnd].
Definition afterEpochMovie : Movie.t := convertCinevilleFilmToMovie coverOnly [afterEpoch].
Definition epochMovies : list Movie.t := movies None [epochEnd; afterEpoch].
Definition epochAnchor : MovieTimeline.Anchor :=
  {| MovieTimeline.movieId := "f1"; MovieTimeline.showtimeId := "e1" |}.

Definition eveningMovies : list Movie.t := movies None showtimes.
Definition eveningAnchor : MovieTimeline.Anchor :=
  {| MovieTimeline.movieId := "f1"; MovieTimeline.showtimeId := "s2" |}.
Definition aftersun : Movie.t := convertCinevilleFilmToMovie coverOnly [s4].

Definition columns : list MovieTimeline.Theater :=
  [ {| MovieTimeline.id := "A"; MovieTimeline.name := "Alpha" |};
    {| MovieTimeline.id := "B"; MovieTimeline.name := "Beta" |};
    {| MovieTimeline.id := "C"; MovieTimeline.name := "Gamma" |} ].

End Scenario.

(* ================================================================== *)
(** * Part II: properties                                              *)
(* ================================================================== *)

Import JS MovieService Design.

(** ** Built-ins *)

Section Strings.

Lemma truthy_true_iff (s : string) : truthy s = true <-> s <> "".
Proof.
  unfold truthy. rewrite negb_true_iff. split.
  - intros H ->. discriminate.
  - intros H. destruct (String.eqb_spec s ""); congruence.
Qed.

Lemma truthy_false_iff (s : string) : truthy s = false <-> s = "".
Proof.
  unfold truthy. rewrite negb_false_iff. apply String.eqb_eq.
Qed.

Lemma toLowerCase_empty_iff (s : string) : toLowerCase s = "" <-> s = "".
Proof. destruct s; simpl; split; intros H; congruence. Qed.

Lemma includes_empty_label (sub : string) : includes "" sub = true <-> sub = "".
Proof.
  destruct sub; simpl; split; intros H; try reflexivity; discriminate.
Qed.

Lemma includes_empty_needle (s : string) : includes s "" = true.
Proof. destruct s; reflexivity. Qed.

Lemma orElse_label (o : option string) :
  orElse (option_map toLowerCase o) "" =
  toLowerCase (match o with Some l => l | None => "" end).
Proof.
  destruct o as [l|]; simpl; [|reflexivity].
  destruct (truthy (toLowerCase l)) eqn:E; [reflexivity|].
  apply truthy_false_iff in E. rewrite E. reflexivity.
Qed.

Lemma In_arrayFromSet (xs : list string) (x : string) :
  In x (arrayFromSet xs) <-> In x xs.
Proof.
  induction xs as [|y r IH]; simpl; [tauto|].
  rewrite filter_In, IH, negb_true_iff.
  destruct (String.eqb_spec x y) as [->|Hne]; [tauto|].
  intuition congruence.
Qed.

Lemma arrayIncludes_In (xs : list string) (x : string) :
  arrayIncludes xs x = true <-> In x xs.
Proof.
  unfold arrayIncludes. rewrite existsb_exists. split.
  - intros (y & Hy & E). apply String.eqb_eq in E. congruence.
  - intros H. exists x. split; [assumption|apply String.eqb_refl].
Qed.

End Strings.

(** ** The film map *)

Section FilmMaps.

Implicit Types (m : FilmMap) (k key : string) (g v : FilmGroup)
  (s showtime : CinevilleShowtime.t) (filters : option MovieFilters.t).

Lemma mapHas_mapGet m key :
  mapHas m key = match mapGet m key with Some _ => true | None => false end.
Proof.
  induction m as [|[k v] rest IH]; simpl; [reflexivity|].
  destruct (String.eqb k key); simpl; [reflexivity|exact IH].
Qed.

Lemma mapGet_mapSet m key v k :
  mapGet (mapSet m key v) k = if String.eqb key k then Some v else mapGet m k.
Proof.
  induction m as [|[k0 v0] rest IH]; simpl.
  - reflexivity.
  - destruct (String.eqb_spec k0 key) as [->|Hne]; simpl.
    + destruct (String.eqb key k); reflexivity.
    + rewrite IH. destruct (String.eqb_spec k0 k) as [->|Hne'].
      * destruct (String.eqb_spec key k); [congruence|reflexivity].
      * reflexivity.
Qed.

Lemma mapGet_mapPush m key s k :
  mapGet (mapPush m key s) k =
  if String.eqb key k
  then option_map (fun g => {| film := film g; showtimes := showtimes g ++ [s] |}) (mapGet m k)
  else mapGet m k.
Proof.
  induction m as [|[k0 v0] rest IH]; simpl.
  - destruct (String.eqb key k); reflexivity.
  - destruct (String.eqb_spec k0 key) as [->|Hne]; simpl.
    + destruct (String.eqb key k); reflexivity.
    + rewrite IH. destruct (String.eqb_spec k0 k) as [->|Hne'].
      * destruct (String.eqb_spec key k); [congruence|reflexivity].
      * reflexivity.
Qed.

Lemma keys_mapPush m key s : map fst (mapPush m key s) = map fst m.
Proof.
  induction m as [|[k0 v0] rest IH]; simpl; [reflexivity|].
  destruct (String.eqb k0 key); simpl; [reflexivity|]. now rewrite IH.
Qed.

Lemma keys_mapSet_fresh m key v :
  mapGet m key = None -> map fst (mapSet m key v) = (map fst m ++ [key])%list.
Proof.
  induction m as [|[k0 v0] rest IH]; simpl; [reflexivity|].
  destruct (String.eqb k0 key); [discriminate|].
  intros H. simpl. now rewrite IH.
Qed.

Lemma mapGet_None_keys m key : mapGet m key = None -> ~ In key (map fst m).
Proof.
  induction m as [|[k0 v0] rest IH]; simpl; [tauto|].
  destruct (String.eqb_spec k0 key); [discriminate|].
  intros H [E|Hin]; [congruence|]. now apply IH.
Qed.

Lemma mapGet_In m key g : mapGet m key = Some g -> In (key, g) m.
Proof.
  induction m as [|[k0 v0] rest IH]; simpl; [discriminate|].
  destruct (String.eqb_spec k0 key) as [->|Hne].
  - intros [= ->]. now left.
  - intros H. right. now apply IH.
Qed.

Lemma In_mapGet m key g :
  List.NoDup (map fst m) -> In (key, g) m -> mapGet m key = Some g.
Proof.
  induction m as [|[k0 v0] rest IH]; simpl; [tauto|].
  intros Hnd [E|Hin].
  - injection E as -> ->. now rewrite String.eqb_refl.
  - inversion Hnd as [|? ? Hnotin Hnd']; subst.
    destruct (String.eqb_spec k0 key) as [->|Hne].
    + exfalso. apply Hnotin. change key with (fst (key, g)). now apply in_map.
    + now apply IH.
Qed.

Lemma collectShowtime_skipped filters m s :
  skipsShowtime filters s = true -> collectShowtime filters m s = m.
Proof. unfold collectShowtime. now intros ->. Qed.

Lemma mapGet_collectShowtime filters m s k :
  skipsShowtime filters s = false ->
  mapGet (collectShowtime filters m s) k =
  if String.eqb (filmId s) k then grown (mapGet m k) [s] else mapGet m k.
Proof.
  intros Hkeep. unfold collectShowtime. rewrite Hkeep.
  fold (filmId s). rewrite mapGet_mapPush, mapHas_mapGet.
  destruct (String.eqb_spec (filmId s) k) as [<-|Hne].
  - destruct (mapGet m (filmId s)) as [g|] eqn:Hg.
    + rewrite Hg. reflexivity.
    + rewrite mapGet_mapSet, String.eqb_refl. reflexivity.
  - destruct (mapGet m (filmId s)); [reflexivity|].
    rewrite mapGet_mapSet.
    destruct (String.eqb_spec (filmId s) k); [congruence|reflexivity].
Qed.

Lemma keys_collectShowtime filters m s :
  List.NoDup (map fst m) -> List.NoDup (map fst (collectShowtime filters m s)).
Proof.
  intros Hnd. unfold collectShowtime.
  destruct (skipsShowtime filters s); [assumption|].
  rewrite keys_mapPush, mapHas_mapGet.
  destruct (mapGet m _) eqn:Hg; [assumption|].
  rewrite keys_mapSet_fresh by assumption.
  apply List.NoDup_app; [assumption|repeat constructor; simpl; tauto|].
  intros x Hx [<-|[]]. revert Hx. now apply mapGet_None_keys.
Qed.

Lemma keys_fold filters data m :
  List.NoDup (map fst m) ->
  List.NoDup (map fst (fold_left (collectShowtime filters) data m)).
Proof.
  revert m. induction data as [|s rest IH]; intros m Hnd; simpl; [assumption|].
  apply IH. now apply keys_collectShowtime.
Qed.

Lemma grown_app entry xs ys :
  grown (grown entry xs) ys = grown entry (xs ++ ys).
Proof.
  destruct entry as [g|]; simpl.
  - now rewrite <- app_assoc.
  - destruct xs as [|x xs]; simpl; reflexivity.
Qed.

Lemma mapGet_fold filters data m k :
  mapGet (fold_left (collectShowtime filters) data m) k =
  grown (mapGet m k) (ofFilm k (kept filters data)).
Proof.
  revert m. induction data as [|s rest IH]; intros m; simpl.
  - destruct (mapGet m k) as [g|]; simpl; [|reflexivity].
    rewrite app_nil_r. now destruct g.
  - rewrite IH. unfold kept, ofFilm. simpl.
    destruct (skipsShowtime filters s) eqn:Hs; simpl.
    + now rewrite collectShowtime_skipped.
    + rewrite mapGet_collectShowtime by assumption.
      destruct (String.eqb (filmId s) k); [|reflexivity].
      now rewrite grown_app.
Qed.

(** The head of the showtimes of a film is one of them. *)
Lemma ofFilm_first (key : string) (data : list CinevilleShowtime.t) first others :
  ofFilm key data = first :: others -> In first data /\ filmId first = key.
Proof.
  intros Hof.
  assert (Hf : In first (ofFilm key data)) by (rewrite Hof; now left).
  unfold ofFilm in Hf. apply filter_In in Hf as [Hin Hf]. split; [assumption|].
  now apply String.eqb_eq in Hf.
Qed.

(** The groups of [filmShowtimes]: one per film id with a surviving
    showtime, holding the payload of the first survivor and every
    survivor in input order. *)
Lemma filmShowtimes_groups filters data g :
  In g (mapValues (filmShowtimes filters data)) <->
  exists first others,
    ofFilm (filmId first) (kept filters data) = first :: others /\
    g = {| film := CinevilleShowtime.film first; showtimes := first :: others |}.
Proof.
  unfold mapValues, filmShowtimes. split.
  - intros Hin. apply in_map_iff in Hin as [[k g'] [E Hin]]. simpl in E. subst g'.
    apply In_mapGet in Hin; [|apply keys_fold; constructor].
    rewrite mapGet_fold in Hin. simpl in Hin.
    destruct (ofFilm k (kept filters data)) as [|first others] eqn:Hof; [discriminate|].
    injection Hin as <-. exists first, others. split; [|reflexivity].
    destruct (ofFilm_first _ _ _ _ Hof) as [_ Hk]. now rewrite Hk.
  - intros (first & others & Hof & ->).
    apply in_map_iff.
    exists (filmId first,
            {| film := CinevilleShowtime.film first; showtimes := first :: others |}).
    split; [reflexivity|]. apply mapGet_In. rewrite mapGet_fold. simpl. now rewrite Hof.
Qed.

End FilmMaps.

(** ** Promises of the service *)

Section Settling.

Variable getDateRange : option MovieFilters.t -> DateRange.

Lemma loadTheaters_resolves up st :
  exists theaters st', loadTheaters up st = (Resolved theaters, st').
Proof.
  unfold loadTheaters. destruct (theatersCache st) as [cached|]; [now eauto|].
  unfold tryCatch, await, request. destruct (theatersQuery up); simpl; eauto.
Qed.

Lemma getAllTheaterIds_resolves up st :
  exists ids st', getAllTheaterIds up st = (Resolved ids, st').
Proof.
  unfold getAllTheaterIds. destruct (allTheaterIdsCache st); [now eauto|].
  unfold await. destruct (loadTheaters_resolves up st) as (ts & st1 & ->). simpl. eauto.
Qed.

Lemma getTheaterIdsByCity_resolves up cityName st :
  exists ids st', getTheaterIdsByCity up cityName st = (Resolved ids, st').
Proof.
  unfold getTheaterIdsByCity. destruct (cityTheaterIdsCache st !! cityName); [now eauto|].
  unfold await. destruct (loadTheaters_resolves up st) as (ts & st1 & ->). simpl. eauto.
Qed.

Lemma resolveVenueIds_resolves up filters st :
  exists ids st', resolveVenueIds up filters st = (Resolved ids, st').
Proof.
  unfold resolveVenueIds. destruct filters as [f|]; [|apply getAllTheaterIds_resolves].
  destruct (hasSelectedTheaters (Some f)); [now eauto|].
  destruct (MovieFilters.selectedCity f) as [c|]; [|apply getAllTheaterIds_resolves].
  destruct (truthy c); [apply getTheaterIdsByCity_resolves|apply getAllTheaterIds_resolves].
Qed.

Lemma buildApiFilters_resolves up filters options st :
  exists built st', buildApiFilters getDateRange up filters options st = (Resolved built, st').
Proof.
  unfold buildApiFilters, await.
  destruct (resolveVenueIds_resolves up filters st) as (ids & st1 & ->). simpl. eauto.
Qed.

(** [getPopularMovies] resolves exactly when the catalog delivers the
    showtimes, and then with the films computed by [movies]. *)
Lemma getPopularMovies_settles up filters st :
  exists st',
    getPopularMovies getDateRange up filters st =
    match showtimesReceived getDateRange up filters st with
    | Delivered data =>
        (Resolved
           {| MovieResponse.page := 1;
              MovieResponse.results := movies filters data;
              MovieResponse.total_pages := 1;
              MovieResponse.total_results := Z.of_nat (length (movies filters data)) |},
         st')
    | Failed => (Rejected "Failed to fetch movies", st')
    end.
Proof.
  unfold getPopularMovies, showtimesReceived, tryCatch, await.
  destruct (buildApiFilters_resolves up filters {| includeSubtitleFilter := true |} st)
    as (built & st1 & ->).
  exists st1. unfold request.
  destruct (showtimesQuery up (fst built)); reflexivity.
Qed.

Lemma getPopularMovies_results up filters st r st' :
  getPopularMovies getDateRange up filters st = (Resolved r, st') ->
  exists data,
    showtimesReceived getDateRange up filters st = Delivered data /\
    MovieResponse.results r = movies filters data.
Proof.
  destruct (getPopularMovies_settles up filters st) as (st1 & ->).
  destruct (showtimesReceived getDateRange up filters st) as [data|]; [|discriminate].
  intros [= <- _]. now exists data.
Qed.

Lemma getPopularMovies_delivered up filters st data :
  showtimesReceived getDateRange up filters st = Delivered data ->
  exists r st',
    getPopularMovies getDateRange up filters st = (Resolved r, st') /\
    MovieResponse.results r = movies filters data.
Proof.
  intros H. destruct (getPopularMovies_settles up filters st) as (st1 & ->).
  rewrite H. eauto.
Qed.

End Settling.

(** ** Films in the results *)

Section Aggregation.

Lemma movies_In filters data movie :
  In movie (movies filters data) <->
  (exists g,
      In g (mapValues (filmShowtimes filters data)) /\
      movie = convertCinevilleFilmToMovie (film g) (showtimes g)) /\
  hasPoster movie = true /\
  passesLanguageFilters filters movie = true.
Proof.
  unfold movies, passesLanguageFilters.
  set (converted := map _ (mapValues (filmShowtimes filters data))).
  assert (Hconv : In movie converted <->
                  exists g, In g (mapValues (filmShowtimes filters data)) /\
                            movie = convertCinevilleFilmToMovie (film g) (showtimes g)).
  { unfold converted. rewrite in_map_iff. split; intros (g & H1 & H2); exists g; split; auto. }
  rewrite <- Hconv. clear Hconv.
  destruct filters as [f|].
  - destruct (hasSelectedSubtitleLanguages (Some f)), (hasSelectedSpokenLanguages (Some f));
      rewrite ?filter_In, ?andb_true_iff; tauto.
  - rewrite filter_In. tauto.
Qed.

End Aggregation.

(** C1. Whatever showtimes the catalog delivers and whatever the filters
    are, every film in the results of a resolved [getPopularMovies] has a
    non-empty [poster_path] and at least one showtime. *)
Theorem getPopularMovies_poster_and_showtime
    (getDateRange : option MovieFilters.t -> DateRange)
    (up : Upstream) (filters : option MovieFilters.t) (st st' : Caches)
    (r : MovieResponse.t) (movie : Movie.t) :
  getPopularMovies getDateRange up filters st = (Resolved r, st') ->
  In movie (MovieResponse.results r) ->
  Movie.poster_path movie <> "" /\ Movie.showtimes movie <> [].
Proof.
  intros Hrun Hin.
  apply getPopularMovies_results in Hrun as (data & _ & Hres).
  rewrite Hres in Hin. apply movies_In in Hin as ((g & Hg & ->) & Hposter & _).
  split.
  - now apply truthy_true_iff.
  - apply filmShowtimes_groups in Hg as (first & others & _ & ->). simpl. discriminate.
Qed.

Lemma getPopularMovies_poster_and_showtime_witness :
  Movie.poster_path (convertCinevilleFilmToMovie Scenario.perfectDays [Scenario.s1; Scenario.s2])
  <> "" /\
  Movie.showtimes (convertCinevilleFilmToMovie Scenario.perfectDays [Scenario.s1; Scenario.s2])
  <> [].
Proof.
  apply (getPopularMovies_poster_and_showtime Scenario.today
           (Scenario.catalog Scenario.showtimes) (Some Scenario.anyFilm) emptyCaches
           (snd (Scenario.evening Scenario.anyFilm Scenario.showtimes))
           (Scenario.responseOf (Scenario.evening Scenario.anyFilm Scenario.showtimes))).
  - reflexivity.
  - left. reflexivity.
Defined.

(** ** Venue directory and venue scope *)

Section VenueDirectory.

Variable up : Upstream.
Variable directory : list CinevilleTheater.t.
Hypothesis Hdelivered : theatersQuery up = Delivered directory.

Lemma loadTheaters_agree st :
  cachesAgree directory st ->
  exists st', loadTheaters up st = (Resolved directory, st') /\ cachesAgree directory st'.
Proof.
  intros (Hth & Hall & Hcity). unfold loadTheaters.
  destruct Hth as [Hth|Hth]; rewrite Hth.
  - unfold tryCatch, await, request. rewrite Hdelivered. simpl.
    eexists. split; [reflexivity|].
    repeat split; simpl; auto.
  - exists st. split; [reflexivity|]. repeat split; auto.
Qed.

Lemma getAllTheaterIds_agree st :
  cachesAgree directory st ->
  exists st',
    getAllTheaterIds up st = (Resolved (map CinevilleTheater.id directory), st') /\
    cachesAgree directory st'.
Proof.
  intros Hagree. unfold getAllTheaterIds.
  destruct Hagree as (Hth & [Hall|Hall] & Hcity); rewrite Hall.
  - destruct (loadTheaters_agree st) as (st1 & Hload & (Hth1 & Hall1 & Hcity1)).
    { repeat split; auto. }
    unfold await. rewrite Hload. simpl.
    eexists. split; [reflexivity|]. repeat split; simpl; auto.
  - exists st. split; [reflexivity|]. repeat split; auto.
Qed.

Lemma getTheaterIdsByCity_agree cityName st :
  cachesAgree directory st ->
  exists st',
    getTheaterIdsByCity up cityName st =
    (Resolved (map CinevilleTheater.id (List.filter (inCity cityName) directory)), st') /\
    cachesAgree directory st'.
Proof.
  intros Hagree. unfold getTheaterIdsByCity.
  destruct (cityTheaterIdsCache st !! cityName) as [cached|] eqn:Hc.
  - exists st. split; [|assumption].
    destruct Hagree as (_ & _ & Hcity). now rewrite (Hcity _ _ Hc).
  - destruct (loadTheaters_agree st Hagree) as (st1 & Hload & (Hth1 & Hall1 & Hcity1)).
    unfold await. rewrite Hload. simpl.
    eexists. split; [reflexivity|]. repeat split; simpl; auto.
    intros c ids. rewrite lookup_insert. case_decide as Hd.
    + subst c. now intros [= <-].
    + apply Hcity1.
Qed.

End VenueDirectory.

(** The precedence itself holds in every state of the caches: the answer
    comes from one source alone. *)
Lemma resolveVenueIds_cases (up : Upstream) (f : MovieFilters.t) :
  resolveVenueIds up (Some f) =
  match MovieFilters.selectedTheaters f with
  | _ :: _ => resolve (MovieFilters.selectedTheaters f)
  | [] =>
      match MovieFilters.selectedCity f with
      | Some cityName =>
          if String.eqb cityName "" then getAllTheaterIds up
          else getTheaterIdsByCity up cityName
      | None => getAllTheaterIds up
      end
  end.
Proof.
  unfold resolveVenueIds, hasSelectedTheaters, truthy.
  destruct (MovieFilters.selectedTheaters f); simpl; [|reflexivity].
  destruct (MovieFilters.selectedCity f) as [c|]; [|reflexivity].
  now destruct (String.eqb c "").
Qed.

Lemma loadTheaters_directoryAtHand up st :
  exists st', loadTheaters up st = (Resolved (directoryAtHand up st), st').
Proof.
  unfold loadTheaters, directoryAtHand, tryCatch, await, request.
  destruct (theatersCache st); [now eexists|].
  destruct (theatersQuery up); simpl; now eexists.
Qed.

Lemma getAllTheaterIds_served up st :
  exists st', getAllTheaterIds up st = (Resolved (servedAllIds up st), st').
Proof.
  unfold getAllTheaterIds, servedAllIds.
  destruct (allTheaterIdsCache st); [now eexists|].
  unfold await. destruct (loadTheaters_directoryAtHand up st) as (st1 & ->).
  simpl. now eexists.
Qed.

Lemma getTheaterIdsByCity_served up cityName st :
  exists st',
    getTheaterIdsByCity up cityName st = (Resolved (servedCityIds up st cityName), st').
Proof.
  unfold getTheaterIdsByCity, servedCityIds.
  destruct (cityTheaterIdsCache st !! cityName); [now eexists|].
  unfold await. destruct (loadTheaters_directoryAtHand up st) as (st1 & ->).
  simpl. now eexists.
Qed.

(** With the directory delivered and caches that hold nothing else, the
    answer is the venue scope of the design document. *)
Lemma resolveVenueIds_agree
    (up : Upstream) (directory : list CinevilleTheater.t) (f : MovieFilters.t) (st : Caches) :
  theatersQuery up = Delivered directory ->
  cachesAgree directory st ->
  exists st',
    resolveVenueIds up (Some f) st = (Resolved (venueScope directory f), st') /\
    cachesAgree directory st'.
Proof.
  intros Hup Hagree.
  unfold resolveVenueIds, venueScope, hasSelectedTheaters.
  destruct (MovieFilters.selectedTheaters f) as [|t ts] eqn:Hsel; simpl.
  - destruct (MovieFilters.selectedCity f) as [c|].
    + unfold truthy. destruct (String.eqb c ""); simpl.
      * now apply getAllTheaterIds_agree.
      * now apply getTheaterIdsByCity_agree.
    + now apply getAllTheaterIds_agree.
  - exists st. split; [reflexivity|assumption].
Qed.

(** C3, as the service behaves.  [resolveVenueIds] consults one source
    only, never a union: the selected theater ids when there are any (the
    city is then ignored and the caches are left alone), else the ids
    cached for the selected city or, when none are cached, those of its
    theaters in the directory at hand, else all ids, cached or of the
    directory at hand; the directory at hand is the cached one, else the
    one the catalog delivers, else the empty one when the fetch fails.
    When the catalog delivers the directory and the caches hold nothing
    else, the answer is exactly [venueScope]: the ids of the theaters of
    the city, respectively all ids. *)
Theorem resolveVenueIds_precedence (up : Upstream) (f : MovieFilters.t) (st : Caches) :
  (exists st',
      resolveVenueIds up (Some f) st = (Resolved (servedScope up st f), st') /\
      (MovieFilters.selectedTheaters f <> [] -> st' = st)) /\
  (forall directory,
      theatersQuery up = Delivered directory ->
      cachesAgree directory st ->
      servedScope up st f = venueScope directory f /\
      exists st',
        resolveVenueIds up (Some f) st = (Resolved (venueScope directory f), st') /\
        cachesAgree directory st').
Proof.
  assert (Hserved : exists st',
             resolveVenueIds up (Some f) st = (Resolved (servedScope up st f), st') /\
             (MovieFilters.selectedTheaters f <> [] -> st' = st)).
  { rewrite resolveVenueIds_cases. unfold servedScope.
    destruct (MovieFilters.selectedTheaters f) as [|t ts].
    - destruct (MovieFilters.selectedCity f) as [c|].
      + destruct (String.eqb c "").
        * destruct (getAllTheaterIds_served up st) as (st' & ->).
          exists st'. split; [reflexivity|congruence].
        * destruct (getTheaterIdsByCity_served up c st) as (st' & ->).
          exists st'. split; [reflexivity|congruence].
      + destruct (getAllTheaterIds_served up st) as (st' & ->).
        exists st'. split; [reflexivity|congruence].
    - exists st. split; reflexivity. }
  split; [exact Hserved|].
  intros directory Hup Hagree.
  destruct (resolveVenueIds_agree up directory f st Hup Hagree) as (st2 & Hrun & Hagree2).
  split; [|now exists st2].
  destruct Hserved as (st1 & Hrun1 & _). congruence.
Qed.

(** Caches that hold nothing agree with every directory. *)
Lemma cachesAgree_empty directory : cachesAgree directory emptyCaches.
Proof.
  repeat split; simpl; auto. intros c ids. rewrite lookup_empty. discriminate.
Qed.

(** C3 as worded fails: a call for Amsterdam made while the catalog was
    unreachable has cached the empty list for the city, and a later call
    answers with it although the catalog then delivers a directory with
    two theaters in Amsterdam. *)
Lemma resolveVenueIds_serves_stale_city_scope :
  let amsterdam := Scenario.filtersWith (Some "Amsterdam") [] [] in
  let st1 := snd (resolveVenueIds Scenario.offline (Some amsterdam) emptyCaches) in
  MovieFilters.selectedTheaters amsterdam = [] /\
  MovieFilters.selectedCity amsterdam = Some "Amsterdam" /\
  theatersQuery (Scenario.catalog Scenario.showtimes) = Delivered Scenario.directory /\
  map CinevilleTheater.id (List.filter (inCity "Amsterdam") Scenario.directory) = ["t1"; "t2"] /\
  resolveVenueIds Scenario.offline (Some amsterdam) emptyCaches = (Resolved [], st1) /\
  theatersCache st1 = None /\
  cityTheaterIdsCache st1 !! "Amsterdam" = Some [] /\
  resolveVenueIds (Scenario.catalog Scenario.showtimes) (Some amsterdam) st1
  = (Resolved [], st1).
Proof. repeat split. Qed.

(** C6, as the service behaves. When the first fetch of the directory
    fails, [loadTheaters] resolves with the empty list and leaves the cache
    unset; it never rejects, so the failure reaches no caller, and its
    answer is the one given for a catalog without venues. *)
Theorem loadTheaters_failure_resolves_empty (up venueless : Upstream) (st : Caches) :
  theatersCache st = None ->
  theatersQuery up = Failed ->
  theatersQuery venueless = Delivered [] ->
  loadTheaters up st = (Resolved [], st) /\
  fst (loadTheaters venueless st) = fst (loadTheaters up st) /\
  (forall up' st0, exists theaters st1, loadTheaters up' st0 = (Resolved theaters, st1)).
Proof.
  intros Hcache Hfail Hnone.
  assert (Hrun : loadTheaters up st = (Resolved [], st)).
  { unfold loadTheaters, tryCatch, await, request. now rewrite Hcache, Hfail. }
  split; [exact Hrun|]. split.
  - rewrite Hrun. unfold loadTheaters, tryCatch, await, request.
    now rewrite Hcache, Hnone.
  - apply loadTheaters_resolves.
Qed.

Lemma loadTheaters_failure_resolves_empty_witness :
  loadTheaters Scenario.offline emptyCaches = (Resolved [], emptyCaches) /\
  fst (loadTheaters Scenario.noVenues emptyCaches)
  = fst (loadTheaters Scenario.offline emptyCaches) /\
  (forall up' st0, exists theaters st1, loadTheaters up' st0 = (Resolved theaters, st1)).
Proof.
  apply (loadTheaters_failure_resolves_empty Scenario.offline Scenario.noVenues emptyCaches);
    reflexivity.
Defined.

(** C6 as worded fails: with the catalog unreachable and nothing cached,
    [loadTheaters] resolves, and with the very list it resolves with when
    the catalog reports no venue. *)
Lemma loadTheaters_failure_untyped :
  theatersCache emptyCaches = None /\
  theatersQuery Scenario.offline = Failed /\
  theatersQuery Scenario.noVenues = Delivered [] /\
  loadTheaters Scenario.offline emptyCaches = (Resolved [], emptyCaches) /\
  fst (loadTheaters Scenario.offline emptyCaches) =
  fst (loadTheaters Scenario.noVenues emptyCaches).
Proof. repeat split. Qed.



(** ** Specials filter *)

Section SpecialsFilter.

Lemma hasMatchingSpecial_iff f s :
  hasMatchingSpecial f s = true <-> matchesSelectedSpecial f s.
Proof.
  unfold hasMatchingSpecial, matchesSelectedSpecial, specialsLabel.
  rewrite orElse_label, existsb_exists. reflexivity.
Qed.

Lemma skipsShowtime_iff f s :
  MovieFilters.selectedSpecials f <> [] ->
  skipsShowtime (Some f) s = false <-> matchesSelectedSpecial f s.
Proof.
  intros Hsel. unfold skipsShowtime, shouldFilterBySpecials.
  destruct (MovieFilters.selectedSpecials f) as [|x xs] eqn:E; [congruence|].
  simpl. rewrite negb_false_iff, <- hasMatchingSpecial_iff. reflexivity.
Qed.

Lemma In_kept filters data s :
  In s (kept filters data) <-> In s data /\ skipsShowtime filters s = false.
Proof. unfold kept. now rewrite filter_In, negb_true_iff. Qed.

Lemma collected_iff filters data s :
  collected filters data s <-> In s (kept filters data).
Proof.
  unfold collected. split.
  - intros (g & Hg & Hs). apply filmShowtimes_groups in Hg as (first & others & Hof & ->).
    change (In s (first :: others)) in Hs. rewrite <- Hof in Hs. unfold ofFilm in Hs.
    now apply filter_In in Hs.
  - intros Hs.
    assert (Hin : In s (ofFilm (filmId s) (kept filters data))).
    { unfold ofFilm. apply filter_In. split; [assumption|apply String.eqb_refl]. }
    destruct (ofFilm (filmId s) (kept filters data)) as [|first others] eqn:Hof; [destruct Hin|].
    destruct (ofFilm_first _ _ _ _ Hof) as [_ Hk].
    exists {| film := CinevilleShowtime.film first; showtimes := first :: others |}.
    split; [|exact Hin].
    apply filmShowtimes_groups. exists first, others. now rewrite Hk.
Qed.

Lemma movie_of_group filters data movie :
  In movie (movies filters data) ->
  exists first,
    In first (kept filters data) /\ Movie.id movie = filmId first.
Proof.
  intros Hin. apply movies_In in Hin as ((g & Hg & ->) & _).
  apply filmShowtimes_groups in Hg as (first & others & Hof & ->).
  exists first. split; [|reflexivity]. now destruct (ofFilm_first _ _ _ _ Hof).
Qed.

Lemma blank_label_matches f s :
  specialsLabel s = "" -> matchesSelectedSpecial f s <-> In "" (MovieFilters.selectedSpecials f).
Proof.
  intros Hl. unfold matchesSelectedSpecial. rewrite Hl.
  change (toLowerCase "") with "". split.
  - intros (sel & Hsel & Hinc). apply includes_empty_label in Hinc.
    apply (proj1 (toLowerCase_empty_iff sel)) in Hinc. now rewrite Hinc in Hsel.
  - intros Hin. exists "". split; [assumption|reflexivity].
Qed.

End SpecialsFilter.

(** C4, as the service behaves. With at least one special selected, a
    showtime reaches the film grouping exactly when its label, lowercased,
    contains some selected special, lowercased; a film whose showtimes are
    all dropped is absent from the results, and every showtime listed in the
    results passed the filter. A missing or empty label matches exactly when
    the empty string is among the selected specials, hence never against
    non-empty selections. *)
Theorem specials_filter_keeps_matching_showtimes
    (getDateRange : option MovieFilters.t -> DateRange)
    (up : Upstream) (f : MovieFilters.t) (st : Caches) (data : list CinevilleShowtime.t) :
  MovieFilters.selectedSpecials f <> [] ->
  showtimesReceived getDateRange up (Some f) st = Delivered data ->
  (forall s, collected (Some f) data s <-> In s data /\ matchesSelectedSpecial f s) /\
  (forall s, specialsLabel s = "" ->
             (matchesSelectedSpecial f s <-> In "" (MovieFilters.selectedSpecials f))) /\
  exists r st',
    getPopularMovies getDateRange up (Some f) st = (Resolved r, st') /\
    (forall key,
        (forall s, In s data -> filmId s = key -> ~ matchesSelectedSpecial f s) ->
        forall movie, In movie (MovieResponse.results r) -> Movie.id movie <> key) /\
    (forall movie shown,
        In movie (MovieResponse.results r) -> In shown (Movie.showtimes movie) ->
        exists s, In s data /\ matchesSelectedSpecial f s /\ shown = toMovieShowtime s).
Proof.
  intros Hsel Hrecv. split; [|split].
  - intros s. rewrite collected_iff, In_kept, skipsShowtime_iff by assumption. reflexivity.
  - intros s Hl. now apply blank_label_matches.
  - destruct (getPopularMovies_delivered getDateRange up (Some f) st data Hrecv)
      as (r & st' & Hrun & Hres).
    exists r, st'. split; [assumption|]. rewrite Hres. split.
    + intros key Hdropped movie Hin Hid.
      apply movie_of_group in Hin as (first & Hkept & Hfirst).
      apply In_kept in Hkept as [Hdata Hkeep].
      apply skipsShowtime_iff in Hkeep; [|assumption].
      apply (Hdropped first Hdata); [congruence|assumption].
    + intros movie shown Hin Hshown.
      apply movies_In in Hin as ((g & Hg & ->) & _). simpl in Hshown.
      apply in_map_iff in Hshown as (s & <- & Hs).
      assert (Hc : collected (Some f) data s) by (exists g; split; assumption).
      apply collected_iff, In_kept in Hc as [Hdata Hkeep].
      apply skipsShowtime_iff in Hkeep; [|assumption].
      exists s. repeat split; assumption.
Qed.

Lemma specials_filter_keeps_matching_showtimes_witness :
  matchesSelectedSpecial Scenario.only3D Scenario.s1 /\
  ~ matchesSelectedSpecial Scenario.only3D Scenario.s2 /\
  collected (Some Scenario.only3D) Scenario.showtimes Scenario.s1 /\
  ~ collected (Some Scenario.only3D) Scenario.showtimes Scenario.s2 /\
  map Movie.id (MovieResponse.results
                  (Scenario.responseOf (Scenario.evening Scenario.only3D Scenario.showtimes)))
  = ["f1"].
Proof.
  destruct (specials_filter_keeps_matching_showtimes Scenario.today
              (Scenario.catalog Scenario.showtimes) Scenario.only3D emptyCaches
              Scenario.showtimes) as (Hkept & _ & _).
  - discriminate.
  - reflexivity.
  - assert (H1 : matchesSelectedSpecial Scenario.only3D Scenario.s1).
    { exists "3D". split; [now left|reflexivity]. }
    assert (H2 : ~ matchesSelectedSpecial Scenario.only3D Scenario.s2).
    { intros (sel & [<-|[]] & Hinc). discriminate Hinc. }
    split; [exact H1|]. split; [exact H2|]. split.
    + apply Hkept. split; [now left|exact H1].
    + split.
      * intros Hc. apply Hkept in Hc as [_ Hc]. exact (H2 Hc).
      * reflexivity.
Defined.

(** C4 as worded fails: with the empty string as the only selected
    special, a showtime without a specials label passes the filter and is
    listed in the results. *)
Lemma blank_special_keeps_unlabelled_showtime :
  MovieFilters.selectedSpecials Scenario.blankSpecial <> [] /\
  CinevilleShowtime.specials Scenario.s4 = None /\
  skipsShowtime (Some Scenario.blankSpecial) Scenario.s4 = false /\
  map (fun movie => (Movie.id movie, map MovieShowtime.id (Movie.showtimes movie)))
      (MovieResponse.results
         (Scenario.responseOf (Scenario.evening Scenario.blankSpecial Scenario.showtimes)))
  = [("f1", ["s1"; "s2"]); ("f3", ["s4"])].
Proof. repeat split. discriminate. Qed.

(** ** Poster gate *)

Section PosterGate.

Lemma posterPath_posterOrCover film : posterPath film = posterOrCover film.
Proof.
  unfold posterPath, posterOrCover, orElse, truthy.
  destruct (CinevilleFilm.poster film) as [p|], (CinevilleFilm.cover film) as [c|]; simpl;
    repeat match goal with
           | |- context [String.eqb ?a ""] => destruct (String.eqb_spec a "")
           end; simpl; congruence.
Qed.

End PosterGate.

(** C9. For every film group, [poster_path] is the poster URL, else the
    cover URL, else empty; the film is in the results exactly when that
    string is non-empty and the language filters let it pass; in particular
    a film without poster asset whose cover has a non-empty URL passes the
    poster gate. *)
Theorem poster_falls_back_to_cover
    (getDateRange : option MovieFilters.t -> DateRange)
    (up : Upstream) (filters : option MovieFilters.t) (st : Caches)
    (data : list CinevilleShowtime.t) :
  showtimesReceived getDateRange up filters st = Delivered data ->
  exists r st',
    getPopularMovies getDateRange up filters st = (Resolved r, st') /\
    forall g,
      In g (mapValues (filmShowtimes filters data)) ->
      let movie := convertCinevilleFilmToMovie (film g) (showtimes g) in
      Movie.poster_path movie = posterOrCover (film g) /\
      (In movie (MovieResponse.results r) <->
       posterOrCover (film g) <> "" /\ passesLanguageFilters filters movie = true) /\
      (forall c,
          CinevilleFilm.poster (film g) = None ->
          CinevilleFilm.cover (film g) = Some c ->
          CinevilleAsset.url c <> "" ->
          Movie.poster_path movie = CinevilleAsset.url c /\ hasPoster movie = true).
Proof.
  intros Hrecv.
  destruct (getPopularMovies_delivered getDateRange up filters st data Hrecv)
    as (r & st' & Hrun & Hres).
  exists r, st'. split; [assumption|]. intros g Hg movie.
  assert (Hpath : Movie.poster_path movie = posterOrCover (film g))
    by apply posterPath_posterOrCover.
  split; [exact Hpath|]. split.
  - rewrite Hres, movies_In. unfold hasPoster. rewrite truthy_true_iff, Hpath. split.
    + tauto.
    + intros [H1 H2]. split; [|tauto]. exists g. split; [assumption|reflexivity].
  - intros c Hp Hc Hurl. unfold hasPoster. rewrite truthy_true_iff, Hpath.
    unfold posterOrCover. rewrite Hp, Hc. split; [reflexivity|assumption].
Qed.

Lemma poster_falls_back_to_cover_witness :
  exists r st',
    getPopularMovies Scenario.today (Scenario.catalog Scenario.showtimes)
      (Some Scenario.anyFilm) emptyCaches = (Resolved r, st') /\
    forall g,
      In g (mapValues (filmShowtimes (Some Scenario.anyFilm) Scenario.showtimes)) ->
      let movie := convertCinevilleFilmToMovie (film g) (showtimes g) in
      Movie.poster_path movie = posterOrCover (film g) /\
      (In movie (MovieResponse.results r) <->
       posterOrCover (film g) <> "" /\
       passesLanguageFilters (Some Scenario.anyFilm) movie = true) /\
      (forall c,
          CinevilleFilm.poster (film g) = None ->
          CinevilleFilm.cover (film g) = Some c ->
          CinevilleAsset.url c <> "" ->
          Movie.poster_path movie = CinevilleAsset.url c /\ hasPoster movie = true).
Proof.
  apply (poster_falls_back_to_cover Scenario.today (Scenario.catalog Scenario.showtimes)
           (Some Scenario.anyFilm) emptyCaches Scenario.showtimes).
  reflexivity.
Defined.

(** ** Order of the input *)

Section Shuffling.

Lemma filter_Permutation_compat {A} (p : A -> bool) (xs ys : list A) :
  Permutation xs ys -> Permutation (List.filter p xs) (List.filter p ys).
Proof.
  induction 1 as [|x xs ys _ IH|x y xs|xs ys zs _ IH1 _ IH2]; simpl.
  - constructor.
  - destruct (p x); [now constructor|assumption].
  - destruct (p x), (p y); try reflexivity. apply perm_swap.
  - now transitivity (List.filter p ys).
Qed.

Lemma sameSet_of_Permutation {A} (xs ys : list A) : Permutation xs ys -> sameSet xs ys.
Proof.
  intros H x. split; apply Permutation_in; [assumption|now symmetry].
Qed.

Lemma sameSet_map {A B} (h : A -> B) (xs ys : list A) :
  sameSet xs ys -> sameSet (map h xs) (map h ys).
Proof.
  intros H y. rewrite !in_map_iff. split; intros (x & E & Hx); exists x; split; auto; now apply H.
Qed.

Lemma sameSet_filter {A} (p : A -> bool) (xs ys : list A) :
  sameSet xs ys -> sameSet (List.filter p xs) (List.filter p ys).
Proof.
  intros H x. rewrite !filter_In. specialize (H x). tauto.
Qed.

Lemma sameSet_arrayFromSet (xs ys : list string) :
  sameSet xs ys -> sameSet (arrayFromSet xs) (arrayFromSet ys).
Proof. intros H x. rewrite !In_arrayFromSet. apply H. Qed.

Lemma sameSet_distinctLabels (xs ys : list string) :
  sameSet xs ys -> sameSet (distinctLabels xs) (distinctLabels ys).
Proof.
  intros H. unfold distinctLabels.
  now apply sameSet_arrayFromSet, sameSet_map, sameSet_filter.
Qed.

Lemma existsb_sameSet {A} (p : A -> bool) (xs ys : list A) :
  sameSet xs ys -> existsb p xs = existsb p ys.
Proof.
  intros H. apply eq_true_iff_eq. rewrite !existsb_exists.
  split; intros (x & Hx & Hp); exists x; split; auto; now apply H.
Qed.

Lemma existsb_pointwise {A} (p q : A -> bool) (xs : list A) :
  (forall x, p x = q x) -> existsb p xs = existsb q xs.
Proof.
  intros H. induction xs as [|x xs IH]; simpl; [reflexivity|]. now rewrite H, IH.
Qed.

(** Conversion does not depend on the order of the showtimes of a film,
    up to the order of the lists it fills. *)
Lemma convert_shuffled film xs ys :
  Permutation xs ys ->
  sameFilm (convertCinevilleFilmToMovie film xs) (convertCinevilleFilmToMovie film ys).
Proof.
  intros Hperm. pose proof (sameSet_of_Permutation _ _ Hperm) as Hset.
  unfold sameFilm. simpl.
  repeat (split; [reflexivity|]).
  split; [now apply sameSet_distinctLabels, sameSet_map|].
  split; [now apply sameSet_arrayFromSet, sameSet_map, sameSet_filter|].
  split; [now apply sameSet_distinctLabels, sameSet_map|].
  split; [now apply sameSet_map, sameSet_map|].
  now apply Permutation_map.
Qed.

Lemma sameFilm_gates filters a b :
  sameFilm a b ->
  hasPoster a = hasPoster b /\
  passesLanguageFilters filters a = passesLanguageFilters filters b.
Proof.
  intros (_ & _ & Hposter & _ & _ & _ & _ & _ & _ & _ & _ & Hspoken & Hsubs & _).
  split.
  - unfold hasPoster. now rewrite Hposter.
  - unfold passesLanguageFilters, matchesSubtitleLanguages, matchesSpokenLanguages.
    destruct filters as [f|]; [|reflexivity].
    rewrite Hspoken. f_equal.
    destruct (hasSelectedSubtitleLanguages (Some f)); [|reflexivity].
    apply existsb_pointwise. intros selectedLang. now apply existsb_sameSet.
Qed.

Lemma consistentFilms_shuffled data data' :
  Permutation data data' -> consistentFilms data -> consistentFilms data'.
Proof.
  intros Hperm Hcons s1 s2 H1 H2.
  apply Permutation_sym in Hperm.
  apply Hcons; [exact (Permutation_in _ Hperm H1)|exact (Permutation_in _ Hperm H2)].
Qed.

Lemma groups_shuffled filters data data' g :
  Permutation data data' ->
  consistentFilms data ->
  In g (mapValues (filmShowtimes filters data)) ->
  exists g',
    In g' (mapValues (filmShowtimes filters data')) /\
    film g' = film g /\ Permutation (showtimes g) (showtimes g').
Proof.
  intros Hperm Hcons Hg.
  apply filmShowtimes_groups in Hg as (first & others & Hof & ->).
  assert (Hp : Permutation (ofFilm (filmId first) (kept filters data))
                           (ofFilm (filmId first) (kept filters data'))).
  { unfold ofFilm, kept. now do 2 apply filter_Permutation_compat. }
  rewrite Hof in Hp.
  destruct (ofFilm (filmId first) (kept filters data')) as [|first' others'] eqn:Hof'.
  { apply Permutation_sym, Permutation_nil in Hp. discriminate. }
  destruct (ofFilm_first _ _ _ _ Hof) as [Hin Hk].
  destruct (ofFilm_first _ _ _ _ Hof') as [Hin' Hk'].
  apply In_kept in Hin as [Hin _]. apply In_kept in Hin' as [Hin' _].
  assert (Hfilm : CinevilleShowtime.film first' = CinevilleShowtime.film first).
  { apply Hcons; [|assumption|assumption].
    eapply Permutation_in; [symmetry; eassumption|assumption]. }
  exists {| film := CinevilleShowtime.film first'; showtimes := first' :: others' |}.
  split; [|split; [exact Hfilm|exact Hp]].
  apply filmShowtimes_groups. exists first', others'. split; [|reflexivity].
  now rewrite Hk'.
Qed.

Lemma movies_shuffled filters data data' movie :
  Permutation data data' ->
  consistentFilms data ->
  In movie (movies filters data) ->
  exists movie', In movie' (movies filters data') /\ sameFilm movie movie'.
Proof.
  intros Hperm Hcons Hin.
  apply movies_In in Hin as ((g & Hg & ->) & Hposter & Hlang).
  destruct (groups_shuffled filters data data' g Hperm Hcons Hg) as (g' & Hg' & Hfilm & Hp).
  pose proof (convert_shuffled (film g) _ _ Hp) as Hsame.
  rewrite <- Hfilm in Hsame at 2.
  exists (convertCinevilleFilmToMovie (film g') (showtimes g')). split; [|exact Hsame].
  destruct (sameFilm_gates filters _ _ Hsame) as [E1 E2].
  apply movies_In. split; [|split].
  - exists g'. split; [assumption|reflexivity].
  - now rewrite <- E1.
  - now rewrite <- E2.
Qed.

Lemma sameFilm_sym a b : sameFilm a b -> sameFilm b a.
Proof.
  unfold sameFilm, sameSet. intros H.
  repeat match goal with
         | H : _ /\ _ |- _ => destruct H
         end.
  repeat split; try (symmetry; assumption);
    match goal with
    | H : forall x, In x ?l <-> _ |- In _ _ -> In _ _ => now apply H
    end.
Qed.

End Shuffling.

(** C8. Two runs of [getPopularMovies] that receive the same showtimes in
    different orders, records of one film carrying one payload, resolve
    with the same films: same fields, same showtimes and showtime ids, same
    three facet sets, up to the order of the lists. *)
Theorem getPopularMovies_shuffle_invariant
    (getDateRange : option MovieFilters.t -> DateRange)
    (up up' : Upstream) (filters : option MovieFilters.t) (st st' : Caches)
    (data data' : list CinevilleShowtime.t) :
  showtimesReceived getDateRange up filters st = Delivered data ->
  showtimesReceived getDateRange up' filters st' = Delivered data' ->
  Permutation data data' ->
  consistentFilms data ->
  exists r r' st1 st1',
    getPopularMovies getDateRange up filters st = (Resolved r, st1) /\
    getPopularMovies getDateRange up' filters st' = (Resolved r', st1') /\
    sameFilms (MovieResponse.results r) (MovieResponse.results r').
Proof.
  intros Hrecv Hrecv' Hperm Hcons.
  destruct (getPopularMovies_delivered getDateRange up filters st data Hrecv)
    as (r & st1 & Hrun & Hres).
  destruct (getPopularMovies_delivered getDateRange up' filters st' data' Hrecv')
    as (r' & st1' & Hrun' & Hres').
  exists r, r', st1, st1'. split; [assumption|]. split; [assumption|].
  rewrite Hres, Hres'. split.
  - intros a Ha. now apply (movies_shuffled filters data data').
  - intros b Hb.
    destruct (movies_shuffled filters data' data b) as (a & Ha & Hsame).
    + now symmetry.
    + now apply (consistentFilms_shuffled data data').
    + assumption.
    + exists a. split; [assumption|now apply sameFilm_sym].
Qed.

Lemma getPopularMovies_shuffle_invariant_witness :
  exists r r' st1 st1',
    getPopularMovies Scenario.today (Scenario.catalog Scenario.showtimes)
      (Some Scenario.anyFilm) emptyCaches = (Resolved r, st1) /\
    getPopularMovies Scenario.today (Scenario.catalog Scenario.shuffled)
      (Some Scenario.anyFilm) emptyCaches = (Resolved r', st1') /\
    sameFilms (MovieResponse.results r) (MovieResponse.results r').
Proof.
  apply (getPopularMovies_shuffle_invariant Scenario.today
           (Scenario.catalog Scenario.showtimes) (Scenario.catalog Scenario.shuffled)
           (Some Scenario.anyFilm) emptyCaches emptyCaches
           Scenario.showtimes Scenario.shuffled).
  - reflexivity.
  - reflexivity.
  - unfold Scenario.showtimes, Scenario.shuffled.
    apply Permutation_trans with (l' := [Scenario.s4; Scenario.s1; Scenario.s2; Scenario.s3]).
    + apply Permutation_sym. apply (Permutation_cons_append [Scenario.s1; Scenario.s2; Scenario.s3]).
    + apply perm_skip.
      apply Permutation_trans with (l' := [Scenario.s2; Scenario.s3; Scenario.s1]).
      * apply (Permutation_cons_append [Scenario.s2; Scenario.s3]).
      * apply Permutation_refl.
  - intros a b Ha Hb. simpl in Ha, Hb.
    repeat match goal with
           | H : _ \/ _ |- _ => destruct H as [<-|H]
           | H : False |- _ => destruct H
           end; intros E; try reflexivity; discriminate E.
Defined.

(** ** Availability on the timeline *)

Section Availability.

Import MovieTimeline.

Variable getTime : string -> number.

Lemma bufferTimeMs_nonneg bufferMinutes : (0 <= bufferTimeMs bufferMinutes)%Z.
Proof. unfold bufferTimeMs. lia. Qed.

Lemma bufferTimeMs_in_range bufferMinutes :
  (0 <= bufferMinutes <= 180)%Z -> (0 <= bufferTimeMs bufferMinutes <= 180 * 60 * 1000)%Z.
Proof. unfold bufferTimeMs. lia. Qed.

Lemma bufferTimeMs_unbounded (bound : Z) :
  exists bufferMinutes, (bound < bufferTimeMs bufferMinutes)%Z.
Proof.
  exists (Z.max 1 bound). unfold bufferTimeMs. lia.
Qed.

(** Away from the epoch the rows are classified against the threshold
    [T + bufferMs]. *)
Lemma renderRow_threshold
    movies mode anchor bufferMinutes hideSame movie row (T s : Z) :
  selectedAnchorEnd getTime movies anchor = Some (Num T) ->
  T <> 0%Z ->
  currentShowtimeStart getTime movie row = Num s ->
  let r := renderRow getTime movies mode anchor bufferMinutes hideSame movie row in
  (isAvailableAfterSelected r = true <-> (T + bufferTimeMs bufferMinutes <= s)%Z) /\
  (isAnchorShowtime r = false ->
   isBlockedBySelection r = negb (isAvailableAfterSelected r)).
Proof.
  intros Hend HT Hstart r. subst r. unfold renderRow. rewrite Hend, Hstart. simpl.
  destruct (Z.eqb_spec T 0) as [|_]; [contradiction|]. simpl. split.
  - apply Z.leb_le.
  - intros ->. reflexivity.
Qed.

(** An anchor that ends at the epoch is treated as no anchor at all. *)
Lemma renderRow_epoch_anchor
    movies mode anchor bufferMinutes hideSame movie row :
  selectedAnchorEnd getTime movies anchor = Some (Num 0) ->
  let r := renderRow getTime movies mode anchor bufferMinutes hideSame movie row in
  isAvailableAfterSelected r = false /\ isBlockedBySelection r = false.
Proof.
  intros Hend r. subst r. unfold renderRow. rewrite Hend. simpl. split; reflexivity.
Qed.

End Availability.

Import MovieTimeline.

(** C2, on an anchor that ends at the epoch. The anchor end is the number
    0, which the guard [if (selectedAnchorEnd)] takes for an absent anchor:
    with a zero buffer, a showing of another film that starts 30 minutes
    after the anchor's end (1800000 >= 0 + 0) is flagged neither available
    nor blocked. *)
Theorem epoch_anchor_leaves_rows_unclassified :
  let r :=
    renderRow IsoDate.getTime Scenario.epochMovies highlight (Some Scenario.epochAnchor)
      0 false Scenario.afterEpochMovie "e2" in
  selectedAnchorEnd IsoDate.getTime Scenario.epochMovies (Some Scenario.epochAnchor)
  = Some (Num 0) /\
  bufferTimeMs 0 = 0%Z /\
  currentShowtimeStart IsoDate.getTime Scenario.afterEpochMovie "e2" = Num 1800000 /\
  isAnchorShowtime r = false /\
  isAvailableAfterSelected r = false /\
  isBlockedBySelection r = false.
Proof. vm_compute. repeat split. Qed.

(** The evening of the worked scenario: the anchor ends at 20:00, the
    buffer is 15 minutes, the showing at 20:20 is available. *)
Lemma evening_rows_classified :
  let r :=
    renderRow IsoDate.getTime Scenario.eveningMovies highlight (Some Scenario.eveningAnchor)
      15 false Scenario.aftersun "s4" in
  selectedAnchorEnd IsoDate.getTime Scenario.eveningMovies (Some Scenario.eveningAnchor)
  = Some (Num 1709323200000) /\
  currentShowtimeStart IsoDate.getTime Scenario.aftersun "s4" = Num 1709324400000 /\
  isAvailableAfterSelected r = true /\ isBlockedBySelection r = false.
Proof. vm_compute. repeat split. Qed.

(** C5, on a buffer of 500 minutes. The stored preference and the input
    handler both pass 500 through, and [bufferTimeMs] makes 30000000 ms of
    it, above 180 minutes: only the lower bound is enforced. *)
Theorem bufferTimeMs_exceeds_three_hours :
  initialBufferMinutes (Some (Num 500)) = 500%Z /\
  changedBufferMinutes (Num 500) = 500%Z /\
  bufferTimeMs 500 = 30000000%Z /\
  (180 * 60 * 1000 < bufferTimeMs 500)%Z.
Proof. vm_compute. repeat split. Qed.

(** ** Theater columns *)

Section Columns.

Lemma sameArray_eq a b : sameArray a b = true -> a = b.
Proof.
  revert b. induction a as [|x a IH]; intros [|y b]; simpl; try discriminate; [reflexivity|].
  rewrite andb_true_iff. intros [E H]. apply String.eqb_eq in E. f_equal; auto.
Qed.

Lemma known_theater theaters i :
  existsb (fun t => String.eqb (id t) i) theaters = arrayIncludes (theaterIds theaters) i.
Proof.
  unfold arrayIncludes, theaterIds. induction theaters as [|t ts IH]; simpl; [reflexivity|].
  now rewrite IH, String.eqb_sym.
Qed.

Lemma filter_map_commute {A B} (h : A -> B) (p : B -> bool) (xs : list A) :
  map h (List.filter (fun x => p (h x)) xs) = List.filter p (map h xs).
Proof.
  induction xs as [|x xs IH]; simpl; [reflexivity|].
  destruct (p (h x)); simpl; now rewrite IH.
Qed.

Lemma find_known theaters i :
  In i (theaterIds theaters) ->
  exists t, find (fun t => String.eqb (id t) i) theaters = Some t /\ id t = i.
Proof.
  unfold theaterIds. induction theaters as [|t ts IH]; simpl; [tauto|].
  destruct (String.eqb_spec (id t) i) as [E|Hne].
  - intros _. now exists t.
  - intros [E|Hin]; [contradiction|]. now apply IH.
Qed.

Lemma columns_of_known_ids theaters ids :
  (forall i, In i ids -> In i (theaterIds theaters)) ->
  theaterIds
    (flat_map
       (fun i =>
          match find (fun t => String.eqb (id t) i) theaters with
          | Some t => [t]
          | None => []
          end) ids) = ids.
Proof.
  unfold theaterIds at 2. induction ids as [|i ids IH]; intros Hknown; simpl; [reflexivity|].
  destruct (find_known theaters i) as (t & -> & Hid); [apply Hknown; now left|].
  simpl. rewrite Hid, IH; [reflexivity|]. intros j Hj. apply Hknown. now right.
Qed.

Lemma orderedTheaters_ids theaterOrder theaters :
  theaterIds (orderedTheaters theaterOrder theaters) =
  mergedOrder theaterOrder (theaterIds theaters).
Proof.
  unfold orderedTheaters, mergedOrder.
  set (storedIds := List.filter _ theaterOrder).
  assert (Hstored : storedIds = List.filter (arrayIncludes (theaterIds theaters)) theaterOrder).
  { unfold storedIds. apply filter_ext. intros i. apply known_theater. }
  assert (Hrem :
    map id (List.filter (fun t => negb (arrayIncludes storedIds (id t))) theaters) =
    List.filter (fun i => negb (arrayIncludes theaterOrder i)) (theaterIds theaters)).
  { rewrite (filter_map_commute id (fun i => negb (arrayIncludes storedIds i))).
    apply filter_ext_in. intros i Hi. f_equal. apply eq_true_iff_eq.
    rewrite !arrayIncludes_In, Hstored, filter_In, arrayIncludes_In. tauto. }
  rewrite columns_of_known_ids.
  - now rewrite Hrem, Hstored.
  - intros i Hi. apply in_app_or in Hi as [Hi|Hi].
    + rewrite Hstored in Hi. apply filter_In in Hi as [_ Hi]. now apply arrayIncludes_In.
    + rewrite Hrem in Hi. now apply filter_In in Hi.
Qed.

Lemma filter_nothing {A} (p : A -> bool) (xs : list A) :
  (forall x, In x xs -> p x = false) -> List.filter p xs = [].
Proof.
  induction xs as [|x xs IH]; intros Hall; simpl; [reflexivity|].
  rewrite Hall by now left. apply IH. intros y Hy. apply Hall. now right.
Qed.

Lemma mergedOrder_settled persisted visible :
  mergedOrder (mergedOrder persisted visible) visible = mergedOrder persisted visible.
Proof.
  unfold mergedOrder at 1.
  assert (H1 : List.filter (arrayIncludes visible) (mergedOrder persisted visible)
               = mergedOrder persisted visible).
  { apply forallb_filter_id. apply forallb_forall. intros i Hi. unfold mergedOrder in Hi.
    apply arrayIncludes_In. apply in_app_or in Hi as [Hi|Hi]; apply filter_In in Hi.
    - now apply arrayIncludes_In.
    - tauto. }
  assert (H2 : List.filter (fun i => negb (arrayIncludes (mergedOrder persisted visible) i))
                 visible = []).
  { apply filter_nothing. intros i Hi.
    apply negb_false_iff, arrayIncludes_In. unfold mergedOrder.
    apply in_or_app. destruct (arrayIncludes persisted i) eqn:Hp.
    - left. apply filter_In. split; [now apply arrayIncludes_In|now apply arrayIncludes_In].
    - right. apply filter_In. split; [assumption|now rewrite Hp]. }
  rewrite H1, H2. apply app_nil_r.
Qed.

Lemma mergedOrder_nil visible : mergedOrder [] visible = visible.
Proof.
  unfold mergedOrder. simpl.
  induction visible as [|v vs IH]; simpl; [reflexivity|]. now rewrite IH.
Qed.

Lemma mergeTheaterOrder_ids prev theaters :
  theaters <> [] ->
  mergeTheaterOrder prev theaters = mergedOrder prev (theaterIds theaters).
Proof.
  intros Hne. unfold mergeTheaterOrder.
  destruct theaters as [|t ts]; [congruence|].
  set (theaters := t :: ts). destruct prev as [|p ps].
  - symmetry. apply mergedOrder_nil.
  - set (prev := p :: ps).
    assert (Hnext :
      (List.filter (arrayIncludes (theaterIds theaters)) prev ++
       List.filter
         (fun i => negb (arrayIncludes
                           (List.filter (arrayIncludes (theaterIds theaters)) prev) i))
         (theaterIds theaters))%list = mergedOrder prev (theaterIds theaters)).
    { unfold mergedOrder. f_equal. apply filter_ext_in. intros i Hi. f_equal.
      apply eq_true_iff_eq. rewrite !arrayIncludes_In, filter_In, arrayIncludes_In. tauto. }
    rewrite Hnext.
    destruct (sameArray _ prev) eqn:E; [|reflexivity].
    symmetry. now apply sameArray_eq.
Qed.

End Columns.

(** C7. The ids of the theater columns are the persisted ids that are
    visible, in persisted order, followed by the visible ids the persisted
    order does not mention, in the order of [theaters]; merging the
    persisted order first changes nothing; persisted [B; A] over the
    columns A, B, C gives [B; A; C]. *)
Theorem orderedTheaters_merges_persisted_order
    (theaterOrder : list string) (theaters : list Theater) :
  theaterIds (orderedTheaters theaterOrder theaters)
  = mergedOrder theaterOrder (theaterIds theaters) /\
  theaterIds (orderedTheaters (mergeTheaterOrder theaterOrder theaters) theaters)
  = mergedOrder theaterOrder (theaterIds theaters) /\
  theaterIds (orderedTheaters ["B"; "A"] Scenario.columns) = ["B"; "A"; "C"].
Proof.
  split; [apply orderedTheaters_ids|]. split; [|reflexivity].
  rewrite orderedTheaters_ids.
  destruct theaters as [|t ts] eqn:E.
  - unfold mergedOrder. simpl. rewrite !app_nil_r.
    induction theaterOrder as [|x xs IH]; simpl; [reflexivity|assumption].
  - rewrite <- E. rewrite mergeTheaterOrder_ids by (rewrite E; discriminate).
    apply mergedOrder_settled.
Qed.

(** * Part III: the rest of the service and of the components *)

(** ** Overlapping calls of the venue directory *)

Section Overlap.

Import Interleaving.

(** A call that no other call overlaps settles as the [async] function of
    the service does. *)
Lemma loadTheaters_atomically up st :
  MovieService.loadTheaters up st =
  (Resolved (fst (atomically (theatersQuery up) loadTheaters st)),
   snd (atomically (theatersQuery up) loadTheaters st)).
Proof.
  unfold MovieService.loadTheaters. simpl.
  destruct (theatersCache st); [reflexivity|].
  unfold tryCatch, await, request. simpl. now destruct (theatersQuery up).
Qed.

Lemma getAllTheaterIds_atomically up st :
  MovieService.getAllTheaterIds up st =
  (Resolved (fst (atomically (theatersQuery up) getAllTheaterIds st)),
   snd (atomically (theatersQuery up) getAllTheaterIds st)).
Proof.
  unfold MovieService.getAllTheaterIds. simpl.
  destruct (allTheaterIdsCache st); [reflexivity|].
  unfold await. rewrite loadTheaters_atomically. simpl.
  destruct (theatersCache st); [reflexivity|]. simpl.
  now destruct (theatersQuery up).
Qed.

Lemma getTheaterIdsByCity_atomically up cityName st :
  MovieService.getTheaterIdsByCity up cityName st =
  (Resolved (fst (atomically (theatersQuery up) (getTheaterIdsByCity cityName) st)),
   snd (atomically (theatersQuery up) (getTheaterIdsByCity cityName) st)).
Proof.
  unfold MovieService.getTheaterIdsByCity. simpl.
  destruct (cityTheaterIdsCache st !! cityName); [reflexivity|].
  unfold await. rewrite loadTheaters_atomically. simpl.
  destruct (theatersCache st); [reflexivity|]. simpl.
  now destruct (theatersQuery up).
Qed.

Lemma final_turn {A} (W : (Caches -> Caches) -> Prop) (P : Caches -> Prop) (t : Task A) :
  final W t ->
  (forall f st, W f -> P st -> P (f st)) ->
  forall st, P st -> exists v st', turn t st = (Settled v, st') /\ P st'.
Proof.
  intros Hfinal Hkeeps. induction Hfinal as [a|k _ IH|f k Hf _ IH]; intros st HP; simpl.
  - eauto.
  - now apply IH.
  - apply IH. now apply Hkeeps.
Qed.

Lemma lastLeg_turn {A} (c : Call) (P : Caches -> Prop) (t : Task A) :
  lastLeg c t ->
  (forall f st, storesDirectory f -> P st -> P (f st)) ->
  forall st, P st ->
  match turn t st with
  | (Settled _, st') => P st'
  | (OnRequest _, _) => False
  | (OnPromise k, st') => P st' /\ c <> LoadTheaters /\ final (own c) k
  end.
Proof.
  intros Hleg Hkeeps. induction Hleg as [a|k _ IH|f k Hf _ IH|k Hc Hk]; intros st HP; simpl.
  - assumption.
  - now apply IH.
  - apply IH. now apply Hkeeps.
  - auto.
Qed.

(** The first turn of a call leaves the caches alone; it sends a request
    only when the directory is not cached. *)
Lemma invoke_turn c st :
  match turn (program c) st with
  | (Settled _, st') => st' = st
  | (OnRequest k, st') =>
      st' = st /\ theatersCache st = None /\ forall response, lastLeg c (k response)
  | (OnPromise k, st') => st' = st /\ c <> LoadTheaters /\ final (own c) k
  end.
Proof.
  destruct c as [| |cityName]; simpl.
  - destruct (theatersCache st) eqn:E; simpl; [reflexivity|].
    repeat split; try assumption.
    intros [data|]; simpl; repeat constructor. now exists data.
  - destruct (allTheaterIdsCache st); simpl; [reflexivity|].
    destruct (theatersCache st) eqn:E; simpl.
    + repeat split; [discriminate|]. repeat constructor. eexists. reflexivity.
    + repeat split; try assumption.
      intros [data|]; simpl; repeat constructor;
        try discriminate; try (eexists; reflexivity).
  - destruct (cityTheaterIdsCache st !! cityName); simpl; [reflexivity|].
    destruct (theatersCache st) eqn:E; simpl.
    + repeat split; [discriminate|]. repeat constructor. eexists. reflexivity.
    + repeat split; try assumption.
      intros [data|]; simpl; repeat constructor;
        try discriminate; try (eexists; reflexivity).
Qed.

Lemma Forall_removeAt {A} (Q : A -> Prop) (xs : list A) n :
  Forall Q xs -> Forall Q (removeAt n xs).
Proof.
  intros H. revert n. induction H as [|x xs Hx Hxs IH]; intros [|n]; simpl;
    try constructor; auto.
Qed.

Lemma Forall_nth_error {A} (Q : A -> Prop) (xs : list A) n x :
  Forall Q xs -> nth_error xs n = Some x -> Q x.
Proof.
  intros H Hn. apply nth_error_In in Hn. exact (proj1 (List.Forall_forall Q xs) H x Hn).
Qed.

Lemma Forall_snoc {A} (Q : A -> Prop) (xs : list A) x :
  Forall Q xs -> Q x -> Forall Q (xs ++ [x]).
Proof. intros. apply Forall_app. split; [assumption|]. now constructor. Qed.

(** *** Invariants of every interleaving

    [P] holds of the caches, [Q] of every call in flight and [E] of every
    event, when every turn keeps them. *)

Section Invariance.

Variable P : Caches -> Prop.
Variable Q : InFlight -> Prop.
Variable E : Event -> Prop.

Hypothesis first_turn :
  forall c st,
    P st ->
    match turn (program c) st with
    | (Settled v, st') => P st' /\ E (Returned c v)
    | (OnRequest k, st') => P st' /\ E (Requested c) /\ Q {| call := c; rest := WaitRequest k |}
    | (OnPromise k, st') => P st' /\ Q {| call := c; rest := WaitPromise k |}
    end.

Hypothesis turn_after_response :
  forall c k response st,
    Q {| call := c; rest := WaitRequest k |} ->
    P st ->
    match turn (k response) st with
    | (Settled v, st') => P st' /\ E (Returned c v)
    | (OnRequest k', st') =>
        P st' /\ E (Requested c) /\ Q {| call := c; rest := WaitRequest k' |}
    | (OnPromise k', st') => P st' /\ Q {| call := c; rest := WaitPromise k' |}
    end.

Hypothesis turn_after_promise :
  forall c k st,
    Q {| call := c; rest := WaitPromise k |} ->
    P st ->
    match turn k st with
    | (Settled v, st') => P st' /\ E (Returned c v)
    | (OnRequest k', st') =>
        P st' /\ E (Requested c) /\ Q {| call := c; rest := WaitRequest k' |}
    | (OnPromise k', st') => P st' /\ Q {| call := c; rest := WaitPromise k' |}
    end.

Lemma proceed_keeps c t st others :
  Forall Q others ->
  match turn t st with
  | (Settled v, st') => P st' /\ E (Returned c v)
  | (OnRequest k, st') => P st' /\ E (Requested c) /\ Q {| call := c; rest := WaitRequest k |}
  | (OnPromise k, st') => P st' /\ Q {| call := c; rest := WaitPromise k |}
  end ->
  P (caches (fst (proceed c t st others))) /\
  Forall Q (inFlight (fst (proceed c t st others))) /\
  Forall E (snd (proceed c t st others)).
Proof.
  intros Hothers. unfold proceed. destruct (turn t st) as [[v|k|k] st']; simpl.
  - intros [HP HE]. repeat split; auto.
  - intros (HP & HE & HQ). repeat split; auto. now apply Forall_snoc.
  - intros [HP HQ]. repeat split; auto. now apply Forall_snoc.
Qed.

Lemma act_keeps a cfg :
  P (caches cfg) -> Forall Q (inFlight cfg) ->
  P (caches (fst (act a cfg))) /\
  Forall Q (inFlight (fst (act a cfg))) /\
  Forall E (snd (act a cfg)).
Proof.
  intros HP HQ. destruct a as [c|n response|n]; simpl.
  - apply proceed_keeps; [assumption|]. now apply first_turn.
  - destruct (nth_error (inFlight cfg) n) as [[c [k|k]]|] eqn:Hn; simpl; auto.
    apply proceed_keeps; [now apply Forall_removeAt|].
    apply turn_after_response; [|assumption].
    exact (Forall_nth_error _ _ _ _ HQ Hn).
  - destruct (nth_error (inFlight cfg) n) as [[c [k|k]]|] eqn:Hn; simpl; auto.
    apply proceed_keeps; [now apply Forall_removeAt|].
    apply turn_after_promise; [|assumption].
    exact (Forall_nth_error _ _ _ _ HQ Hn).
Qed.

Lemma run_keeps schedule cfg :
  P (caches cfg) -> Forall Q (inFlight cfg) ->
  P (caches (fst (run schedule cfg))) /\
  Forall Q (inFlight (fst (run schedule cfg))) /\
  Forall E (snd (run schedule cfg)).
Proof.
  revert cfg. induction schedule as [|a later IH]; intros cfg HP HQ; simpl.
  - repeat split; auto.
  - destruct (act_keeps a cfg HP HQ) as (HP1 & HQ1 & HE1).
    destruct (act a cfg) as [cfg1 first]. simpl in *.
    destruct (IH cfg1 HP1 HQ1) as (HP2 & HQ2 & HE2).
    destruct (run later cfg1) as [cfg2 events]. simpl in *.
    repeat split; auto. apply Forall_app. now split.
Qed.

End Invariance.

(** Every call in flight is on its way as its function is written. *)
Lemma run_wellFormed schedule :
  Forall wellFormed (inFlight (fst (run schedule initial))).
Proof.
  apply (run_keeps (fun _ => True) wellFormed (fun _ => True)); simpl; auto.
  - intros c st _. pose proof (invoke_turn c st) as H.
    destruct (turn (program c) st) as [[v|k|k] st']; unfold wellFormed; simpl; intuition.
  - intros c k response st Hk _. unfold wellFormed in Hk. simpl in Hk.
    pose proof (lastLeg_turn c (fun _ => True) (k response) (Hk response)
                  (fun _ _ _ _ => I) st I) as H.
    destruct (turn (k response) st) as [[v|k'|k'] st']; unfold wellFormed; simpl; intuition.
  - intros c k st [_ Hk] _. simpl in Hk.
    destruct (final_turn (own c) (fun _ => True) k Hk (fun _ _ _ _ => I) st I)
      as (v & st' & -> & _). auto.
Qed.

Lemma existsb_false_Forall {A} (p : A -> bool) (xs : list A) :
  existsb p xs = false <-> Forall (fun x => p x = false) xs.
Proof.
  induction xs as [|x xs IH]; simpl.
  - split; [constructor|reflexivity].
  - rewrite orb_false_iff, IH. split.
    + intros [H1 H2]. now constructor.
    + intros H. inversion H; subst. now split.
Qed.

Lemma Forall_both {A} (Q R : A -> Prop) (xs : list A) :
  Forall Q xs -> Forall R xs -> Forall (fun x => Q x /\ R x) xs.
Proof.
  induction 1 as [|x xs HQ _ IH]; intros HR; inversion HR; subst; constructor; auto.
Qed.

Lemma own_keeps_directory c f st :
  own c f -> theatersCache (f st) = theatersCache st.
Proof. destruct c; simpl; [tauto| |]; intros [ids ->]; reflexivity. Qed.

Lemma own_keeps_all_ids c f st :
  c <> GetAllTheaterIds -> own c f -> allTheaterIdsCache (f st) = allTheaterIdsCache st.
Proof.
  destruct c; simpl; [tauto|congruence|]. intros _ [ids ->]. reflexivity.
Qed.

Lemma own_keeps_city c cityName f st :
  c <> GetTheaterIdsByCity cityName -> own c f ->
  cityTheaterIdsCache (f st) !! cityName = cityTheaterIdsCache st !! cityName.
Proof.
  destruct c as [| |other]; simpl; [tauto| |].
  - intros _ [ids ->]. reflexivity.
  - intros Hne [ids ->]. unfold assign. simpl. apply lookup_insert_ne. congruence.
Qed.

Lemma Call_eq_dec (a b : Call) : {a = b} + {a <> b}.
Proof. decide equality. apply String.string_dec. Qed.

Lemma isCityCall_false cityName e :
  isCityCall cityName e = false <-> call e <> GetTheaterIdsByCity cityName.
Proof.
  unfold isCityCall. destruct (call e) as [| |other]; try (split; congruence).
  destruct (String.eqb_spec other cityName); split; congruence.
Qed.

Lemma isAllIdsCall_false e : isAllIdsCall e = false <-> call e <> GetAllTheaterIds.
Proof. unfold isAllIdsCall. destruct (call e); split; congruence. Qed.

(** A cached answer that no call in flight will overwrite stays: [P] says
    that the answer of [target] is cached. *)
Lemma cached_answer_stays (target : Call) (answer : Value) (P : Caches -> Prop) :
  (forall f st, storesDirectory f -> P st -> P (f st)) ->
  (forall c f st, c <> target -> own c f -> P st -> P (f st)) ->
  (forall st, P st -> turn (program target) st = (Settled answer, st)) ->
  forall before after,
    P (caches (fst (run before initial))) ->
    Forall (fun e => call e <> target) (inFlight (fst (run before initial))) ->
    P (caches (fst (run after (fst (run before initial))))) /\
    Forall (fun e => call e <> target)
      (inFlight (fst (run after (fst (run before initial))))) /\
    Forall (fun ev => ev <> Requested target /\
                      forall v, ev = Returned target v -> v = answer)
      (snd (run after (fst (run before initial)))).
Proof.
  intros Hdirectory Hown Hcached before after HP Hnone.
  pose proof (run_wellFormed before) as Hwf.
  destruct (run_keeps P
              (fun e => wellFormed e /\ call e <> target)
              (fun ev => ev <> Requested target /\
                         forall v, ev = Returned target v -> v = answer))
    with (schedule := after) (cfg := fst (run before initial)) as (HP' & HQ & HE);
    [| | |assumption|now apply Forall_both|].
  - intros c st Hst. destruct (Call_eq_dec c target) as [->|Hne].
    + rewrite (Hcached st Hst). split; [assumption|]. split; [discriminate|].
      now intros v [= <-].
    + pose proof (invoke_turn c st) as H.
      destruct (turn (program c) st) as [[v|k|k] st'].
      * subst st'. split; [assumption|]. split; [discriminate|].
        intros v' [= Hc _]. contradiction.
      * destruct H as (-> & _ & Hk). split; [assumption|]. split; [|now split].
        split; [|discriminate]. intros [= Hc]. contradiction.
      * destruct H as (-> & Hc & Hk). split; [assumption|]. split; [now split|assumption].
  - intros c k response st [Hk Hne] Hst. unfold wellFormed in Hk. simpl in Hk, Hne.
    pose proof (lastLeg_turn c P (k response) (Hk response) Hdirectory st Hst) as H.
    destruct (turn (k response) st) as [[v|k'|k'] st'].
    + split; [assumption|]. split; [discriminate|]. intros v' [= Hc _]. contradiction.
    + destruct H.
    + destruct H as (Hst' & Hc & Hk'). split; [assumption|]. split; [now split|assumption].
  - intros c k st [[Hc Hk] Hne] Hst. simpl in Hc, Hk, Hne.
    destruct (final_turn (own c) P k Hk) with (st := st) as (v & st' & -> & Hst');
      [|assumption|].
    { intros f st0 Hf. now apply (Hown c). }
    split; [assumption|]. split; [discriminate|]. intros v' [= Hc' _]. contradiction.
  - split; [assumption|]. split; [|assumption].
    eapply List.Forall_impl; [|exact HQ]. now intros e [_ He].
Qed.

(** X1. Once the directory is cached and no request is in flight, it is
    never requested again: however calls are invoked and interleaved from
    then on, no call sends a request, the cached directory stays, and
    every [loadTheaters] returns it. *)
Theorem directory_cache_settles
    (before after : list Action) (directory : list CinevilleTheater.t) :
  let cfg := fst (run before initial) in
  theatersCache (caches cfg) = Some directory ->
  existsb awaitsRequest (inFlight cfg) = false ->
  let result := run after cfg in
  theatersCache (caches (fst result)) = Some directory /\
  existsb awaitsRequest (inFlight (fst result)) = false /\
  (forall c, ~ In (Requested c) (snd result)) /\
  (forall v,
      In (Returned LoadTheaters v) (snd result) ->
      v = Directory directory).
Proof.
  intros cfg Hcached Hquiet result.
  pose proof (run_wellFormed before) as Hwf. fold cfg in Hwf.
  apply existsb_false_Forall in Hquiet.
  destruct (run_keeps
              (fun st => theatersCache st = Some directory)
              (fun e => wellFormed e /\ awaitsRequest e = false)
              (fun ev =>
                 (forall c, ev <> Requested c) /\
                 (forall v, ev = Returned LoadTheaters v -> v = Directory directory)))
    with (schedule := after) (cfg := cfg) as (HP & HQ & HE);
    [| | |assumption|now apply Forall_both|].
  - intros c st HP. pose proof (invoke_turn c st) as H.
    destruct c as [| |cityName].
    + simpl. rewrite HP. simpl. split; [assumption|]. split; [discriminate|].
      now intros v [= <-].
    + destruct (turn _ st) as [[v|k|k] st'].
      * subst st'. split; [assumption|]. split; discriminate.
      * destruct H as (_ & Hnone & _). congruence.
      * destruct H as (-> & Hc & Hk). split; [assumption|]. split; [now split|reflexivity].
    + destruct (turn _ st) as [[v|k|k] st'].
      * subst st'. split; [assumption|]. split; discriminate.
      * destruct H as (_ & Hnone & _). congruence.
      * destruct H as (-> & Hc & Hk). split; [assumption|]. split; [now split|reflexivity].
  - intros c k response st [_ Hreq]. discriminate.
  - intros c k st [[Hc Hk] _] HP. simpl in Hc, Hk.
    destruct (final_turn (own c) (fun st => theatersCache st = Some directory)
                k Hk) with (st := st) as (v & st' & -> & HP'); [|assumption|].
    { intros f st0 Hf <-. now apply (own_keeps_directory c). }
    split; [assumption|]. split; [discriminate|]. intros v' [= -> _]. contradiction.
  - fold result in HP, HQ, HE. repeat split.
    + assumption.
    + apply existsb_false_Forall. eapply List.Forall_impl; [|exact HQ]. now intros e [_ He].
    + intros c Hin. apply (proj1 (List.Forall_forall _ _) HE) in Hin as [Hin _].
      now apply (Hin c).
    + intros v Hin. apply (proj1 (List.Forall_forall _ _) HE) in Hin as [_ Hin].
      now apply Hin.
Qed.

(** X2. Once ids are cached for a city and no [getTheaterIdsByCity] for
    that city is in flight, they stay: however calls are invoked and
    interleaved from then on and whatever the catalog answers, the entry
    keeps its value, and every call for the city returns it without a
    request. *)
Theorem city_ids_settle
    (before after : list Action) (cityName : string) (ids : list string) :
  let cfg := fst (run before initial) in
  cityTheaterIdsCache (caches cfg) !! cityName = Some ids ->
  existsb (isCityCall cityName) (inFlight cfg) = false ->
  let result := run after cfg in
  cityTheaterIdsCache (caches (fst result)) !! cityName = Some ids /\
  existsb (isCityCall cityName) (inFlight (fst result)) = false /\
  ~ In (Requested (GetTheaterIdsByCity cityName)) (snd result) /\
  (forall v,
      In (Returned (GetTheaterIdsByCity cityName) v) (snd result) -> v = Ids ids).
Proof.
  intros cfg Hcached Hnone result.
  destruct (cached_answer_stays (GetTheaterIdsByCity cityName) (Ids ids)
              (fun st => cityTheaterIdsCache st !! cityName = Some ids))
    with (before := before) (after := after) as (HP & HQ & HE).
  - intros f st [data ->] Hst. exact Hst.
  - intros c f st Hne Hf Hst. now rewrite (own_keeps_city c cityName f st Hne Hf).
  - intros st Hst. simpl. now rewrite Hst.
  - assumption.
  - apply existsb_false_Forall in Hnone.
    eapply List.Forall_impl; [|exact Hnone]. intros e. apply isCityCall_false.
  - fold cfg in HP, HQ, HE. fold result in HP, HQ, HE.
    split; [assumption|]. split; [|split].
    + apply existsb_false_Forall. eapply List.Forall_impl; [|exact HQ].
      intros e. apply isCityCall_false.
    + intros Hin. apply (proj1 (List.Forall_forall _ _) HE) in Hin as [Hin _].
      now apply Hin.
    + intros v Hin. apply (proj1 (List.Forall_forall _ _) HE) in Hin as [_ Hin].
      now apply Hin.
Qed.

(** X3. Once all theater ids are cached and no [getAllTheaterIds] is in
    flight, they stay: however calls are invoked and interleaved from then
    on and whatever the catalog answers, the cache keeps its value, and
    every [getAllTheaterIds] returns it without a request. *)
Theorem all_ids_settle (before after : list Action) (ids : list string) :
  let cfg := fst (run before initial) in
  allTheaterIdsCache (caches cfg) = Some ids ->
  existsb isAllIdsCall (inFlight cfg) = false ->
  let result := run after cfg in
  allTheaterIdsCache (caches (fst result)) = Some ids /\
  existsb isAllIdsCall (inFlight (fst result)) = false /\
  ~ In (Requested GetAllTheaterIds) (snd result) /\
  (forall v, In (Returned GetAllTheaterIds v) (snd result) -> v = Ids ids).
Proof.
  intros cfg Hcached Hnone result.
  destruct (cached_answer_stays GetAllTheaterIds (Ids ids)
              (fun st => allTheaterIdsCache st = Some ids))
    with (before := before) (after := after) as (HP & HQ & HE).
  - intros f st [data ->] Hst. exact Hst.
  - intros c f st Hne Hf Hst. now rewrite (own_keeps_all_ids c f st Hne Hf).
  - intros st Hst. simpl. now rewrite Hst.
  - assumption.
  - apply existsb_false_Forall in Hnone.
    eapply List.Forall_impl; [|exact Hnone]. intros e. apply isAllIdsCall_false.
  - fold cfg in HP, HQ, HE. fold result in HP, HQ, HE.
    split; [assumption|]. split; [|split].
    + apply existsb_false_Forall. eapply List.Forall_impl; [|exact HQ].
      intros e. apply isAllIdsCall_false.
    + intros Hin. apply (proj1 (List.Forall_forall _ _) HE) in Hin as [Hin _].
      now apply Hin.
    + intros v Hin. apply (proj1 (List.Forall_forall _ _) HE) in Hin as [_ Hin].
      now apply Hin.
Qed.

Lemma invoke_uncached c others :
  exists k,
    act (Invoke c) {| caches := emptyCaches; inFlight := others |} =
    ({| caches := emptyCaches;
        inFlight := (others ++ [{| call := c; rest := WaitRequest k |}])%list |},
     [Requested c]).
Proof. destruct c; eexists; reflexivity. Qed.

(** X7. Calls that overlap are not served by one fetch.  Invoked before
    any answer has come, every call sends a request of its own and stays
    in flight; two overlapping [loadTheaters] return each the directory
    delivered to it, and the one answered last is the one that stays
    cached. *)
Theorem overlapping_calls_each_fetch :
  (forall calls : list Call,
      let result := run (map Invoke calls) initial in
      snd result = map Requested calls /\
      caches (fst result) = emptyCaches /\
      map call (inFlight (fst result)) = calls /\
      forallb awaitsRequest (inFlight (fst result)) = true) /\
  (forall first second : list CinevilleTheater.t,
      let result :=
        run [Invoke LoadTheaters; Invoke LoadTheaters;
             Respond 0 (Delivered first); Respond 0 (Delivered second)] initial in
      snd result =
        [Requested LoadTheaters; Requested LoadTheaters;
         Returned LoadTheaters (Directory first); Returned LoadTheaters (Directory second)] /\
      theatersCache (caches (fst result)) = Some second /\
      inFlight (fst result) = []).
Proof.
  split.
  - intros calls.
    assert (H : forall others,
               let result :=
                 run (map Invoke calls) {| caches := emptyCaches; inFlight := others |} in
               snd result = map Requested calls /\
               caches (fst result) = emptyCaches /\
               map call (inFlight (fst result)) = (map call others ++ calls)%list /\
               forallb awaitsRequest (inFlight (fst result)) = forallb awaitsRequest others).
    { induction calls as [|c calls IH]; intros others; simpl.
      - rewrite app_nil_r. auto.
      - destruct (invoke_uncached c others) as (k & Hact). simpl in Hact. rewrite Hact.
        specialize (IH (others ++ [{| call := c; rest := WaitRequest k |}])%list).
        simpl in IH.
        destruct (run (map Invoke calls) _) as [cfg2 events]. simpl in *.
        destruct IH as (-> & -> & -> & ->). repeat split.
        + rewrite map_app. simpl. now rewrite <- app_assoc.
        + rewrite forallb_app. simpl. now rewrite !andb_true_r. }
    apply (H []).
  - intros first second. repeat split.
Qed.

End Overlap.


(** ** Sorted, duplicate-free label lists *)

Section Labels.

Lemma insertSorted_permutes x xs : Permutation (insertSorted x xs) (x :: xs).
Proof.
  induction xs as [|y rest IH]; simpl; [reflexivity|].
  destruct (String.leb x y); [reflexivity|].
  rewrite IH. apply perm_swap.
Qed.

Lemma sortStrings_permutes xs : Permutation (sortStrings xs) xs.
Proof.
  induction xs as [|x rest IH]; simpl; [reflexivity|].
  rewrite insertSorted_permutes. now constructor.
Qed.

Lemma insertSorted_ascending x xs :
  Sorted (fun a b => String.leb a b = true) xs ->
  Sorted (fun a b => String.leb a b = true) (insertSorted x xs).
Proof.
  induction 1 as [|y rest Hsorted IH Hhd]; simpl.
  - repeat constructor.
  - destruct (String.leb x y) eqn:Hxy.
    + constructor; [now constructor|now constructor].
    + constructor; [assumption|].
      assert (Hyx : String.leb y x = true).
      { destruct (String.leb_total x y) as [H|H]; [congruence|assumption]. }
      destruct rest as [|z rest']; simpl.
      * now constructor.
      * destruct (String.leb x z); constructor; [assumption|].
        now inversion Hhd.
Qed.

Lemma sortStrings_ascending xs : Sorted (fun a b => String.leb a b = true) (sortStrings xs).
Proof.
  induction xs as [|x rest IH]; simpl; [constructor|now apply insertSorted_ascending].
Qed.

Lemma arrayFromSet_NoDup xs : List.NoDup (arrayFromSet xs).
Proof.
  induction xs as [|x rest IH]; simpl; constructor.
  - rewrite filter_In, String.eqb_refl. simpl. intros [_ H]. discriminate.
  - now apply List.NoDup_filter.
Qed.

Lemma trim_truthy label : truthy label && truthy (trim label) = truthy (trim label).
Proof.
  destruct label; [reflexivity|]. unfold truthy at 1. simpl. reflexivity.
Qed.

Lemma In_addedSpecials data x :
  In x (addedSpecials data) <->
  exists s label,
    In s data /\ CinevilleShowtime.specials s = Some label /\ x = trim label /\ x <> "".
Proof.
  unfold addedSpecials. rewrite in_flat_map. split.
  - intros (s & Hs & Hx). destruct (CinevilleShowtime.specials s) as [label|] eqn:E; [|destruct Hx].
    rewrite trim_truthy in Hx. destruct (truthy (trim label)) eqn:Ht; [|destruct Hx].
    destruct Hx as [<-|[]]. exists s, label. repeat split; try assumption.
    now apply truthy_true_iff.
  - intros (s & label & Hs & E & -> & Hne). exists s. split; [assumption|].
    rewrite E, trim_truthy. apply truthy_true_iff in Hne. rewrite Hne. now left.
Qed.

End Labels.

(** X5. When the catalog delivers, [getAvailableSpecials] resolves with
    the labels in ascending code-unit order and without duplicates, and
    they are exactly the non-empty trimmed [specials] of the delivered
    showtimes. *)
Theorem getAvailableSpecials_sorted_labels
    (getDateRange : option MovieFilters.t -> DateRange)
    (up : Upstream) (filters : option MovieFilters.t) (st st1 : Caches)
    (built : ApiFilters * DateRange) (data : list CinevilleShowtime.t) :
  buildApiFilters getDateRange up filters defaultOptions st = (Resolved built, st1) ->
  showtimesQuery up (fst built) = Delivered data ->
  exists r,
    getAvailableSpecials getDateRange up filters st = (Resolved r, st1) /\
    Sorted (fun a b => String.leb a b = true) (specials r) /\
    List.NoDup (specials r) /\
    forall x,
      In x (specials r) <->
      exists s label,
        In s data /\ CinevilleShowtime.specials s = Some label /\ x = trim label /\ x <> "".
Proof.
  intros Hbuilt Hdata. unfold getAvailableSpecials, tryCatch, await, request.
  rewrite Hbuilt, Hdata. simpl. eexists. split; [reflexivity|]. simpl. split; [|split].
  - apply sortStrings_ascending.
  - eapply Permutation_NoDup; [symmetry; apply sortStrings_permutes|apply arrayFromSet_NoDup].
  - intros x. rewrite <- In_addedSpecials, <- (In_arrayFromSet (addedSpecials data)). split.
    + apply Permutation_in, sortStrings_permutes.
    + apply Permutation_in. symmetry. apply sortStrings_permutes.
Qed.

(** X6. [getAvailableSpecials] never rejects: when the showtimes cannot
    be fetched it resolves with no labels. *)
Theorem getAvailableSpecials_never_rejects
    (getDateRange : option MovieFilters.t -> DateRange)
    (up : Upstream) (filters : option MovieFilters.t) (st : Caches) :
  exists r st',
    getAvailableSpecials getDateRange up filters st = (Resolved r, st') /\
    forall built st1,
      buildApiFilters getDateRange up filters defaultOptions st = (Resolved built, st1) ->
      showtimesQuery up (fst built) = Failed ->
      specials r = [].
Proof.
  unfold getAvailableSpecials, tryCatch, await, request.
  destruct (buildApiFilters_resolves getDateRange up filters defaultOptions st)
    as (built & st1 & Hbuilt).
  rewrite Hbuilt. destruct (showtimesQuery up (fst built)) as [data|] eqn:Hq; simpl.
  - eexists. eexists. split; [reflexivity|]. intros b s [= <- <-] Hfail. congruence.
  - eexists. eexists. split; [reflexivity|]. reflexivity.
Qed.

(** ** Search *)

Section Search.

Lemma toLowerCase_idempotent s : toLowerCase (toLowerCase s) = toLowerCase s.
Proof.
  induction s as [|c r IH]; simpl; [reflexivity|]. rewrite IH. f_equal.
  unfold lowerChar.
  destruct ((65 <=? N_of_ascii c) && (N_of_ascii c <=? 90))%N eqn:E.
  - rewrite N_ascii_embedding.
    + apply andb_true_iff in E as [E1 E2]. apply N.leb_le in E1, E2.
      destruct ((65 <=? N_of_ascii c + 32) && (N_of_ascii c + 32 <=? 90))%N eqn:E'; [|reflexivity].
      apply andb_true_iff in E' as [_ E']. apply N.leb_le in E'. lia.
    + apply andb_true_iff in E as [_ E2]. apply N.leb_le in E2. lia.
  - now rewrite E.
Qed.

Lemma matchesQuery_empty movie : matchesQuery "" movie = true.
Proof. unfold matchesQuery. simpl. now rewrite includes_empty_needle. Qed.

Lemma filter_all {A} (p : A -> bool) (xs : list A) :
  (forall x, p x = true) -> List.filter p xs = xs.
Proof.
  intros H. induction xs as [|x xs IH]; simpl; [reflexivity|]. now rewrite H, IH.
Qed.

End Search.

(** X8. [searchMovies] settles as [getPopularMovies] does, with the same
    caches.  Its results are results of [getPopularMovies] (so each has a
    poster and a showtime), the empty query keeps all of them, and the
    letter case of the query does not matter; a rejection is passed on
    with its message. *)
Theorem searchMovies_follows_getPopularMovies
    (getDateRange : option MovieFilters.t -> DateRange)
    (up : Upstream) (query : string) (filters : option MovieFilters.t) (st : Caches) :
  match getPopularMovies getDateRange up filters st with
  | (Resolved all, st') =>
      exists r,
        searchMovies getDateRange up query filters st = (Resolved r, st') /\
        (forall movie,
            In movie (MovieResponse.results r) ->
            In movie (MovieResponse.results all) /\
            Movie.poster_path movie <> "" /\ Movie.showtimes movie <> []) /\
        (query = "" -> MovieResponse.results r = MovieResponse.results all) /\
        searchMovies getDateRange up (toLowerCase query) filters st = (Resolved r, st')
  | (Rejected message, st') =>
      message = "Failed to fetch movies" /\
      searchMovies getDateRange up query filters st = (Rejected message, st')
  end.
Proof.
  destruct (getPopularMovies getDateRange up filters st) as [[all|message] st'] eqn:Hrun.
  - unfold searchMovies, await. rewrite Hrun. simpl. eexists. split; [reflexivity|]. simpl.
    split; [|split].
    + intros movie Hin. apply filter_In in Hin as [Hin _]. split; [assumption|].
      apply getPopularMovies_results in Hrun as (data & _ & Hres).
      rewrite Hres in Hin. apply movies_In in Hin as ((g & Hg & ->) & Hposter & _).
      split; [now apply truthy_true_iff|].
      apply filmShowtimes_groups in Hg as (first & others & _ & ->). simpl. discriminate.
    + intros ->. apply filter_all. apply matchesQuery_empty.
    + unfold matchesQuery. now rewrite toLowerCase_idempotent.
  - split.
    + destruct (getPopularMovies_settles getDateRange up filters st) as (st2 & Hs).
      rewrite Hs in Hrun. destruct (showtimesReceived getDateRange up filters st); congruence.
    + unfold searchMovies, await. now rewrite Hrun.
Qed.

(** ** Theaters grouped by city *)

Section CityMaps.

Implicit Types (m : CityMap) (k key : string) (v : list Theater.t) (t : CinevilleTheater.t).

Lemma cityMapHas_cityMapGet m key :
  cityMapHas m key = match cityMapGet m key with Some _ => true | None => false end.
Proof.
  induction m as [|[k v] rest IH]; simpl; [reflexivity|].
  destruct (String.eqb k key); simpl; [reflexivity|exact IH].
Qed.

Lemma cityMapGet_cityMapSet m key v k :
  cityMapGet (cityMapSet m key v) k = if String.eqb key k then Some v else cityMapGet m k.
Proof.
  induction m as [|[k0 v0] rest IH]; simpl; [reflexivity|].
  destruct (String.eqb_spec k0 key) as [->|Hne]; simpl.
  - destruct (String.eqb key k); reflexivity.
  - rewrite IH. destruct (String.eqb_spec k0 k) as [->|Hne'];
      [destruct (String.eqb_spec key k); [congruence|reflexivity]|reflexivity].
Qed.

Lemma cityMapGet_cityMapPush m key (th : Theater.t) k :
  cityMapGet (cityMapPush m key th) k =
  if String.eqb key k then option_map (fun v => v ++ [th])%list (cityMapGet m k)
  else cityMapGet m k.
Proof.
  induction m as [|[k0 v0] rest IH]; simpl.
  - destruct (String.eqb key k); reflexivity.
  - destruct (String.eqb_spec k0 key) as [->|Hne]; simpl.
    + destruct (String.eqb key k); reflexivity.
    + rewrite IH. destruct (String.eqb_spec k0 k) as [->|Hne'];
        [destruct (String.eqb_spec key k); [congruence|reflexivity]|reflexivity].
Qed.

Lemma cityKeys_cityMapPush m key (th : Theater.t) :
  map fst (cityMapPush m key th) = map fst m.
Proof.
  induction m as [|[k0 v0] rest IH]; simpl; [reflexivity|].
  destruct (String.eqb k0 key); simpl; [reflexivity|]. now rewrite IH.
Qed.

Lemma cityKeys_cityMapSet_fresh m key v :
  cityMapGet m key = None -> map fst (cityMapSet m key v) = (map fst m ++ [key])%list.
Proof.
  induction m as [|[k0 v0] rest IH]; simpl; [reflexivity|].
  destruct (String.eqb k0 key); [discriminate|]. intros H. simpl. now rewrite IH.
Qed.

Lemma cityMapGet_None_keys m key : cityMapGet m key = None -> ~ In key (map fst m).
Proof.
  induction m as [|[k0 v0] rest IH]; simpl; [tauto|].
  destruct (String.eqb_spec k0 key); [discriminate|].
  intros H [E|Hin]; [congruence|]. now apply IH.
Qed.

Lemma cityMapGet_In m key v : cityMapGet m key = Some v -> In (key, v) m.
Proof.
  induction m as [|[k0 v0] rest IH]; simpl; [discriminate|].
  destruct (String.eqb_spec k0 key) as [->|Hne].
  - intros [= ->]. now left.
  - intros H. right. now apply IH.
Qed.

Lemma In_cityMapGet m key v :
  List.NoDup (map fst m) -> In (key, v) m -> cityMapGet m key = Some v.
Proof.
  induction m as [|[k0 v0] rest IH]; simpl; [tauto|].
  intros Hnd [E|Hin].
  - injection E as -> ->. now rewrite String.eqb_refl.
  - inversion Hnd as [|? ? Hnotin Hnd']; subst.
    destruct (String.eqb_spec k0 key) as [->|Hne].
    + exfalso. apply Hnotin. change key with (fst (key, v)). now apply in_map.
    + now apply IH.
Qed.

Lemma cityMapGet_collectTheater m t k :
  cityMapGet (collectTheater m t) k =
  if inCity k t
  then Some (match cityMapGet m k with
             | Some v => v ++ [toTheater t]
             | None => [toTheater t]
             end)%list
  else cityMapGet m k.
Proof.
  unfold collectTheater, inCity.
  set (city := CinevilleAddress.city (CinevilleTheater.address t)).
  rewrite cityMapGet_cityMapPush, cityMapHas_cityMapGet.
  destruct (String.eqb_spec city k) as [<-|Hne].
  - destruct (cityMapGet m city) as [v|] eqn:Hv.
    + now rewrite Hv.
    + now rewrite cityMapGet_cityMapSet, String.eqb_refl.
  - destruct (cityMapGet m city); [reflexivity|].
    rewrite cityMapGet_cityMapSet.
    destruct (String.eqb_spec city k); [congruence|reflexivity].
Qed.

Lemma cityKeys_collectTheater m t :
  List.NoDup (map fst m) -> List.NoDup (map fst (collectTheater m t)).
Proof.
  intros Hnd. unfold collectTheater.
  rewrite cityKeys_cityMapPush, cityMapHas_cityMapGet.
  destruct (cityMapGet m _) eqn:Hg; [assumption|].
  rewrite cityKeys_cityMapSet_fresh by assumption.
  apply List.NoDup_app; [assumption|repeat constructor; simpl; tauto|].
  intros x Hx [<-|[]]. revert Hx. now apply cityMapGet_None_keys.
Qed.

Lemma cityKeys_fold theaters m :
  List.NoDup (map fst m) -> List.NoDup (map fst (fold_left collectTheater theaters m)).
Proof.
  revert m. induction theaters as [|t rest IH]; intros m Hnd; simpl; [assumption|].
  apply IH. now apply cityKeys_collectTheater.
Qed.

Lemma cityMapGet_fold theaters m k :
  cityMapGet (fold_left collectTheater theaters m) k =
  match cityMapGet m k, List.filter (inCity k) theaters with
  | Some v, more => Some (v ++ map toTheater more)%list
  | None, [] => None
  | None, more => Some (map toTheater more)
  end.
Proof.
  revert m. induction theaters as [|t rest IH]; intros m; simpl.
  - destruct (cityMapGet m k); [now rewrite app_nil_r|reflexivity].
  - rewrite IH, cityMapGet_collectTheater.
    destruct (inCity k t); [|reflexivity].
    destruct (cityMapGet m k) as [v|]; simpl; [now rewrite <- app_assoc|reflexivity].
Qed.

(** The entries of [theatersByCity]: one per city of the directory, with
    the theaters of that city in directory order. *)
Lemma theatersByCity_entries theaters k v :
  In (k, v) (theatersByCity theaters) <->
  v = map toTheater (List.filter (inCity k) theaters) /\ v <> [].
Proof.
  unfold theatersByCity. split.
  - intros Hin. apply In_cityMapGet in Hin; [|apply cityKeys_fold; constructor].
    rewrite cityMapGet_fold in Hin. simpl in Hin.
    destruct (List.filter (inCity k) theaters) as [|t more]; [discriminate|].
    injection Hin as <-. split; [reflexivity|discriminate].
  - intros [-> Hne]. apply cityMapGet_In. rewrite cityMapGet_fold. simpl.
    destruct (List.filter (inCity k) theaters); [contradiction|reflexivity].
Qed.

End CityMaps.

Section GetTheaters.

Variable arraySort : forall A : Type, (A -> A -> number) -> list A -> list A.
Variable localeCompare : string -> string -> number.
Hypothesis arraySort_permutes : forall A cmp xs, Permutation (arraySort A cmp xs) xs.

Lemma getTheaters_resolved up st directory st1 :
  loadTheaters up st = (Resolved directory, st1) ->
  exists cities,
    getTheaters arraySort localeCompare up st = (Resolved cities, st1) /\
    Permutation cities
      (map
         (fun entry =>
            {| City.name := fst entry;
               City.theaters :=
                 arraySort Theater.t
                   (fun a b => localeCompare (Theater.name a) (Theater.name b))
                   (snd entry) |})
         (theatersByCity directory)).
Proof.
  intros Hload. unfold getTheaters, tryCatch, await. rewrite Hload. simpl.
  eexists. split; [reflexivity|]. apply arraySort_permutes.
Qed.

(** X9. On an engine whose [sort] permutes its argument, [getTheaters]
    lists every city of the directory once, none of them empty, each with
    exactly the theaters of the directory whose address names it. *)
Theorem getTheaters_groups_by_city
    (up : Upstream) (st st1 : Caches) (directory : list CinevilleTheater.t) :
  loadTheaters up st = (Resolved directory, st1) ->
  exists cities,
    getTheaters arraySort localeCompare up st = (Resolved cities, st1) /\
    List.NoDup (map City.name cities) /\
    (forall c,
        In c cities ->
        City.theaters c <> [] /\
        Permutation (City.theaters c)
          (map toTheater (List.filter (inCity (City.name c)) directory))) /\
    (forall t,
        In t directory ->
        exists c,
          In c cities /\
          City.name c = CinevilleAddress.city (CinevilleTheater.address t)).
Proof.
  intros Hload.
  destruct (getTheaters_resolved up st directory st1 Hload) as (cities & Hrun & Hperm).
  exists cities. split; [assumption|]. split; [|split].
  - apply (Permutation_map City.name) in Hperm.
    eapply Permutation_NoDup; [symmetry; exact Hperm|].
    rewrite map_map. simpl. apply cityKeys_fold. constructor.
  - intros c Hc. apply (Permutation_in _ Hperm) in Hc.
    apply in_map_iff in Hc as ([k v] & <- & Hentry). simpl.
    apply theatersByCity_entries in Hentry as [-> Hne]. split.
    + intros E. apply Hne. apply Permutation_nil. rewrite <- E.
      apply arraySort_permutes.
    + apply arraySort_permutes.
  - intros t Ht.
    set (k := CinevilleAddress.city (CinevilleTheater.address t)).
    set (v := map toTheater (List.filter (inCity k) directory)).
    assert (Hentry : In (k, v) (theatersByCity directory)).
    { apply theatersByCity_entries. split; [reflexivity|].
      assert (Hin : In (toTheater t) v).
      { apply in_map, filter_In. split; [assumption|apply String.eqb_refl]. }
      intros E. rewrite E in Hin. destruct Hin. }
    eexists. split.
    + apply (Permutation_in _ (Permutation_sym Hperm)).
      apply in_map_iff. exists (k, v). split; [reflexivity|exact Hentry].
    + reflexivity.
Qed.

(** X10. [getTheaters] never rejects, although it is written to: the
    failure of the directory fetch is absorbed by [loadTheaters], and the
    answer is then the empty list with the caches untouched. *)
Theorem getTheaters_never_rejects (up : Upstream) (st : Caches) :
  exists cities st',
    getTheaters arraySort localeCompare up st = (Resolved cities, st') /\
    (theatersCache st = None -> theatersQuery up = Failed -> cities = [] /\ st' = st).
Proof.
  destruct (loadTheaters_resolves up st) as (directory & st1 & Hload).
  destruct (getTheaters_resolved up st directory st1 Hload) as (cities & Hrun & Hperm).
  exists cities, st1. split; [assumption|]. intros Hcache Hfail.
  unfold loadTheaters, tryCatch, await, request in Hload.
  rewrite Hcache, Hfail in Hload. simpl in Hload. injection Hload as <- <-.
  split; [|reflexivity]. apply Permutation_nil. symmetry. exact Hperm.
Qed.

End GetTheaters.

(** ** Facets and identity of the aggregated films *)

Section Facets.

Lemma orElse_self s : orElse (Some s) "" = s.
Proof.
  unfold orElse. destruct (truthy s) eqn:E; [reflexivity|].
  apply truthy_false_iff in E. now subst.
Qed.

Lemma In_distinctLabels labels x :
  In x (distinctLabels labels) <-> x <> "" /\ exists label, In label labels /\ x = trim label.
Proof.
  unfold distinctLabels. rewrite In_arrayFromSet, in_map_iff. split.
  - intros (label & <- & Hin). apply filter_In in Hin as [Hin Ht].
    apply truthy_true_iff in Ht. split; [assumption|]. now exists label.
  - intros (Hne & label & Hin & ->). exists label. split; [reflexivity|].
    apply filter_In. split; [assumption|]. now apply truthy_true_iff.
Qed.

Lemma NoDup_map_filter {A B} (h : A -> B) (p : A -> bool) (xs : list A) :
  List.NoDup (map h xs) -> List.NoDup (map h (List.filter p xs)).
Proof.
  induction xs as [|x xs IH]; simpl; [auto|].
  intros Hnd. inversion Hnd as [|? ? Hnotin Hnd']; subst.
  destruct (p x); simpl; [|now apply IH].
  constructor; [|now apply IH].
  intros Hin. apply Hnotin. apply in_map_iff in Hin as (y & E & Hy).
  apply filter_In in Hy as [Hy _]. apply in_map_iff. now exists y.
Qed.

Lemma entry_key_is_film_id filters data k g :
  In (k, g) (filmShowtimes filters data) -> CinevilleFilm.id (film g) = k.
Proof.
  unfold filmShowtimes. intros Hin.
  apply In_mapGet in Hin; [|apply keys_fold; constructor].
  rewrite mapGet_fold in Hin. simpl in Hin.
  destruct (ofFilm k (kept filters data)) as [|first others] eqn:Hof; [discriminate|].
  injection Hin as <-. simpl. now destruct (ofFilm_first _ _ _ _ Hof).
Qed.

Lemma movies_distinct_ids filters data : List.NoDup (map Movie.id (movies filters data)).
Proof.
  assert (Hall : List.NoDup
                   (map Movie.id
                      (map (fun group => convertCinevilleFilmToMovie (film group) (showtimes group))
                           (mapValues (filmShowtimes filters data))))).
  { unfold mapValues. rewrite !map_map.
    rewrite (map_ext_in _ fst).
    - apply keys_fold. constructor.
    - intros [k g] Hin. simpl. now apply entry_key_is_film_id in Hin. }
  unfold movies.
  destruct filters as [f|]; [|now apply NoDup_map_filter].
  destruct (hasSelectedSubtitleLanguages (Some f)), (hasSelectedSpokenLanguages (Some f));
    repeat apply NoDup_map_filter; exact Hall.
Qed.

End Facets.

(** X11. The three facet lists of a converted film
    ([availableSubtitles], [availableLanguageVersions],
    [availableSpecials]) hold no duplicate and no empty label, and they are
    exactly the non-empty trimmed labels found on the showtimes of the
    film. *)
Theorem convertCinevilleFilmToMovie_facets
    (film : CinevilleFilm.t) (showtimes : list CinevilleShowtime.t) :
  let movie := convertCinevilleFilmToMovie film showtimes in
  List.NoDup (Movie.availableSubtitles movie) /\
  List.NoDup (Movie.availableLanguageVersions movie) /\
  List.NoDup (Movie.availableSpecials movie) /\
  (forall x,
      In x (Movie.availableSubtitles movie) <->
      x <> "" /\ exists s, In s showtimes /\ x = trim (CinevilleShowtime.subtitles s)) /\
  (forall x,
      In x (Movie.availableLanguageVersions movie) <->
      x <> "" /\
      exists s v,
        In s showtimes /\ CinevilleShowtime.languageVersion s = Some v /\ x = trim v) /\
  (forall x,
      In x (Movie.availableSpecials movie) <->
      x <> "" /\ exists s, In s showtimes /\ x = trim (specialsLabel s)).
Proof.
  intros movie. subst movie. unfold convertCinevilleFilmToMovie.
  cbn [Movie.availableSubtitles Movie.availableLanguageVersions Movie.availableSpecials].
  repeat split; try apply arrayFromSet_NoDup.
  - apply In_distinctLabels in H. tauto.
  - apply In_distinctLabels in H as (_ & label & Hin & ->).
    apply in_map_iff in Hin as (s & <- & Hs). exists s. now rewrite orElse_self.
  - intros (Hne & s & Hs & ->). apply In_distinctLabels. split; [assumption|].
    exists (CinevilleShowtime.subtitles s). split; [|reflexivity].
    apply in_map_iff. exists s. split; [apply orElse_self|assumption].
  - apply In_arrayFromSet, in_map_iff in H as (s & <- & Hs).
    apply filter_In in Hs as [_ Hs]. unfold hasLanguageVersion, languageVersionLabel in *.
    destruct (CinevilleShowtime.languageVersion s) as [v|]; [|discriminate].
    rewrite trim_truthy in Hs. now apply truthy_true_iff.
  - apply In_arrayFromSet, in_map_iff in H as (s & <- & Hs).
    apply filter_In in Hs as [Hin Hs]. unfold hasLanguageVersion, languageVersionLabel in *.
    destruct (CinevilleShowtime.languageVersion s) as [v|] eqn:E; [|discriminate].
    exists s, v. repeat split; assumption.
  - intros (Hne & s & v & Hs & E & ->). apply In_arrayFromSet, in_map_iff.
    exists s. unfold languageVersionLabel, hasLanguageVersion. rewrite E. split; [reflexivity|].
    apply filter_In. split; [assumption|]. rewrite E, trim_truthy. now apply truthy_true_iff.
  - apply In_distinctLabels in H. tauto.
  - apply In_distinctLabels in H as (_ & label & Hin & ->).
    apply in_map_iff in Hin as (s & <- & Hs). exists s. split; [assumption|].
    unfold specialsLabel, orElse. destruct (CinevilleShowtime.specials s) as [l|]; [|reflexivity].
    destruct (truthy l) eqn:E; [reflexivity|]. apply truthy_false_iff in E. now subst.
  - intros (Hne & s & Hs & ->). apply In_distinctLabels. split; [assumption|].
    exists (specialsLabel s). split; [|reflexivity].
    apply in_map_iff. exists s. split; [|assumption].
    unfold specialsLabel, orElse. destruct (CinevilleShowtime.specials s) as [l|]; [|reflexivity].
    destruct (truthy l) eqn:E; [reflexivity|]. apply truthy_false_iff in E. now subst.
Qed.

(** X12. A resolved [getPopularMovies] lists every film once, and
    [total_results] counts the listed films. *)
Theorem getPopularMovies_distinct_film_ids
    (getDateRange : option MovieFilters.t -> DateRange)
    (up : Upstream) (filters : option MovieFilters.t) (st st' : Caches)
    (r : MovieResponse.t) :
  getPopularMovies getDateRange up filters st = (Resolved r, st') ->
  List.NoDup (map Movie.id (MovieResponse.results r)) /\
  MovieResponse.total_results r = Z.of_nat (length (MovieResponse.results r)).
Proof.
  intros Hrun.
  destruct (getPopularMovies_settles getDateRange up filters st) as (st2 & Hs).
  rewrite Hs in Hrun.
  destruct (showtimesReceived getDateRange up filters st) as [data|]; [|discriminate].
  injection Hrun as <- _. simpl. split; [apply movies_distinct_ids|reflexivity].
Qed.

(** X13. Each film of a resolved [getPopularMovies] carries its
    showtimes in the order in which the catalog delivered them, those
    dropped by the specials filter left out. *)
Theorem getPopularMovies_showtimes_in_delivery_order
    (getDateRange : option MovieFilters.t -> DateRange)
    (up : Upstream) (filters : option MovieFilters.t) (st : Caches)
    (data : list CinevilleShowtime.t) :
  showtimesReceived getDateRange up filters st = Delivered data ->
  exists r st',
    getPopularMovies getDateRange up filters st = (Resolved r, st') /\
    forall movie,
      In movie (MovieResponse.results r) ->
      Movie.showtimes movie
      = map toMovieShowtime (ofFilm (Movie.id movie) (kept filters data)).
Proof.
  intros Hrecv.
  destruct (getPopularMovies_delivered getDateRange up filters st data Hrecv)
    as (r & st' & Hrun & Hres).
  exists r, st'. split; [assumption|]. intros movie Hin. rewrite Hres in Hin.
  apply movies_In in Hin as ((g & Hg & ->) & _).
  apply filmShowtimes_groups in Hg as (first & others & Hof & ->). simpl.
  fold (filmId first). now rewrite Hof.
Qed.

(** ** Anchor and row visibility *)


(** X15. The flags of a timeline row are consistent: the anchor row is
    neither hidden nor blocked, an available row is never blocked, a row
    is hidden only because it is blocked in hide mode or belongs to the
    film of the anchor with same-film hiding on, and without anchor
    nothing is blocked or hidden. *)
Theorem renderRow_visibility
    (getTime : string -> number) (movies : list Movie.t) (mode : AvailabilityMode)
    (anchor : option Anchor) (bufferMinutes : Z) (hideSame : bool)
    (movie : Movie.t) (row : string) :
  let r := renderRow getTime movies mode anchor bufferMinutes hideSame movie row in
  (isAnchorShowtime r = true -> shouldHideRow r = false /\ isBlockedBySelection r = false) /\
  (isAvailableAfterSelected r = true -> isBlockedBySelection r = false) /\
  (shouldHideRow r = true ->
   (mode = hide /\ isBlockedBySelection r = true) \/
   (hideSame = true /\ exists a, anchor = Some a /\ movieId a = Movie.id movie)) /\
  (anchor = None ->
   isAvailableAfterSelected r = false /\ isBlockedBySelection r = false /\
   shouldHideRow r = false).
Proof.
  intros r. subst r. unfold renderRow.
  set (anchorEnd := selectedAnchorEnd getTime movies anchor).
  set (isAnchor := match anchor with Some a => _ | None => false end).
  cbn [isAnchorShowtime isAvailableAfterSelected isBlockedBySelection hideSameMovieRow
       shouldHideRow].
  split; [|split; [|split]].
  - intros Hanchor. rewrite Hanchor.
    destruct anchor as [a|]; [|discriminate].
    cbn [negb]. rewrite !andb_false_r.
    destruct (anchorEndTruthy anchorEnd); simpl; rewrite ?andb_false_r; split; reflexivity.
  - intros Havail. rewrite Havail.
    destruct (anchorEndTruthy anchorEnd); [|reflexivity]. simpl. now rewrite andb_false_r.
  - intros Hhide. apply orb_true_iff in Hhide as [Hblocked|Hsame].
    + left. apply andb_true_iff in Hblocked as [Hmode Hblocked].
      apply andb_true_iff in Hmode as [Hmode _].
      split; [now destruct mode|assumption].
    + right. destruct anchor as [a|]; [|discriminate].
      apply andb_true_iff in Hsame as [Hsame _].
      apply andb_true_iff in Hsame as [Hh Hid].
      split; [assumption|]. exists a. split; [reflexivity|].
      symmetry. now apply String.eqb_eq.
  - intros ->. subst anchorEnd. simpl. now destruct mode.
Qed.

(** ** Dragging a theater column *)

Section Drop.

Lemma indexOf_nth xs x i : indexOf xs x = Some i -> nth_error xs i = Some x.
Proof.
  revert i. induction xs as [|y rest IH]; intros i; simpl; [discriminate|].
  destruct (String.eqb_spec y x) as [->|Hne].
  - now intros [= <-].
  - destruct (indexOf rest x) as [j|]; [|discriminate].
    intros [= <-]. simpl. now apply IH.
Qed.

Lemma indexOf_None xs x : indexOf xs x = None <-> ~ In x xs.
Proof.
  induction xs as [|y rest IH]; simpl; [tauto|].
  destruct (String.eqb_spec y x) as [->|Hne].
  - split; [discriminate|]. intros H. exfalso. apply H. now left.
  - destruct (indexOf rest x) as [j|].
    + split; [discriminate|]. intros H. exfalso. apply H. right.
      destruct (proj1 IH) ; firstorder congruence.
    + split; [|reflexivity]. intros _ [E|Hin]; [contradiction|]. now apply (proj1 IH).
Qed.

Lemma removeAt_permutes {A} (xs : list A) i x :
  nth_error xs i = Some x -> Permutation xs (x :: removeAt i xs).
Proof.
  revert i. induction xs as [|y rest IH]; intros [|j]; simpl; try discriminate.
  - now intros [= ->].
  - intros H. rewrite (IH j H) at 1. apply perm_swap.
Qed.

Lemma removeAt_length {A} (xs : list A) i x :
  nth_error xs i = Some x -> S (length (removeAt i xs)) = length xs.
Proof.
  revert i. induction xs as [|y rest IH]; intros [|j]; simpl; try discriminate.
  - reflexivity.
  - intros H. now rewrite (IH j H).
Qed.

Lemma insertAt_permutes {A} (xs : list A) i x : Permutation (insertAt i x xs) (x :: xs).
Proof.
  revert i. induction xs as [|y rest IH]; intros [|j]; simpl; try reflexivity.
  rewrite IH. apply perm_swap.
Qed.

Lemma insertAt_nth {A} (xs : list A) i x :
  i <= length xs -> nth_error (insertAt i x xs) i = Some x.
Proof.
  revert i. induction xs as [|y rest IH]; intros [|j]; simpl; try reflexivity; try lia.
  intros H. apply IH. lia.
Qed.

End Drop.

(** X16. A drop of a known column on another known column reorders and
    nothing else: the new order is a permutation of the old one of the
    same length, and the dragged column takes the place the target had. *)
Theorem handleTheaterDrop_moves_column
    (dragging targetId : string) (prev : list string) (fromIndex toIndex : nat) :
  dragging <> "" ->
  dragging <> targetId ->
  indexOf prev dragging = Some fromIndex ->
  indexOf prev targetId = Some toIndex ->
  let next := handleTheaterDrop (Some dragging) targetId prev in
  Permutation prev next /\
  length next = length prev /\
  nth_error next toIndex = Some dragging.
Proof.
  intros Hne Hdiff Hfrom Hto next. subst next. unfold handleTheaterDrop.
  apply truthy_true_iff in Hne. rewrite Hne. simpl.
  destruct (String.eqb_spec dragging targetId); [contradiction|].
  rewrite Hfrom, Hto.
  pose proof (indexOf_nth _ _ _ Hfrom) as Hnth.
  pose proof (indexOf_nth _ _ _ Hto) as Hnth'.
  pose proof (removeAt_length _ _ _ Hnth) as Hlen.
  assert (HtoLt : toIndex < length prev) by (apply nth_error_Some; congruence).
  split; [|split].
  - rewrite insertAt_permutes. now apply removeAt_permutes.
  - rewrite (Permutation_length (insertAt_permutes _ _ _)). simpl. exact Hlen.
  - apply insertAt_nth. lia.
Qed.

(** X17. [handleTheaterDrop] leaves the order alone when no drag is
    under way, when the dragged id is empty, when a column is dropped on
    itself, and when the dragged or the target column is not in the
    order. *)
Theorem handleTheaterDrop_ignores_strangers
    (draggingTheater : option string) (targetId : string) (prev : list string) :
  (draggingTheater = None \/ draggingTheater = Some "" \/ draggingTheater = Some targetId \/
   ~ In targetId prev \/ exists d, draggingTheater = Some d /\ ~ In d prev) ->
  handleTheaterDrop draggingTheater targetId prev = prev.
Proof.
  unfold handleTheaterDrop.
  intros [->|[->|[->|[Htarget|(d & -> & Hd)]]]]; try reflexivity.
  - destruct (negb (truthy targetId)); [reflexivity|]. now rewrite String.eqb_refl.
  - destruct draggingTheater as [d|]; [|reflexivity].
    destruct (negb (truthy d) || String.eqb d targetId); [reflexivity|].
    apply indexOf_None in Htarget. rewrite Htarget. now destruct (indexOf prev d).
  - destruct (negb (truthy d) || String.eqb d targetId); [reflexivity|].
    apply indexOf_None in Hd. now rewrite Hd.
Qed.

(** ** Columns and rows of the timeline *)

Section TheaterMap.

Implicit Types (m : list (string * string)) (k key value : string).

Lemma theaterMapSet_keys m key value :
  map fst (theaterMapSet m key value) =
  if arrayIncludes (map fst m) key then map fst m else (map fst m ++ [key])%list.
Proof.
  unfold arrayIncludes. induction m as [|[k v] rest IH]; simpl; [reflexivity|].
  rewrite (String.eqb_sym key k).
  destruct (String.eqb k key); simpl; [reflexivity|].
  rewrite IH. now destruct (existsb (String.eqb key) (map fst rest)).
Qed.

Lemma theaterMapSet_NoDup m key value :
  List.NoDup (map fst m) -> List.NoDup (map fst (theaterMapSet m key value)).
Proof.
  intros Hnd. rewrite theaterMapSet_keys.
  destruct (arrayIncludes (map fst m) key) eqn:E; [assumption|].
  apply List.NoDup_app; [assumption|repeat constructor; simpl; tauto|].
  intros x Hx [<-|[]]. apply arrayIncludes_In in Hx. congruence.
Qed.

Lemma theaterMapSet_lookup m key value k :
  find (fun entry => String.eqb (fst entry) k) (theaterMapSet m key value) =
  if String.eqb key k then Some (key, value)
  else find (fun entry => String.eqb (fst entry) k) m.
Proof.
  induction m as [|[k0 v0] rest IH]; simpl.
  - destruct (String.eqb key k); reflexivity.
  - destruct (String.eqb_spec k0 key) as [->|Hne]; simpl.
    + destruct (String.eqb key k); reflexivity.
    + rewrite IH. destruct (String.eqb_spec k0 k) as [->|Hne'];
        [destruct (String.eqb_spec key k); [congruence|reflexivity]|reflexivity].
Qed.

Lemma theaterMap_fold_NoDup (showtimes : list MovieShowtime.t) m :
  List.NoDup (map fst m) ->
  List.NoDup
    (map fst
       (fold_left
          (fun m showtime =>
             theaterMapSet m (MovieShowtime.theaterId showtime)
               (MovieShowtime.theaterName showtime))
          showtimes m)).
Proof.
  revert m. induction showtimes as [|st rest IH]; intros m Hnd; simpl; [assumption|].
  apply IH. now apply theaterMapSet_NoDup.
Qed.

Lemma find_app {A} (p : A -> bool) (xs ys : list A) :
  find p (xs ++ ys) = match find p xs with Some x => Some x | None => find p ys end.
Proof.
  induction xs as [|x xs IH]; simpl; [reflexivity|]. now destruct (p x).
Qed.

(** The entry of an id holds the name of the last showtime that carries it. *)
Lemma theaterMap_fold_lookup (showtimes : list MovieShowtime.t) m k :
  find (fun entry => String.eqb (fst entry) k)
    (fold_left
       (fun m showtime =>
          theaterMapSet m (MovieShowtime.theaterId showtime)
            (MovieShowtime.theaterName showtime))
       showtimes m) =
  match find (fun st => String.eqb (MovieShowtime.theaterId st) k) (rev showtimes) with
  | Some st => Some (MovieShowtime.theaterId st, MovieShowtime.theaterName st)
  | None => find (fun entry => String.eqb (fst entry) k) m
  end.
Proof.
  revert m. induction showtimes as [|st rest IH]; intros m; simpl; [reflexivity|].
  rewrite IH, find_app, theaterMapSet_lookup. simpl.
  destruct (find _ (rev rest)); [reflexivity|].
  now destruct (String.eqb (MovieShowtime.theaterId st) k).
Qed.

Lemma find_key_In m k entry :
  find (fun e => String.eqb (fst e) k) m = Some entry -> In entry m /\ fst entry = k.
Proof.
  intros H. apply find_some in H as [Hin E]. split; [assumption|now apply String.eqb_eq].
Qed.

Lemma In_find_key m entry :
  List.NoDup (map fst m) -> In entry m ->
  find (fun e => String.eqb (fst e) (fst entry)) m = Some entry.
Proof.
  induction m as [|[k0 v0] rest IH]; simpl; [tauto|].
  intros Hnd [<-|Hin]; simpl.
  - now rewrite String.eqb_refl.
  - inversion Hnd as [|? ? Hnotin Hnd']; subst.
    destruct (String.eqb_spec k0 (fst entry)) as [->|Hne].
    + exfalso. apply Hnotin. now apply in_map.
    + now apply IH.
Qed.

End TheaterMap.

Section Derived.

Variable getTime : string -> number.
Variable arraySort : forall A : Type, (A -> A -> number) -> list A -> list A.
Variable localeCompare : string -> string -> number.
Variable toLocaleTimeString : string -> string.
Hypothesis arraySort_permutes : forall A cmp xs, Permutation (arraySort A cmp xs) xs.

(** X18. On an engine whose [sort] permutes its argument, the timeline
    has one column for each venue id that occurs on a showtime and no
    other; a venue seen under several names is shown under the name of its
    last showtime. *)
Theorem uniqueTheaters_one_column_per_venue (movies : list Movie.t) :
  let theaters := uniqueTheaters arraySort localeCompare movies in
  let shown := flat_map Movie.showtimes movies in
  List.NoDup (theaterIds theaters) /\
  (forall i,
      In i (theaterIds theaters) <->
      exists st, In st shown /\ MovieShowtime.theaterId st = i) /\
  (forall t,
      In t theaters ->
      exists st,
        find (fun st => String.eqb (MovieShowtime.theaterId st) (id t)) (rev shown) = Some st /\
        name t = MovieShowtime.theaterName st).
Proof.
  intros theaters shown.
  assert (Hperm : Permutation theaters
                    (map (fun entry => {| id := fst entry; name := snd entry |})
                         (theaterMap movies))) by apply arraySort_permutes.
  assert (Hkeys : List.NoDup (map fst (theaterMap movies))).
  { apply theaterMap_fold_NoDup. constructor. }
  assert (Hids : Permutation (theaterIds theaters) (map fst (theaterMap movies))).
  { unfold theaterIds. rewrite (Permutation_map id Hperm), map_map. reflexivity. }
  assert (Hentry : forall entry,
             In entry (theaterMap movies) ->
             exists st,
               find (fun st => String.eqb (MovieShowtime.theaterId st) (fst entry)) (rev shown)
               = Some st /\ entry = (MovieShowtime.theaterId st, MovieShowtime.theaterName st)).
  { intros entry Hin. apply In_find_key in Hin; [|assumption].
    unfold theaterMap in Hin. rewrite theaterMap_fold_lookup in Hin. fold shown in Hin.
    destruct (find _ (rev shown)) as [st|]; [|discriminate].
    exists st. split; [reflexivity|congruence]. }
  split; [|split].
  - eapply Permutation_NoDup; [symmetry; exact Hids|exact Hkeys].
  - intros i. split.
    + intros Hi. apply (Permutation_in _ Hids) in Hi.
      apply in_map_iff in Hi as (entry & <- & Hin).
      destruct (Hentry entry Hin) as (st & Hfind & _).
      apply find_some in Hfind as [Hst E]. exists st. split.
      * now apply in_rev.
      * now apply String.eqb_eq.
    + intros (st & Hst & <-). apply (Permutation_in _ (Permutation_sym Hids)).
      destruct (find (fun e => String.eqb (fst e) (MovieShowtime.theaterId st))
                  (theaterMap movies)) as [entry|] eqn:Hfind.
      * apply find_key_In in Hfind as [Hin <-]. now apply in_map.
      * exfalso. unfold theaterMap in Hfind. rewrite theaterMap_fold_lookup in Hfind.
        fold shown in Hfind.
        destruct (find _ (rev shown)) as [st'|] eqn:Hrev; [discriminate|].
        pose proof (find_none _ _ Hrev st (proj1 (in_rev _ _) Hst)) as Hf.
        simpl in Hf. rewrite String.eqb_refl in Hf. discriminate.
  - intros t Ht. apply (Permutation_in _ Hperm) in Ht.
    apply in_map_iff in Ht as (entry & <- & Hin). simpl.
    destruct (Hentry entry Hin) as (st & Hfind & ->). exists st. now split.
Qed.

(** X19. On an engine whose [sort] permutes its argument, the timeline
    has one row per showtime of the films, and every row finds a showtime
    of its own film by its id, whose start is the instant the row is
    classified by. *)
Theorem timelineData_rows_are_showtimes (movies : list Movie.t) :
  let rows := timelineData getTime arraySort toLocaleTimeString movies in
  length rows = length (flat_map Movie.showtimes movies) /\
  forall row,
    In row rows ->
    In (TimelineRow.movie row) movies /\
    exists st,
      findShowtime (TimelineRow.movie row)
        (TimelineShowtime.showtimeId (TimelineRow.showtime row)) = Some st /\
      In st (Movie.showtimes (TimelineRow.movie row)) /\
      currentShowtimeStart getTime (TimelineRow.movie row)
        (TimelineShowtime.showtimeId (TimelineRow.showtime row))
      = getTime (MovieShowtime.startDate st).
Proof.
  intros rows.
  assert (Hperm : Permutation rows (rowsOf toLocaleTimeString movies))
    by apply arraySort_permutes.
  split.
  - rewrite (Permutation_length Hperm). unfold rowsOf. clear rows Hperm.
    induction movies as [|movie rest IH]; simpl; [reflexivity|].
    rewrite length_app, length_map, IH, length_app. reflexivity.
  - intros row Hrow. apply (Permutation_in _ Hperm) in Hrow.
    unfold rowsOf in Hrow. apply in_flat_map in Hrow as (movie & Hmovie & Hrow).
    apply in_map_iff in Hrow as (showtime & <- & Hshow). simpl.
    split; [assumption|].
    destruct (findShowtime movie (MovieShowtime.id showtime)) as [st|] eqn:Hfind.
    + exists st. split; [reflexivity|]. split.
      * unfold findShowtime in Hfind. now apply find_some in Hfind.
      * unfold currentShowtimeStart. rewrite Hfind. simpl.
        f_equal. unfold orElse. destruct (truthy _) eqn:E; [reflexivity|].
        apply truthy_false_iff in E. now rewrite E.
    + exfalso. unfold findShowtime in Hfind.
      pose proof (find_none _ _ Hfind showtime Hshow) as Hf.
      simpl in Hf. rewrite String.eqb_refl in Hf. discriminate.
Qed.

End Derived.

(** ** The persisted column order *)

Section Order.

Lemma mergedOrder_In persisted visible i :
  In i (mergedOrder persisted visible) <-> In i visible.
Proof.
  unfold mergedOrder. rewrite in_app_iff, !filter_In, negb_true_iff, arrayIncludes_In.
  destruct (arrayIncludes persisted i) eqn:E.
  - apply arrayIncludes_In in E. intuition congruence.
  - assert (~ In i persisted) by (rewrite <- arrayIncludes_In; congruence). tauto.
Qed.

Lemma mergedOrder_NoDup persisted visible :
  List.NoDup persisted -> List.NoDup visible -> List.NoDup (mergedOrder persisted visible).
Proof.
  intros Hp Hv. unfold mergedOrder. apply List.NoDup_app.
  - now apply List.NoDup_filter.
  - now apply List.NoDup_filter.
  - intros i H1 H2. apply filter_In in H1 as [H1 _]. apply filter_In in H2 as [_ H2].
    apply negb_true_iff in H2. apply arrayIncludes_In in H1. congruence.
Qed.

Lemma mergedOrder_same persisted visible :
  (forall i, In i persisted <-> In i visible) ->
  mergedOrder persisted visible = persisted.
Proof.
  intros Hsame. unfold mergedOrder.
  rewrite (forallb_filter_id (arrayIncludes visible) persisted).
  - rewrite filter_nothing; [apply app_nil_r|].
    intros i Hi. apply negb_false_iff, arrayIncludes_In. now apply Hsame.
  - apply forallb_forall. intros i Hi. apply arrayIncludes_In. now apply Hsame.
Qed.

Lemma handleTheaterDrop_permutes draggingTheater targetId prev :
  Permutation prev (handleTheaterDrop draggingTheater targetId prev).
Proof.
  unfold handleTheaterDrop. destruct draggingTheater as [dragging|]; [|reflexivity].
  destruct (negb (truthy dragging) || String.eqb dragging targetId); [reflexivity|].
  destruct (indexOf prev dragging) as [fromIndex|] eqn:Hfrom; [|reflexivity].
  destruct (indexOf prev targetId) as [toIndex|]; [|reflexivity].
  rewrite insertAt_permutes. apply removeAt_permutes. now apply indexOf_nth.
Qed.

End Order.

(** X20. The effect that merges the visible columns into the stored
    order reaches a fixed point after one run.  While a theater is visible
    the merged order holds exactly the visible ids, and no duplicate when
    neither the stored order nor the visible ids had one. *)
Theorem mergeTheaterOrder_settles (prev : list string) (theaters : list Theater) :
  mergeTheaterOrder (mergeTheaterOrder prev theaters) theaters = mergeTheaterOrder prev theaters /\
  (theaters <> [] ->
   (forall i, In i (mergeTheaterOrder prev theaters) <-> In i (theaterIds theaters)) /\
   (List.NoDup prev -> List.NoDup (theaterIds theaters) ->
    List.NoDup (mergeTheaterOrder prev theaters))).
Proof.
  destruct theaters as [|t ts].
  - split; [reflexivity|congruence].
  - assert (Hne : t :: ts <> []) by discriminate.
    rewrite !(mergeTheaterOrder_ids _ _ Hne). split; [apply mergedOrder_settled|].
    intros _. split.
    + intros i. apply mergedOrder_In.
    + apply mergedOrder_NoDup.
Qed.

(** X21. Once the merge effect has run, the columns are rendered in
    exactly the order that a drop leaves behind, and the merge effect does
    not change that order again. *)
Theorem dropped_column_order_is_rendered
    (draggingTheater : option string) (targetId : string)
    (prev : list string) (theaters : list Theater) :
  theaters <> [] ->
  let settled := mergeTheaterOrder prev theaters in
  let next := handleTheaterDrop draggingTheater targetId settled in
  theaterIds (orderedTheaters next theaters) = next /\
  mergeTheaterOrder next theaters = next.
Proof.
  intros Hne settled next.
  assert (Hsame : forall i, In i next <-> In i (theaterIds theaters)).
  { intros i. subst next settled. rewrite (mergeTheaterOrder_ids _ _ Hne).
    rewrite <- (mergedOrder_In prev (theaterIds theaters) i).
    split; apply Permutation_in;
      [symmetry|]; apply handleTheaterDrop_permutes. }
  split.
  - rewrite orderedTheaters_ids. now apply mergedOrder_same.
  - rewrite (mergeTheaterOrder_ids _ _ Hne). now apply mergedOrder_same.
Qed.

(** ** The saved list of the gallery *)

Section SavedList.

Import MovieGallery.

Variable getTime : string -> number.
Variable arraySort : forall A : Type, (A -> A -> number) -> list A -> list A.
Hypothesis arraySort_permutes : forall A cmp xs, Permutation (arraySort A cmp xs) xs.

Lemma existsb_Permutation {A} (p : A -> bool) (xs ys : list A) :
  Permutation xs ys -> existsb p xs = existsb p ys.
Proof.
  intros Hperm. apply eq_true_iff_eq. rewrite !existsb_exists.
  split; intros (x & Hx & Hp); exists x; split; try assumption.
  - now apply (Permutation_in _ Hperm).
  - now apply (Permutation_in _ (Permutation_sym Hperm)).
Qed.

Lemma isSaved_In showtimeId saved :
  isSaved showtimeId saved = true <-> In showtimeId (savedShowtimeIds saved).
Proof.
  unfold isSaved, savedShowtimeIds. rewrite existsb_exists, in_map_iff.
  split; intros (item & H1 & H2); exists item.
  - apply String.eqb_eq in H2. now split.
  - split; [assumption|]. now apply String.eqb_eq.
Qed.

(** What [handleAddShowtimeToList] leaves in the list, up to the order
    the engine's sort gives it. *)
Lemma handleAddShowtimeToList_contents movie showtimeId prev :
  Permutation
    (handleAddShowtimeToList getTime arraySort movie showtimeId prev)
    match find (fun st => String.eqb (MovieShowtime.id st) showtimeId) (Movie.showtimes movie) with
    | Some showtime =>
        if isSaved showtimeId prev then prev
        else (prev ++ [savedEntry movie showtimeId showtime])%list
    | None => prev
    end.
Proof.
  unfold handleAddShowtimeToList.
  destruct (find _ (Movie.showtimes movie)) as [showtime|]; [|reflexivity].
  destruct (isSaved showtimeId prev); [reflexivity|]. apply arraySort_permutes.
Qed.

(** X26. On an engine whose [sort] permutes its argument,
    [handleAddShowtimeToList] keeps every saved entry, keeps the saved ids
    free of duplicates, saves the showtime of the film with the given id
    when there is one and changes nothing otherwise; adding again changes
    nothing. *)
Theorem handleAddShowtimeToList_one_entry_per_showtime
    (movie : Movie.t) (showtimeId : string) (prev : list SavedShowtime.t) :
  let next := handleAddShowtimeToList getTime arraySort movie showtimeId prev in
  (List.NoDup (savedShowtimeIds prev) -> List.NoDup (savedShowtimeIds next)) /\
  (forall item, In item prev -> In item next) /\
  (forall showtime,
      find (fun st => String.eqb (MovieShowtime.id st) showtimeId) (Movie.showtimes movie)
      = Some showtime ->
      isSaved showtimeId next = true /\
      (isSaved showtimeId prev = false -> In (savedEntry movie showtimeId showtime) next)) /\
  (find (fun st => String.eqb (MovieShowtime.id st) showtimeId) (Movie.showtimes movie) = None ->
   next = prev) /\
  handleAddShowtimeToList getTime arraySort movie showtimeId next = next.
Proof.
  intros next.
  pose proof (handleAddShowtimeToList_contents movie showtimeId prev) as Hperm.
  fold next in Hperm.
  destruct (find _ (Movie.showtimes movie)) as [showtime|] eqn:Hfind.
  - destruct (isSaved showtimeId prev) eqn:Hsaved.
    + assert (Hnext : next = prev).
      { subst next. unfold handleAddShowtimeToList. now rewrite Hfind, Hsaved. }
      rewrite Hnext. split; [tauto|]. split; [tauto|]. split; [|split].
      * intros st _. split; [assumption|discriminate].
      * discriminate.
      * unfold handleAddShowtimeToList. now rewrite Hfind, Hsaved.
    + assert (Hin : isSaved showtimeId next = true).
      { unfold isSaved. rewrite (existsb_Permutation _ _ _ Hperm), existsb_app. simpl.
        rewrite String.eqb_refl. apply orb_true_iff. right. reflexivity. }
      split; [|split; [|split; [|split]]].
      * intros Hnd. unfold savedShowtimeIds.
        apply (Permutation_NoDup (Permutation_sym (Permutation_map _ Hperm))).
        rewrite map_app. simpl.
        apply List.NoDup_app; [assumption|repeat constructor; simpl; tauto|].
        intros x Hx [<-|[]]. apply isSaved_In in Hx. congruence.
      * intros item Hitem. apply (Permutation_in _ (Permutation_sym Hperm)).
        apply in_or_app. now left.
      * intros st [= <-]. split; [assumption|]. intros _.
        apply (Permutation_in _ (Permutation_sym Hperm)).
        apply in_or_app. right. now left.
      * discriminate.
      * unfold handleAddShowtimeToList at 1. now rewrite Hfind, Hin.
  - assert (Hnext : next = prev).
    { subst next. unfold handleAddShowtimeToList. now rewrite Hfind. }
    rewrite Hnext. split; [tauto|]. split; [tauto|]. split; [|split].
    + discriminate.
    + reflexivity.
    + unfold handleAddShowtimeToList. now rewrite Hfind.
Qed.

(** X27. On an engine whose [sort] permutes its argument, removing a
    showtime after adding it leaves the entries that removing it would
    have left, the showtime is no longer saved, and removing an id that is
    not saved changes nothing. *)
Theorem handleRemoveSavedShowtime_undoes_add
    (movie : Movie.t) (showtimeId : string) (prev : list SavedShowtime.t) :
  let added := handleAddShowtimeToList getTime arraySort movie showtimeId prev in
  Permutation (handleRemoveSavedShowtime showtimeId added)
              (handleRemoveSavedShowtime showtimeId prev) /\
  isSaved showtimeId (handleRemoveSavedShowtime showtimeId added) = false /\
  (isSaved showtimeId prev = false ->
   handleRemoveSavedShowtime showtimeId prev = prev).
Proof.
  intros added.
  pose proof (handleAddShowtimeToList_contents movie showtimeId prev) as Hperm.
  fold added in Hperm.
  split; [|split].
  - unfold handleRemoveSavedShowtime.
    rewrite (filter_Permutation_compat _ _ _ Hperm).
    destruct (find _ (Movie.showtimes movie)) as [showtime|]; [|reflexivity].
    destruct (isSaved showtimeId prev); [reflexivity|].
    rewrite List.filter_app. simpl. rewrite String.eqb_refl. simpl. now rewrite app_nil_r.
  - unfold isSaved, handleRemoveSavedShowtime.
    destruct (existsb _ _) eqn:E; [|reflexivity].
    apply existsb_exists in E as (item & Hitem & Hid).
    apply filter_In in Hitem as [_ Hitem]. now rewrite Hid in Hitem.
  - intros Hsaved. unfold handleRemoveSavedShowtime. apply forallb_filter_id.
    apply forallb_forall. intros item Hitem. apply negb_true_iff.
    destruct (String.eqb_spec (SavedShowtime.showtimeId item) showtimeId) as [E|]; [|reflexivity].
    exfalso. assert (isSaved showtimeId prev = true); [|congruence].
    apply isSaved_In. rewrite <- E. now apply in_map.
Qed.

End SavedList.

Section OfferedLanguages.

Import MovieGallery.

Variable arraySort : forall A : Type, (A -> A -> number) -> list A -> list A.
Variable localeCompare : string -> string -> number.
Hypothesis arraySort_permutes : forall A cmp xs, Permutation (arraySort A cmp xs) xs.

Lemma In_trimmedLanguages langs l :
  In l (trimmedLanguages langs) <-> l <> "" /\ exists raw, In raw langs /\ trim raw = l.
Proof.
  unfold trimmedLanguages. rewrite in_flat_map. split.
  - intros (raw & Hraw & Hl). rewrite trim_truthy in Hl.
    destruct (truthy (trim raw)) eqn:E; [|destruct Hl].
    destruct Hl as [<-|[]]. apply truthy_true_iff in E. eauto.
  - intros (Hne & raw & Hraw & <-). exists raw. split; [assumption|].
    rewrite trim_truthy. apply truthy_true_iff in Hne. rewrite Hne. now left.
Qed.

(** X28. On an engine whose [sort] permutes its argument, the offered
    spoken languages hold no duplicate, and they are exactly the non-empty
    trimmed languages of the films and of the current selection. *)
Theorem availableSpokenLanguages_lists_trimmed_languages
    (movies : list Movie.t) (selectedSpokenLanguages : list string) :
  let offered := availableSpokenLanguages arraySort localeCompare movies selectedSpokenLanguages in
  List.NoDup offered /\
  forall l,
    In l offered <->
    l <> "" /\
    exists raw,
      trim raw = l /\
      ((exists movie, In movie movies /\ In raw (Movie.spokenLanguages movie)) \/
       In raw selectedSpokenLanguages).
Proof.
  intros offered.
  assert (Hperm : Permutation offered
            (arrayFromSet
               (flat_map (fun movie => trimmedLanguages (Movie.spokenLanguages movie)) movies
                ++ trimmedLanguages selectedSpokenLanguages)))
    by apply arraySort_permutes.
  split.
  - apply (Permutation_NoDup (Permutation_sym Hperm)), arrayFromSet_NoDup.
  - intros l. transitivity
      (In l (flat_map (fun movie => trimmedLanguages (Movie.spokenLanguages movie)) movies
             ++ trimmedLanguages selectedSpokenLanguages)%list).
    { rewrite <- (In_arrayFromSet (_ ++ _)%list).
      split; apply Permutation_in; [|symmetry]; exact Hperm. }
    rewrite in_app_iff, in_flat_map, In_trimmedLanguages. split.
    + intros [(movie & Hmovie & Hl)|(Hne & raw & Hraw & Hl)].
      * apply In_trimmedLanguages in Hl as (Hne & raw & Hraw & Hl). eauto 8.
      * eauto 8.
    + intros (Hne & raw & Hl & [(movie & Hmovie & Hraw)|Hraw]).
      * left. exists movie. split; [assumption|]. apply In_trimmedLanguages. eauto.
      * right. eauto.
Qed.

End OfferedLanguages.

(** ** The filter panel *)

Section Panel.

Import MovieFiltersComponent.

Lemma orElse_orNull value : orElse (orNull value) "" = value.
Proof.
  unfold orNull. destruct (truthy value) eqn:E.
  - unfold orElse. now rewrite E.
  - apply truthy_false_iff in E. now subst.
Qed.


Lemma syncFromFilters_emittedFilters st : syncFromFilters (emittedFilters st) = st.
Proof.
  destruct st. unfold syncFromFilters, emittedFilters.
  cbn [MovieFilters.selectedCity MovieFilters.selectedTheaters
       MovieFilters.selectedSubtitleLanguages MovieFilters.selectedSpokenLanguages
       MovieFilters.selectedSpecials MovieFilters.startTime MovieFilters.endTime
       MovieFilters.startDate MovieFilters.endDate
       selectedCity selectedTheaters selectedSubtitleLanguages selectedSpokenLanguages
       selectedSpecials startTime endTime startDate endDate].
  now rewrite !orElse_orNull.
Qed.

Lemma length_zero {A} (xs : list A) : (0 <? length xs)%nat = false <-> xs = [].
Proof. destruct xs; unfold Nat.ltb; simpl; split; intros H; congruence. Qed.

Lemma hasActiveFilters_false st panel :
  hasActiveFilters st = false <-> values (handleClearFilters panel) = st.
Proof.
  destruct st as [c t sub spo spe st0 et sd ed].
  unfold hasActiveFilters, handleClearFilters.
  simpl. rewrite !orb_false_iff, !truthy_false_iff, !length_zero. split.
  - intros ((((((((-> & ->) & ->) & ->) & ->) & ->) & ->) & ->) & ->). reflexivity.
  - intros [= <- <- <- <- <- <- <- <- <-]. repeat split.
Qed.

End Panel.


Section Clearing.

Import MovieFiltersComponent.

(** X23. [handleClearFilters] leaves the local state as it is exactly
    when no filter is active and the spoken-language and specials sections
    are expanded; [hasActiveFilters] is false exactly when clearing would
    not change the filters handed to the parent.  After clearing it is
    false, and the theaters section is left as it was. *)
Theorem hasActiveFilters_iff_something_to_clear (panel : Panel) :
  (handleClearFilters panel = panel <->
   hasActiveFilters (values panel) = false /\
   spokenLanguagesCollapsed panel = false /\
   specialsCollapsed panel = false) /\
  (hasActiveFilters (values panel) = false <->
   emittedFilters (values (handleClearFilters panel)) = emittedFilters (values panel)) /\
  hasActiveFilters (values (handleClearFilters panel)) = false /\
  theatersCollapsed (handleClearFilters panel) = theatersCollapsed panel.
Proof.
  pose proof (hasActiveFilters_false (values panel) panel) as Hvalues.
  destruct panel as [st tc sc pc]. simpl in Hvalues.
  split; [|split; [|split; reflexivity]].
  - rewrite Hvalues. simpl. split.
    + intros [= H1 H2 H3]. repeat split; congruence.
    + intros (H1 & -> & ->). unfold handleClearFilters. simpl in *. now rewrite H1.
  - rewrite Hvalues. simpl. split.
    + intros E. now rewrite E.
    + intros E. rewrite <- (syncFromFilters_emittedFilters st).
      rewrite <- E. reflexivity.
Qed.

End Clearing.

(** ** From the filter panel to the venue query *)

Section PanelToService.

Import MovieFiltersComponent.

Lemma In_toggled x checked prev y :
  In y (toggled x checked prev) <->
  if String.eqb y x then checked = true else In y prev.
Proof.
  unfold toggled. destruct checked.
  - rewrite in_app_iff. simpl. destruct (String.eqb_spec y x) as [->|Hne].
    + intuition.
    + intuition congruence.
  - rewrite filter_In, negb_true_iff. destruct (String.eqb_spec y x) as [->|Hne].
    + intuition congruence.
    + intuition.
Qed.

Lemma toggled_off_after_on x prev :
  toggled x false (toggled x true prev) = toggled x false prev.
Proof.
  unfold toggled. rewrite List.filter_app. simpl. rewrite String.eqb_refl. simpl.
  apply app_nil_r.
Qed.

End PanelToService.

(** X24. After a change of city the panel shows no selected theater
    names, and the venue scope resolved from the emitted filters is the
    theaters of the new city, or the whole directory when the empty choice
    was picked. *)
Theorem city_change_scopes_the_venue_query
    (up : Upstream) (directory : list CinevilleTheater.t)
    (cities : list City.t) (newCity : string)
    (st : MovieFiltersComponent.State) (caches : Caches) :
  theatersQuery up = Delivered directory ->
  cachesAgree directory caches ->
  let next := MovieFiltersComponent.handleCityChange newCity st in
  MovieFiltersComponent.selectedTheaterNames cities next = [] /\
  exists caches',
    resolveVenueIds up (Some (MovieFiltersComponent.emittedFilters next)) caches =
    (Resolved
       (if String.eqb newCity "" then map CinevilleTheater.id directory
        else map CinevilleTheater.id (List.filter (inCity newCity) directory)),
     caches') /\
    cachesAgree directory caches'.
Proof.
  intros Hup Hagree next. split.
  - unfold MovieFiltersComponent.selectedTheaterNames. simpl.
    destruct (find _ cities) as [city|]; [|reflexivity].
    rewrite filter_nothing; [reflexivity|]. intros t _. reflexivity.
  - rewrite resolveVenueIds_cases. simpl. unfold MovieFiltersComponent.orNull, truthy.
    destruct (String.eqb newCity "") eqn:E; simpl.
    + now apply getAllTheaterIds_agree.
    + rewrite E. now apply getTheaterIdsByCity_agree.
Qed.

(** X25. [handleTheaterChange] sets the membership of the toggled id to
    the state of the checkbox and leaves the other ids alone; unchecking
    after checking equals unchecking.  Once an id is checked, the venue
    scope resolved from the emitted filters is the selection itself, with
    no look at the caches. *)
Theorem checked_theaters_become_the_venue_scope
    (up : Upstream) (theaterId : string) (checked : bool)
    (st : MovieFiltersComponent.State) (caches : Caches) :
  let next := MovieFiltersComponent.handleTheaterChange theaterId checked st in
  (In theaterId (MovieFiltersComponent.selectedTheaters next) <-> checked = true) /\
  (forall other,
      other <> theaterId ->
      In other (MovieFiltersComponent.selectedTheaters next) <->
      In other (MovieFiltersComponent.selectedTheaters st)) /\
  MovieFiltersComponent.selectedTheaters
    (MovieFiltersComponent.handleTheaterChange theaterId false
       (MovieFiltersComponent.handleTheaterChange theaterId true st))
  = MovieFiltersComponent.selectedTheaters
      (MovieFiltersComponent.handleTheaterChange theaterId false st) /\
  (checked = true ->
   resolveVenueIds up (Some (MovieFiltersComponent.emittedFilters next)) caches
   = (Resolved (MovieFiltersComponent.selectedTheaters st ++ [theaterId])%list, caches)).
Proof.
  intros next. split; [|split; [|split]].
  - subst next. simpl. rewrite In_toggled, String.eqb_refl. reflexivity.
  - intros other Hne. subst next. simpl. rewrite In_toggled.
    destruct (String.eqb_spec other theaterId); [contradiction|reflexivity].
  - simpl. apply toggled_off_after_on.
  - intros ->. subst next. rewrite resolveVenueIds_cases. simpl.
    destruct (MovieFiltersComponent.selectedTheaters st); reflexivity.
Qed.

Lemma Engine_insertBy_permutes {A} (cmp : A -> A -> number) (x : A) (xs : list A) :
  Permutation (Engine.insertBy cmp x xs) (x :: xs).
Proof.
  induction xs as [|y rest IH]; simpl; [reflexivity|].
  destruct (Engine.negative (cmp y x)); [|reflexivity].
  rewrite IH. apply perm_swap.
Qed.

Lemma Engine_arraySort_permutes (A : Type) (cmp : A -> A -> number) (xs : list A) :
  Permutation (Engine.arraySort A cmp xs) xs.
Proof.
  unfold Engine.arraySort. induction xs as [|x rest IH]; simpl; [reflexivity|].
  rewrite Engine_insertBy_permutes. now constructor.
Qed.

Lemma getAvailableSpecials_sorted_labels_witness :
  exists st1 r,
    getAvailableSpecials Scenario.today (Scenario.catalog Scenario.showtimes)
      (Some Scenario.anyFilm) emptyCaches = (Resolved r, st1) /\
    Sorted (fun a b => String.leb a b = true) (specials r) /\
    List.NoDup (specials r) /\
    forall x,
      In x (specials r) <->
      exists s label,
        In s Scenario.showtimes /\ CinevilleShowtime.specials s = Some label /\
        x = trim label /\ x <> "".
Proof.
  eexists.
  eapply (getAvailableSpecials_sorted_labels Scenario.today
            (Scenario.catalog Scenario.showtimes) (Some Scenario.anyFilm) emptyCaches
            _ _ Scenario.showtimes); reflexivity.
Defined.

Lemma getTheaters_groups_by_city_witness :
  exists st1 cities,
    getTheaters Engine.arraySort Engine.localeCompare
      (Scenario.catalog Scenario.showtimes) emptyCaches = (Resolved cities, st1) /\
    List.NoDup (map City.name cities) /\
    (forall c,
        In c cities ->
        City.theaters c <> [] /\
        Permutation (City.theaters c)
          (map toTheater (List.filter (inCity (City.name c)) Scenario.directory))) /\
    (forall t,
        In t Scenario.directory ->
        exists c,
          In c cities /\
          City.name c = CinevilleAddress.city (CinevilleTheater.address t)).
Proof.
  eexists.
  eapply (getTheaters_groups_by_city Engine.arraySort Engine.localeCompare
            Engine_arraySort_permutes (Scenario.catalog Scenario.showtimes) emptyCaches
            _ Scenario.directory).
  reflexivity.
Defined.

Lemma getTheaters_never_rejects_witness :
  exists cities st',
    getTheaters Engine.arraySort Engine.localeCompare Scenario.offline emptyCaches
    = (Resolved cities, st') /\
    (theatersCache emptyCaches = None -> theatersQuery Scenario.offline = Failed ->
     cities = [] /\ st' = emptyCaches).
Proof.
  apply (getTheaters_never_rejects Engine.arraySort Engine.localeCompare
           Engine_arraySort_permutes Scenario.offline emptyCaches).
Defined.

Lemma getPopularMovies_distinct_film_ids_witness :
  let r := Scenario.responseOf (Scenario.evening Scenario.anyFilm Scenario.showtimes) in
  List.NoDup (map Movie.id (MovieResponse.results r)) /\
  MovieResponse.total_results r = Z.of_nat (length (MovieResponse.results r)).
Proof.
  intros r.
  apply (getPopularMovies_distinct_film_ids Scenario.today
           (Scenario.catalog Scenario.showtimes) (Some Scenario.anyFilm) emptyCaches
           (snd (Scenario.evening Scenario.anyFilm Scenario.showtimes)) r).
  reflexivity.
Defined.

Lemma getPopularMovies_showtimes_in_delivery_order_witness :
  exists r st',
    getPopularMovies Scenario.today (Scenario.catalog Scenario.showtimes)
      (Some Scenario.anyFilm) emptyCaches = (Resolved r, st') /\
    forall movie,
      In movie (MovieResponse.results r) ->
      Movie.showtimes movie
      = map toMovieShowtime
          (ofFilm (Movie.id movie) (kept (Some Scenario.anyFilm) Scenario.showtimes)).
Proof.
  apply (getPopularMovies_showtimes_in_delivery_order Scenario.today
           (Scenario.catalog Scenario.showtimes) (Some Scenario.anyFilm) emptyCaches
           Scenario.showtimes).
  reflexivity.
Defined.

Lemma handleTheaterDrop_moves_column_witness :
  let next := MovieTimeline.handleTheaterDrop (Some "C") "A" ["A"; "B"; "C"] in
  Permutation ["A"; "B"; "C"] next /\
  length next = length ["A"; "B"; "C"] /\
  nth_error next 0 = Some "C".
Proof.
  apply (handleTheaterDrop_moves_column "C" "A" ["A"; "B"; "C"] 2 0);
    try reflexivity; discriminate.
Defined.

Lemma handleTheaterDrop_ignores_strangers_witness :
  MovieTimeline.handleTheaterDrop (Some "Z") "A" ["A"; "B"; "C"] = ["A"; "B"; "C"].
Proof.
  apply (handleTheaterDrop_ignores_strangers (Some "Z") "A" ["A"; "B"; "C"]).
  right. right. right. right. exists "Z". split; [reflexivity|].
  simpl. intros [H|[H|[H|[]]]]; discriminate.
Defined.

Lemma uniqueTheaters_one_column_per_venue_witness :
  let theaters :=
    MovieTimeline.uniqueTheaters Engine.arraySort Engine.localeCompare Scenario.eveningMovies in
  let shown := flat_map Movie.showtimes Scenario.eveningMovies in
  List.NoDup (MovieTimeline.theaterIds theaters) /\
  (forall i,
      In i (MovieTimeline.theaterIds theaters) <->
      exists st, In st shown /\ MovieShowtime.theaterId st = i) /\
  (forall t,
      In t theaters ->
      exists st,
        find (fun st => String.eqb (MovieShowtime.theaterId st) (MovieTimeline.id t))
          (rev shown) = Some st /\
        MovieTimeline.name t = MovieShowtime.theaterName st).
Proof.
  apply (uniqueTheaters_one_column_per_venue Engine.arraySort Engine.localeCompare
           Engine_arraySort_permutes Scenario.eveningMovies).
Defined.

Lemma timelineData_rows_are_showtimes_witness :
  let rows :=
    MovieTimeline.timelineData IsoDate.getTime Engine.arraySort Engine.toLocaleTimeString
      Scenario.eveningMovies in
  length rows = length (flat_map Movie.showtimes Scenario.eveningMovies) /\
  forall row,
    In row rows ->
    In (MovieTimeline.TimelineRow.movie row) Scenario.eveningMovies /\
    exists st,
      MovieTimeline.findShowtime (MovieTimeline.TimelineRow.movie row)
        (MovieTimeline.TimelineShowtime.showtimeId (MovieTimeline.TimelineRow.showtime row))
      = Some st /\
      In st (Movie.showtimes (MovieTimeline.TimelineRow.movie row)) /\
      MovieTimeline.currentShowtimeStart IsoDate.getTime (MovieTimeline.TimelineRow.movie row)
        (MovieTimeline.TimelineShowtime.showtimeId (MovieTimeline.TimelineRow.showtime row))
      = IsoDate.getTime (MovieShowtime.startDate st).
Proof.
  apply (timelineData_rows_are_showtimes IsoDate.getTime Engine.arraySort
           Engine.toLocaleTimeString Engine_arraySort_permutes Scenario.eveningMovies).
Defined.

Lemma dropped_column_order_is_rendered_witness :
  let next :=
    MovieTimeline.handleTheaterDrop (Some "C") "B"
      (MovieTimeline.mergeTheaterOrder ["B"; "A"] Scenario.columns) in
  MovieTimeline.theaterIds (MovieTimeline.orderedTheaters next Scenario.columns) = next /\
  MovieTimeline.mergeTheaterOrder next Scenario.columns = next.
Proof.
  apply (dropped_column_order_is_rendered (Some "C") "B" ["B"; "A"] Scenario.columns).
  discriminate.
Defined.

Lemma handleAddShowtimeToList_one_entry_per_showtime_witness :
  let next :=
    MovieGallery.handleAddShowtimeToList IsoDate.getTime Engine.arraySort
      Scenario.aftersun "s4" [] in
  (List.NoDup (MovieGallery.savedShowtimeIds []) ->
   List.NoDup (MovieGallery.savedShowtimeIds next)) /\
  (forall item, In item [] -> In item next) /\
  (forall showtime,
      find (fun st => String.eqb (MovieShowtime.id st) "s4") (Movie.showtimes Scenario.aftersun)
      = Some showtime ->
      MovieGallery.isSaved "s4" next = true /\
      (MovieGallery.isSaved "s4" [] = false ->
       In (MovieGallery.savedEntry Scenario.aftersun "s4" showtime) next)) /\
  (find (fun st => String.eqb (MovieShowtime.id st) "s4") (Movie.showtimes Scenario.aftersun)
   = None -> next = []) /\
  MovieGallery.handleAddShowtimeToList IsoDate.getTime Engine.arraySort
    Scenario.aftersun "s4" next = next.
Proof.
  apply (handleAddShowtimeToList_one_entry_per_showtime IsoDate.getTime Engine.arraySort
           Engine_arraySort_permutes Scenario.aftersun "s4" []).
Defined.

Lemma handleRemoveSavedShowtime_undoes_add_witness :
  let added :=
    MovieGallery.handleAddShowtimeToList IsoDate.getTime Engine.arraySort
      Scenario.aftersun "s4" [] in
  Permutation (MovieGallery.handleRemoveSavedShowtime "s4" added)
              (MovieGallery.handleRemoveSavedShowtime "s4" []) /\
  MovieGallery.isSaved "s4" (MovieGallery.handleRemoveSavedShowtime "s4" added) = false /\
  (MovieGallery.isSaved "s4" [] = false ->
   MovieGallery.handleRemoveSavedShowtime "s4" [] = []).
Proof.
  apply (handleRemoveSavedShowtime_undoes_add IsoDate.getTime Engine.arraySort
           Engine_arraySort_permutes Scenario.aftersun "s4" []).
Defined.

Lemma availableSpokenLanguages_lists_trimmed_languages_witness :
  let offered :=
    MovieGallery.availableSpokenLanguages Engine.arraySort Engine.localeCompare
      Scenario.eveningMovies [" Dutch "] in
  List.NoDup offered /\
  forall l,
    In l offered <->
    l <> "" /\
    exists raw,
      trim raw = l /\
      ((exists movie, In movie Scenario.eveningMovies /\ In raw (Movie.spokenLanguages movie)) \/
       In raw [" Dutch "]).
Proof.
  apply (availableSpokenLanguages_lists_trimmed_languages Engine.arraySort
           Engine.localeCompare Engine_arraySort_permutes Scenario.eveningMovies [" Dutch "]).
Defined.

Lemma city_change_scopes_the_venue_query_witness :
  let next :=
    MovieFiltersComponent.handleCityChange "Utrecht"
      (MovieFiltersComponent.syncFromFilters Scenario.rialtoInAmsterdam) in
  MovieFiltersComponent.selectedTheaterNames [] next = [] /\
  exists caches',
    resolveVenueIds (Scenario.catalog Scenario.showtimes)
      (Some (MovieFiltersComponent.emittedFilters next)) emptyCaches =
    (Resolved ["t3"], caches') /\
    cachesAgree Scenario.directory caches'.
Proof.
  apply (city_change_scopes_the_venue_query (Scenario.catalog Scenario.showtimes)
           Scenario.directory [] "Utrecht"
           (MovieFiltersComponent.syncFromFilters Scenario.rialtoInAmsterdam) emptyCaches).
  - reflexivity.
  - apply cachesAgree_empty.
Defined.

Section OverlapExamples.

Import Interleaving.

(** The directory arrives for a [getAllTheaterIds] that is still in
    flight; nothing that follows fetches it again. *)
Lemma directory_cache_settles_witness :
  let cfg :=
    fst (run [Invoke GetAllTheaterIds; Respond 0 (Delivered Scenario.directory)] initial) in
  let result :=
    run [Invoke LoadTheaters; Resume 0; Invoke (GetTheaterIdsByCity "Utrecht"); Resume 0] cfg in
  theatersCache (caches (fst result)) = Some Scenario.directory /\
  existsb awaitsRequest (inFlight (fst result)) = false /\
  (forall c, ~ In (Requested c) (snd result)) /\
  (forall v, In (Returned LoadTheaters v) (snd result) -> v = Directory Scenario.directory).
Proof.
  apply (directory_cache_settles
           [Invoke GetAllTheaterIds; Respond 0 (Delivered Scenario.directory)]
           [Invoke LoadTheaters; Resume 0; Invoke (GetTheaterIdsByCity "Utrecht"); Resume 0]
           Scenario.directory); reflexivity.
Defined.

(** A failed fetch has left the empty list for Amsterdam; it is served
    from then on, also after the directory has arrived. *)
Lemma city_ids_settle_witness :
  let cfg :=
    fst (run [Invoke (GetTheaterIdsByCity "Amsterdam"); Respond 0 Failed; Resume 0] initial) in
  let result :=
    run [Invoke LoadTheaters; Respond 0 (Delivered Scenario.directory);
         Invoke (GetTheaterIdsByCity "Amsterdam")] cfg in
  cityTheaterIdsCache (caches (fst result)) !! "Amsterdam" = Some [] /\
  existsb (isCityCall "Amsterdam") (inFlight (fst result)) = false /\
  ~ In (Requested (GetTheaterIdsByCity "Amsterdam")) (snd result) /\
  (forall v, In (Returned (GetTheaterIdsByCity "Amsterdam") v) (snd result) -> v = Ids []).
Proof.
  apply (city_ids_settle
           [Invoke (GetTheaterIdsByCity "Amsterdam"); Respond 0 Failed; Resume 0]
           [Invoke LoadTheaters; Respond 0 (Delivered Scenario.directory);
            Invoke (GetTheaterIdsByCity "Amsterdam")]
           "Amsterdam" []); reflexivity.
Defined.

Lemma all_ids_settle_witness :
  let cfg :=
    fst (run [Invoke GetAllTheaterIds; Respond 0 (Delivered Scenario.directory); Resume 0]
           initial) in
  let result := run [Invoke GetAllTheaterIds; Invoke LoadTheaters] cfg in
  allTheaterIdsCache (caches (fst result)) = Some ["t1"; "t2"; "t3"] /\
  existsb isAllIdsCall (inFlight (fst result)) = false /\
  ~ In (Requested GetAllTheaterIds) (snd result) /\
  (forall v, In (Returned GetAllTheaterIds v) (snd result) -> v = Ids ["t1"; "t2"; "t3"]).
Proof.
  apply (all_ids_settle
           [Invoke GetAllTheaterIds; Respond 0 (Delivered Scenario.directory); Resume 0]
           [Invoke GetAllTheaterIds; Invoke LoadTheaters]
           ["t1"; "t2"; "t3"]); reflexivity.
Defined.

End OverlapExamples.

